(** * SEBI RAG bot: retrieval-and-correction pipeline

    A shallow embedding of the core of the repository
    ([retriever.py], [rag_chain.py], [chunker.py], [ingest.py]) and the
    properties the specification states about it.

    Conventions of the embedding.
    - A Python [str] is a Stdlib [string] holding the bytes of its UTF-8
      encoding: a character is one byte below 128, or a leading byte and
      the bytes 128 to 191 that continue it.  Lengths and slices count
      characters, and white space is that of [str.isspace].
    - A Python [float] is an IEEE-754 binary64 value, written as a
      [spec_float] with the operations of [SpecFloat] at the binary64
      precision and exponent range of [FloatOps]; these are the operations
      the primitive floats of the kernel implement.
    - Calls to the language model, to the vector store and to the id
      generator are effects: the functions that make them run in a small
      state-and-exception monad over an abstract world.
    - Dictionaries whose iteration order matters are association lists;
      the others are [gmap]s. *)

From Stdlib Require Import ZArith Ascii String List Bool Lia Permutation Sorted.
From Stdlib Require Import Floats.SpecFloat Floats.FloatOps.
From Stdlib Require OrderedTypeEx QArith.
From stdpp Require Import base option list strings gmap.
Import ListNotations.

Set Warnings "-abstract-large-number".

#[local] Open Scope string_scope.
#[local] Open Scope list_scope.

(* ===================================================================== *)
(** * Python strings *)
(* ===================================================================== *)

Module PyStr.

(** The byte [c] has the code [n]. *)
Definition byte_is (c : ascii) (n : nat) : bool := Nat.eqb (nat_of_ascii c) n.

(** [str.isspace] on one character, read off the bytes of its encoding.
    The white characters of Python are TAB, LF, VT, FF, CR, the separators
    FS, GS, RS, US and the space, which take one byte; U+0085 and U+00A0
    (C2 85, C2 A0), which take two; and U+1680 (E1 9A 80), U+2000 to
    U+200A (E2 80 80 to E2 80 8A), U+2028, U+2029, U+202F (E2 80 A8,
    E2 80 A9, E2 80 AF), U+205F (E2 81 9F) and U+3000 (E3 80 80), which
    take three. *)
Definition is_space (c : ascii) : bool :=
  let n := nat_of_ascii c in
  (Nat.leb 9 n && Nat.leb n 13) || (Nat.leb 28 n && Nat.leb n 32).

Definition is_space2 (c1 c2 : ascii) : bool :=
  byte_is c1 194 && (byte_is c2 133 || byte_is c2 160).

Definition is_space3 (c1 c2 c3 : ascii) : bool :=
  let n3 := nat_of_ascii c3 in
  (byte_is c1 225 && byte_is c2 154 && byte_is c3 128)
  || (byte_is c1 226 && byte_is c2 128
      && ((Nat.leb 128 n3 && Nat.leb n3 138)
          || byte_is c3 168 || byte_is c3 169 || byte_is c3 175))
  || (byte_is c1 226 && byte_is c2 129 && byte_is c3 159)
  || (byte_is c1 227 && byte_is c2 128 && byte_is c3 128).

(** What is left of [s] behind the white character it starts with, if it
    starts with one. *)
Definition white_prefix (s : string) : option string :=
  match s with
  | String c1 r1 =>
      if is_space c1 then Some r1 else
      match r1 with
      | String c2 r2 =>
          if is_space2 c1 c2 then Some r2 else
          match r2 with
          | String c3 r3 => if is_space3 c1 c2 c3 then Some r3 else None
          | EmptyString => None
          end
      | EmptyString => None
      end
  | EmptyString => None
  end.

(** A byte that continues a character begun before it: 10xxxxxx. *)
Definition is_cont (c : ascii) : bool :=
  let n := nat_of_ascii c in Nat.leb 128 n && Nat.leb n 191.

(** [len(s)]: the characters of [s], one for each byte that begins one. *)
Fixpoint len (s : string) : nat :=
  match s with
  | EmptyString => 0
  | String c r => (if is_cont c then 0 else 1) + len r
  end.

Definition is_upper (c : ascii) : bool :=
  let n := nat_of_ascii c in Nat.leb 65 n && Nat.leb n 90.

Definition lower_char (c : ascii) : ascii :=
  if is_upper c then ascii_of_nat (nat_of_ascii c + 32) else c.

(** The lower case of U+0130: an [i] and the combining dot U+0307 (CC 87). *)
Definition i_dot : string :=
  String "i" (String (ascii_of_nat 204) (String (ascii_of_nat 135) EmptyString)).

(** [s.lower()], exact in the ASCII characters of the result: the capitals
    A to Z give their small letters, and so do the two characters outside
    ASCII whose lower case holds an ASCII letter, U+0130 (C4 B0), which
    gives [i] and U+0307, and the Kelvin sign U+212A (E2 84 AA), which
    gives [k].  The other letters outside ASCII are left as they are: their
    lower case is outside ASCII again, and the code reads the result only
    through [in] tests on ASCII words, which cannot tell them apart. *)
Fixpoint lower (s : string) : string :=
  match s with
  | EmptyString => EmptyString
  | String c1 r1 =>
      match r1 with
      | String c2 r2 =>
          if byte_is c1 196 && byte_is c2 176 then i_dot +:+ lower r2 else
          match r2 with
          | String c3 r3 =>
              if byte_is c1 226 && byte_is c2 132 && byte_is c3 170
              then String "k" (lower r3)
              else String (lower_char c1) (lower r1)
          | EmptyString => String (lower_char c1) (lower r1)
          end
      | EmptyString => String (lower_char c1) (lower r1)
      end
  end.

(** [s.lstrip()] *)
Fixpoint lstrip (s : string) : string :=
  match s with
  | EmptyString => EmptyString
  | String c1 r1 =>
      if is_space c1 then lstrip r1 else
      match r1 with
      | String c2 r2 =>
          if is_space2 c1 c2 then lstrip r2 else
          match r2 with
          | String c3 r3 => if is_space3 c1 c2 c3 then lstrip r3 else s
          | EmptyString => s
          end
      | EmptyString => s
      end
  end.

(** Empty or white characters only. *)
Fixpoint blank (s : string) : bool :=
  match s with
  | EmptyString => true
  | String c1 r1 =>
      if is_space c1 then blank r1 else
      match r1 with
      | String c2 r2 =>
          if is_space2 c1 c2 then blank r2 else
          match r2 with
          | String c3 r3 => if is_space3 c1 c2 c3 then blank r3 else false
          | EmptyString => false
          end
      | EmptyString => false
      end
  end.

(** [s.rstrip()]: the string is cut where nothing but white characters
    follows. *)
Fixpoint rstrip (s : string) : string :=
  match s with
  | EmptyString => EmptyString
  | String c r => if blank s then EmptyString else String c (rstrip r)
  end.

(** [s.strip()] *)
Definition strip (s : string) : string := rstrip (lstrip s).

(** [needle in s] *)
Fixpoint contains (needle s : string) : bool :=
  String.prefix needle s ||
  match s with
  | EmptyString => false
  | String _ r => contains needle r
  end.

(** [s[:n]]: the first [n] characters, each with the bytes that continue
    it. *)
Fixpoint take (n : nat) (s : string) : string :=
  match s with
  | EmptyString => EmptyString
  | String c r =>
      if is_cont c then String c (take n r)
      else match n with
           | 0 => EmptyString
           | S n' => String c (take n' r)
           end
  end.

(** [s.split(sep)] for a one-character separator: the pieces between the
    separators, empty pieces included; never the empty list. *)
Fixpoint split (sep : ascii) (s : string) : list string :=
  match s with
  | EmptyString => [EmptyString]
  | String c r =>
      if Ascii.eqb c sep then EmptyString :: split sep r
      else match split sep r with
           | [] => [String c EmptyString]
           | p :: ps => String c p :: ps
           end
  end.

(** [sep.join(parts)] *)
Fixpoint join (sep : string) (parts : list string) : string :=
  match parts with
  | [] => EmptyString
  | [p] => p
  | p :: ps => p +:+ sep +:+ join sep ps
  end.

(** [s[n:]]: what [s[:n]] leaves. *)
Fixpoint drop (n : nat) (s : string) : string :=
  match s with
  | EmptyString => EmptyString
  | String c r =>
      if is_cont c then drop n r
      else match n with
           | 0 => s
           | S n' => drop n' r
           end
  end.

(** Truthiness of a string: [bool(s)]. *)
Definition nonempty (s : string) : bool :=
  match s with EmptyString => false | _ => true end.

(** [a or b] on strings. *)
Definition or_else (a b : string) : string := if nonempty a then a else b.

(** [s1 < s2]: lexicographic on the characters' codes. *)
Definition lt (s1 s2 : string) : bool := String.ltb s1 s2.

(** The mathematical notion [contains] decides. *)
Definition substring_of (needle s : string) : Prop :=
  exists pre post, s = pre +:+ needle +:+ post.

(** [s.replace(old, new)] for a one-character [old]. *)
Fixpoint replace_char (old : ascii) (new s : string) : string :=
  match s with
  | EmptyString => EmptyString
  | String c r =>
      if Ascii.eqb c old then new +:+ replace_char old new r
      else String c (replace_char old new r)
  end.

(** [c in s] for one character. *)
Fixpoint has_char (c : ascii) (s : string) : bool :=
  match s with
  | EmptyString => false
  | String c' r => Ascii.eqb c' c || has_char c r
  end.

(** The bars of [s] that no backslash stands right in front of;
    [escaped] tells whether a backslash stands right in front of [s]. *)
Fixpoint count_bars (escaped : bool) (s : string) : nat :=
  match s with
  | EmptyString => 0
  | String c r =>
      (if Ascii.eqb c "|" && negb escaped then 1 else 0)
      + count_bars (Ascii.eqb c "\") r
  end.

End PyStr.


(** A line feed, and the separator the context blocks are joined with. *)
Definition LF : string := String (ascii_of_nat 10) EmptyString.
Definition BLOCK_SEP : string := LF +:+ LF +:+ "---" +:+ LF +:+ LF.

(* ===================================================================== *)
(** * Python floats (IEEE-754 binary64) *)
(* ===================================================================== *)

Module PyFloat.

Definition t : Type := spec_float.

(** [0.0] and [1.0] *)
Definition zero : t := S754_zero false.
Definition one : t := Eval vm_compute in binary_normalize prec emax 1 0 false.

(** [float(z)] for an integer, rounded to nearest even. *)
Definition of_int (z : Z) : t := binary_normalize prec emax z 0 false.

Definition add (x y : t) : t := SFadd prec emax x y.
Definition div (x y : t) : t := SFdiv prec emax x y.
Definition ltb (x y : t) : bool := SFltb x y.

(** [float(z)] does not overflow. *)
Definition fits (z : Z) : bool :=
  match of_int z with
  | S754_infinity _ => false
  | _ => true
  end.




End PyFloat.

(* ===================================================================== *)
(** * Exceptions and effects *)
(* ===================================================================== *)

(** The outcome of a Python call: a value, or a raised exception (with its
    message). *)
Inductive Result (A : Type) : Type :=
| Ok (a : A)
| Raise (e : string).
Arguments Ok {A} a.
Arguments Raise {A} e.

(** A computation over a state [S] that may raise; the state a raising
    computation leaves behind is kept, as the calls it made have been made. *)
Definition M (S A : Type) : Type := S -> Result A * S.

Definition ret {S A : Type} (a : A) : M S A := fun s => (Ok a, s).

Definition bind {S A B : Type} (m : M S A) (f : A -> M S B) : M S B :=
  fun s =>
    match m s with
    | (Ok a, s') => f a s'
    | (Raise e, s') => (Raise e, s')
    end.

(** [try: body  except Exception as e: handler] *)
Definition try_except {S A : Type} (body : M S A) (handler : string -> M S A)
  : M S A :=
  fun s =>
    match body s with
    | (Ok a, s') => (Ok a, s')
    | (Raise e, s') => handler e s'
    end.

(** A pure computation that may raise, run inside [M]. *)
Definition lift_result {S A : Type} (r : Result A) : M S A := fun s => (r, s).

Notation "'let*' x ':=' c1 'in' c2" := (bind c1 (fun x => c2))
  (at level 10, x name, c1 at level 100, c2 at level 200).

(* ===================================================================== *)
(** * Configuration ([config.py]) *)
(* ===================================================================== *)

Definition CHILD_CHUNK_SIZE : nat := 500.
Definition CHILD_CHUNK_OVERLAP : nat := 50.
Definition PARENT_CHUNK_SIZE : nat := 2000.
Definition PARENT_CHUNK_OVERLAP : nat := 200.
Definition CHARS_PER_TOKEN : nat := 4.
Definition TOP_K : nat := 5.
Definition MULTI_QUERY_COUNT : nat := 3.
Definition RRF_K : Z := 60.

(* ===================================================================== *)
(** * Data model *)
(* ===================================================================== *)

(** A value stored in a chunk's metadata dictionary: the chunker writes
    strings and booleans. *)
Inductive MetaVal : Type :=
| MStr (s : string)
| MBool (b : bool).

#[global] Instance MetaVal_eq_dec : EqDecision MetaVal.
Proof. solve_decision. Defined.

(** [str(v)], as an f-string renders a metadata value. *)
Definition py_str (v : MetaVal) : string :=
  match v with
  | MStr s => s
  | MBool true => "True"
  | MBool false => "False"
  end.

(** A retrieved chunk: a LangChain [Document]. *)
Record Document : Type := mkDocument {
  page_content : string;
  metadata : gmap string MetaVal;
}.

#[global] Instance Document_eq_dec : EqDecision Document.
Proof. solve_decision. Defined.

(** [doc.metadata.get(key)] and [doc.metadata.get(key, default)] *)
Definition meta_get (doc : Document) (key : string) : option MetaVal :=
  metadata doc !! key.
Definition meta_get_or (doc : Document) (key : string) (dflt : string) : MetaVal :=
  default (MStr dflt) (metadata doc !! key).

(** The four chains of the pipeline, each with the variables its prompt
    template is filled with. *)
Inductive ChainInput : Type :=
| MultiQueryChain (question : string) (n : nat)
| RelevanceChain (document question : string)
| HallucinationChain (documents answer : string)
| RagChain (question child_context parent_context definitions : string).

(** The state the pipeline runs in: the world outside the program (the
    language model, the vector store), and a record of the chains invoked
    so far. *)
Record PipelineState (World : Type) : Type := mkPState {
  world : World;
  invoked : list ChainInput;
}.
Arguments mkPState {World} world invoked.
Arguments world {World} p.
Arguments invoked {World} p.

(** A ChromaDB where-filter as [build_metadata_filter] builds it. *)
Inductive Clause : Type :=
| AudienceIs (aud : string)
| IsLatestIs (b : bool)
| StatusIs (s : string).

Inductive MetaFilter : Type :=
| Where (c : Clause)
| WhereAnd (cs : list Clause).

(** The dictionary [retrieve] returns. *)
Record Retrieval : Type := mkRetrieval {
  child_docs : list Document;
  child_context : string;
  parent_context : string;
  definitions : string;
  r_queries_used : list string;
  metadata_filter : option MetaFilter;
}.

(** One entry of the [sources] list of an answer. *)
Record Source : Type := mkSource {
  src_file : MetaVal;
  src_section : MetaVal;
  src_date : MetaVal;
  src_audience : MetaVal;
  src_status : MetaVal;
  src_pages : MetaVal;
}.

(** The dictionary [query] returns. *)
Record QueryResult : Type := mkQueryResult {
  answer : string;
  sources : list Source;
  confidence : string;
  hallucination_check : string;
  queries_used : list string;
  num_relevant : nat;
  num_retrieved : nat;
}.

(** A chunk as the chunker emits it: [{"id", "text", "metadata"}]. *)
Record Chunk : Type := mkChunk {
  chunk_id : string;
  chunk_text : string;
  chunk_metadata : gmap string MetaVal;
}.

(** The fields of [doc_info] the chunker reads; the optional ones are read
    with [.get] and a default. *)
Record DocInfo : Type := mkDocInfo {
  di_full_text : string;
  di_filename : string;
  di_title : string;
  di_date : option string;
  di_audience : option string;
  di_subject : option string;
  di_is_latest : option bool;
  di_status : option string;
  di_references : option (list string);
}.

(** The arguments a [RecursiveCharacterTextSplitter] is built with. *)
Record Splitter : Type := mkSplitter {
  chunk_size : nat;
  chunk_overlap : nat;
  separators : list string;
}.

(** The fields of a circular's dictionary that temporal versioning reads
    and writes; a key that may be absent is an [option]. *)
Record Circular : Type := mkCircular {
  filename : string;
  subject_normalized : option string;
  date_parsed : option string;
  is_latest : option bool;
  status : option string;
  version_count : option nat;
  all_versions : option (list string);
}.

(* ===================================================================== *)
(** * Sorting *)
(* ===================================================================== *)

(** [sorted(l, key=key, reverse=True)] and [l.sort(key=key, reverse=True)]:
    Python's sort is stable, also with [reverse=True], and compares keys
    with [<] only.  An element is placed after the elements whose key is
    strictly greater and before all others. *)
Fixpoint insert_desc {A K : Type} (lt : K -> K -> bool) (key : A -> K)
  (x : A) (l : list A) : list A :=
  match l with
  | [] => [x]
  | y :: l' =>
      if lt (key x) (key y) then y :: insert_desc lt key x l' else x :: l
  end.

Definition sorted_desc {A K : Type} (lt : K -> K -> bool) (key : A -> K)
  (l : list A) : list A :=
  fold_right (insert_desc lt key) [] l.

(** [a] stands before [b] in [l]. *)
Definition before {A : Type} (l : list A) (a b : A) : Prop :=
  exists i j, i < j /\ l !! i = Some a /\ l !! j = Some b.

(** No element is followed by one of strictly greater key. *)
Definition descending {A K : Type} (lt : K -> K -> bool) (key : A -> K)
  (l : list A) : Prop :=
  forall a b, before l a b -> lt (key a) (key b) = false.

(** What a stable descending sort of [l] returns: [out] rearranges [l]; no
    element is followed by one of strictly greater key; and of two elements
    neither of which has the smaller key, the one that stands first in
    [out] stood first in [l]. *)
Definition stable_desc_sorted {A K : Type} (lt : K -> K -> bool)
  (key : A -> K) (l out : list A) : Prop :=
  Permutation out l /\
  descending lt key out /\
  forall a b,
    before out a b -> lt (key b) (key a) = false -> before l a b.

(** A dictionary whose order of keys matters, as an association list.
    [dict_upd dflt f key d] is [d.setdefault(key, dflt)] followed by the
    update [d[key] = f(d[key])]: a key the dictionary holds keeps its place,
    a new key goes to the end. *)
Fixpoint dict_upd {V : Type} (dflt : V) (f : V -> V) (key : string)
  (d : list (string * V)) : list (string * V) :=
  match d with
  | [] => [(key, f dflt)]
  | (k0, v) :: rest =>
      if String.eqb k0 key then (k0, f v) :: rest
      else (k0, v) :: dict_upd dflt f key rest
  end.

(** [d.get(key, dflt)] *)
Fixpoint dict_get {V : Type} (dflt : V) (key : string)
  (d : list (string * V)) : V :=
  match d with
  | [] => dflt
  | (k0, v) :: rest => if String.eqb k0 key then v else dict_get dflt key rest
  end.

(** The first occurrence of every element, in order: the order in which a
    dictionary comes to hold its keys. *)
Fixpoint first_seen (seen l : list string) : list string :=
  match l with
  | [] => []
  | x :: l' =>
      if bool_decide (x ∈ seen) then first_seen seen l'
      else x :: first_seen (seen ++ [x]) l'
  end.

(* ===================================================================== *)
(** * Metadata filter ([SEBIRetriever.build_metadata_filter]) *)
(* ===================================================================== *)

Definition audience_map : list (string * string) :=
  [ ("stock broker", "Stock Brokers");
    ("mutual fund", "Mutual Funds");
    ("depositor", "Depositories");
    ("credit rating", "Credit Rating Agencies (CRAs)");
    ("portfolio manager", "Portfolio Managers");
    ("research analyst", "Research Analysts");
    ("investment adviser", "Investment Advisers");
    ("registrar", "Registrars to an Issue and Share Transfer Agents");
    ("debenture trustee", "Debenture Trustees (DTs)");
    ("stock exchange", "Stock Exchanges and Clearing Corporations");
    ("clearing corporation", "Stock Exchanges and Clearing Corporations");
    ("invit", "Infrastructure Investment Trusts (InvITs)");
    ("reit", "Real Estate Investment Trusts (REITs)");
    ("esg", "ESG Rating Providers (ERPs)");
    ("social stock", "Social Stock Exchange");
    ("listing obligation", "Listed Entities");
    ("issue of capital", "Market Participants") ].

(** The loop over [audience_map] with its [break]: the first keyword found
    in the question gives the one audience clause. *)
Fixpoint audience_clause (q : string) (table : list (string * string))
  : list Clause :=
  match table with
  | [] => []
  | (kw, aud) :: rest =>
      if PyStr.contains kw q then [AudienceIs aud] else audience_clause q rest
  end.

(** [any(w in q for w in words)] *)
Definition any_in (words : list string) (q : string) : bool :=
  existsb (fun w => PyStr.contains w q) words.

Definition build_metadata_filter (question : string) : option MetaFilter :=
  let q := PyStr.lower question in
  let clauses := audience_clause q audience_map in
  let clauses :=
    if any_in ["latest"; "current"; "most recent"; "newest"] q
    then clauses ++ [IsLatestIs true] else clauses in
  let clauses :=
    if any_in ["active"; "in force"; "in effect"] q
    then clauses ++ [StatusIs "ACTIVE"] else clauses in
  match clauses with
  | [] => None
  | [c] => Some (Where c)
  | _ => Some (WhereAnd clauses)
  end.

(* ===================================================================== *)
(** * Temporal versioning ([ingest.determine_latest_versions]) *)
(* ===================================================================== *)

(** The list [all_circulars] holds one dictionary object per ingested file
    ([process_all_pdfs] builds a fresh one for each); the function updates
    them in place.  An object is named here by its position in the list,
    and the list itself is the store the updates go to. *)

(** [c.get("subject_normalized", "")] and [x.get("date_parsed", "")] *)
Definition subject_key (c : Circular) : string :=
  default "" (subject_normalized c).
Definition date_key (c : Circular) : string :=
  default "" (date_parsed c).

(** [subject_groups[key].append(c)] on a [defaultdict(list)]. *)
Definition group_append (key : string) (i : nat)
  (groups : list (string * list nat)) : list (string * list nat) :=
  dict_upd [] (fun members => members ++ [i]) key groups.

(** The first loop: the groups, each a list of positions in input order. *)
Fixpoint build_groups (cs : list Circular) (i : nat)
  (groups : list (string * list nat)) : list (string * list nat) :=
  match cs with
  | [] => groups
  | c :: rest => build_groups rest (S i) (group_append (subject_key c) i groups)
  end.

(** The key of the object a position names; a position outside the store
    does not occur. *)
Definition date_at (store : list Circular) (i : nat) : string :=
  match store !! i with
  | Some c => date_key c
  | None => ""
  end.

Definition filename_at (store : list Circular) (i : nat) : string :=
  match store !! i with
  | Some c => filename c
  | None => ""
  end.

(** The body of [for i, c in enumerate(group)]. *)
Definition mark_version (i : nat) (group_size : nat) (names : list string)
  (c : Circular) : Circular :=
  {| filename := filename c;
     subject_normalized := subject_normalized c;
     date_parsed := date_parsed c;
     is_latest := Some (Nat.eqb i 0);
     status := Some (if Nat.eqb i 0 then "ACTIVE" else "SUPERSEDED");
     version_count :=
       if Nat.ltb 1 group_size then Some group_size else version_count c;
     all_versions :=
       if Nat.ltb 1 group_size then Some names else all_versions c |}.

(** The loop [for i, c in enumerate(group)] from position [i] on, [todo]
    being the part of the sorted [group] still to visit. *)
Fixpoint mark_group (group todo : list nat) (i : nat)
  (store : list Circular) : list Circular :=
  match todo with
  | [] => store
  | c :: rest =>
      mark_group group rest (S i)
        (alter (mark_version i (length group)
                  (map (filename_at store) group)) c store)
  end.

(** The second loop, over [subject_groups.values()]. *)
Fixpoint mark_groups (groups : list (string * list nat))
  (store : list Circular) : list Circular :=
  match groups with
  | [] => store
  | (_, group) :: rest =>
      let group := sorted_desc PyStr.lt (date_at store) group in
      mark_groups rest (mark_group group group 0 store)
  end.

Definition determine_latest_versions (all_circulars : list Circular)
  : list Circular :=
  mark_groups (build_groups all_circulars 0 []) all_circulars.

(* ===================================================================== *)
(** * Reciprocal rank fusion ([SEBIRetriever.reciprocal_rank_fusion]) *)
(* ===================================================================== *)

(** [1.0 / z] for an integer [z]: the integer is converted to a float
    first, which raises when it is too large, and a zero divisor raises. *)
Definition reciprocal (z : Z) : Result PyFloat.t :=
  if Z.eqb z 0 then Raise "ZeroDivisionError"
  else if PyFloat.fits z then Ok (PyFloat.div PyFloat.one (PyFloat.of_int z))
  else Raise "OverflowError".

(** [fused.get(key, 0.0)] *)
Definition fused_get (key : string) (fused : list (string * PyFloat.t))
  : PyFloat.t :=
  dict_get PyFloat.zero key fused.

(** [fused.setdefault(key, 0.0); fused[key] += inc] *)
Definition fused_add (key : string) (inc : PyFloat.t)
  (fused : list (string * PyFloat.t)) : list (string * PyFloat.t) :=
  dict_upd PyFloat.zero (fun v => PyFloat.add v inc) key fused.

(** The ranks (zero-based) at which [key] stands in one result list, the
    list's first rank being [rank]. *)
Fixpoint ranks_of (key : string) (keys : list string) (rank : nat)
  : list nat :=
  match keys with
  | [] => []
  | k0 :: rest =>
      if String.eqb k0 key then rank :: ranks_of key rest (S rank)
      else ranks_of key rest (S rank)
  end.

(** The score the specification gives a key: the sum of [1 / (rank + k)]
    over its occurrences, list after list, added up from [0.0] in that
    order. *)
Definition add_rank (k : Z) (s : PyFloat.t) (rank : nat) : PyFloat.t :=
  PyFloat.add s (PyFloat.div PyFloat.one (PyFloat.of_int (Z.of_nat rank + k))).

Definition rrf_score (k : Z) (key_lists : list (list string)) (key : string)
  : PyFloat.t :=
  fold_left (add_rank k)
    (concat (map (fun keys => ranks_of key keys 0) key_lists))
    PyFloat.zero.

(** The score as the specification words it, to compare with [rrf_score]:
    the sum of [1 / (rank + k)] over the occurrences of the key, an exact
    rational number, whatever the order it is added up in. *)
Definition exact_score (k : Z) (key_lists : list (list string)) (key : string)
  : QArith_base.Q :=
  fold_left
    (fun s rank =>
       QArith_base.Qplus s (QArith_base.Qmake 1 (Z.to_pos (Z.of_nat rank + k))))
    (concat (map (fun keys => ranks_of key keys 0) key_lists))
    (QArith_base.Qmake 0 1).

(** [x < y] on rational numbers. *)
Definition Q_ltb (x y : QArith_base.Q) : bool :=
  negb (QArith_base.Qle_bool y x).

(* ===================================================================== *)
(** * Tables as Markdown ([ingest.table_to_markdown]) *)
(* ===================================================================== *)

(** The line feed character. *)
Definition NL : ascii := ascii_of_nat 10.

(** The inner function [clean]; a cell is a string or [None]. *)
Definition clean (cell : option string) : string :=
  match cell with
  | None => ""
  | Some s =>
      PyStr.strip (PyStr.replace_char "|" "\|" (PyStr.replace_char NL " " s))
  end.

(** ["| " + " | ".join(cells) + " |"] *)
Definition md_row (cells : list string) : string :=
  "| " +:+ PyStr.join " | " cells +:+ " |".

(** Pad or truncate to match header count: the [while] loop that appends
    empty cells, and the slice [cells[:num_cols]]. *)
Definition fit_row (num_cols : nat) (cells : list string) : list string :=
  firstn num_cols (cells ++ repeat "" (num_cols - length cells)).

(** The header cells and the table whose rows after the first are the data
    rows; [None] stands for the early [return ""]. *)
Definition table_header (table_data : list (list (option string)))
  : option (list string * list (list (option string))) :=
  let headers := map clean (hd [] table_data) in
  (* Skip tables where all headers are empty *)
  if forallb (fun h => String.eqb h "") headers then
    if Nat.ltb 1 (length table_data)
    then Some (map clean (nth 1 table_data []), tl table_data)
    else None
  else Some (headers, table_data).

Definition table_to_markdown (table_data : list (list (option string)))
  : string :=
  if Nat.ltb (length table_data) 2 then ""
  else
    match table_header table_data with
    | None => ""
    | Some (headers, table_data) =>
        let num_cols := length headers in
        let md_lines :=
          [ md_row headers; md_row (repeat "---" num_cols) ]
          ++ map (fun row => md_row (fit_row num_cols (map clean row)))
               (tl table_data) in
        PyStr.join LF md_lines
    end.

(* ===================================================================== *)
(** * Dates ([date_parsed] as [ingest.process_all_pdfs] stores it) *)
(* ===================================================================== *)

(** A [datetime] at midnight, which is what [strptime] gives for the
    format ["%b %d %Y"]. *)
Record DateTime : Type := mkDateTime {
  year : nat;
  month : nat;
  day : nat;
}.

(** The last decimal digit of [n], and [n] in [width] digits with leading
    zeros: ["%04d" % n] and ["%02d" % n] for a number that fits. *)
Definition digit (n : nat) : ascii := ascii_of_nat (48 + n mod 10).

Fixpoint pad (width n : nat) : string :=
  match width with
  | 0 => ""
  | S w => pad w (n / 10) +:+ String (digit n) ""
  end.

(** [d.isoformat()] for a [datetime] at midnight without time zone. *)
Definition isoformat (d : DateTime) : string :=
  pad 4 (year d) +:+ "-" +:+ pad 2 (month d) +:+ "-" +:+ pad 2 (day d)
  +:+ "T00:00:00".

(** ["date_parsed": date_parsed.isoformat() if date_parsed else ""] *)
Definition date_parsed_of (d : option DateTime) : string :=
  match d with
  | Some d => isoformat d
  | None => ""
  end.

(* ===================================================================== *)
(** * Audience of a circular ([ingest.extract_audience]) *)
(* ===================================================================== *)

(** Direct audience keywords from filename/content. *)
Definition audience_keywords : list (string * string) :=
  [ ("Mutual Fund", "Mutual Funds");
    ("Stock Broker", "Stock Brokers");
    ("Depositor", "Depositories");
    ("Credit Rating", "Credit Rating Agencies (CRAs)");
    ("Portfolio Manager", "Portfolio Managers");
    ("Research Analyst", "Research Analysts");
    ("Investment Adviser", "Investment Advisers");
    ("Registrar", "Registrars to an Issue and Share Transfer Agents");
    ("Debenture Trustee", "Debenture Trustees (DTs)");
    ("Stock Exchange", "Stock Exchanges and Clearing Corporations");
    ("Clearing Corporation", "Stock Exchanges and Clearing Corporations");
    ("Infrastructure Investment Trust",
     "Infrastructure Investment Trusts (InvITs)");
    ("InvIT", "Infrastructure Investment Trusts (InvITs)");
    ("Real Estate Investment Trust", "Real Estate Investment Trusts (REITs)");
    ("REIT", "Real Estate Investment Trusts (REITs)");
    ("ESG Rating", "ESG Rating Providers (ERPs)");
    ("Social Stock Exchange", "Social Stock Exchange");
    ("Surveillance", "Stock Exchanges");
    ("Non-convertible Securities", "Market Participants");
    ("Listing Obligation", "Listed Entities");
    ("Issue of Capital", "Market Participants") ].

(** The loop [for keyword, label in audience_keywords], which returns at
    the first keyword found. *)
Fixpoint audience_by_keyword (first_page_text : string)
  (table : list (string * string)) : option string :=
  match table with
  | [] => None
  | (keyword, label) :: rest =>
      if PyStr.contains (PyStr.lower keyword) (PyStr.lower first_page_text)
      then Some label
      else audience_by_keyword first_page_text rest
  end.

(* ===================================================================== *)
(** * Embedding in batches ([build_index.build]) *)
(* ===================================================================== *)

Definition BATCH_SIZE : nat := 200.

(** [range(0, n, step)] for a positive [step]. *)
Definition range_step (n step : nat) : list nat :=
  map (fun j => j * step) (seq 0 ((n + step - 1) / step)).

(** The slices [all_children[i : i + batch_size]] that the loop over
    [range(0, len(all_children), batch_size)] hands to the vector store,
    one call of [add_texts] per slice. *)
Definition batches {A : Type} (batch_size : nat) (all_children : list A)
  : list (list A) :=
  map (fun i => firstn batch_size (skipn i all_children))
      (range_step (length all_children) batch_size).

(* ===================================================================== *)
(** * Stubs for the worked examples *)
(* ===================================================================== *)

(** A world that counts the calls made to it. *)
Definition StubWorld : Type := nat.

Definition doc_of (text : string) : Document :=
  {| page_content := text; metadata := ∅ |}.

Definition chunk_a : Document := doc_of "Mutual funds shall disclose.".
Definition chunk_b : Document := doc_of "Brokers shall keep records.".
Definition chunk_c : Document := doc_of "Depositories shall report.".
Definition chunk_d : Document := doc_of "Advisers shall register.".
Definition chunk_e : Document := doc_of "Trustees shall certify.".

(** A language model that is down. *)
Definition llm_down (c : ChainInput) (w : StubWorld) : Result string * StubWorld :=
  (Raise "model unavailable", S w).

(** A language model with a fixed reply for every chain: two rephrasings,
    chunks about brokers graded not relevant, an answer, and the verdict
    "not_grounded". *)
Definition llm_scripted (c : ChainInput) (w : StubWorld)
  : Result string * StubWorld :=
  match c with
  | MultiQueryChain _ _ =>
      (Ok ("  disclosure duties of mutual funds " +:+ LF +:+ LF
           +:+ "mutual fund reporting"), S w)
  | RelevanceChain document _ =>
      (Ok (if PyStr.contains "Brokers" document then "not_relevant"
           else "Relevant."), S w)
  | HallucinationChain _ _ => (Ok " Not_Grounded ", S w)
  | RagChain _ _ _ _ => (Ok "Funds disclose monthly.", S w)
  end.

(** A grader that capitalizes its one-word reply. *)
Definition llm_capitalized (c : ChainInput) (w : StubWorld)
  : Result string * StubWorld :=
  (Ok "Grounded", S w).

(** A vector store with one hit under any filter and five without. *)
Definition search_one_filtered (q : string) (k : nat) (f : option MetaFilter)
  (w : StubWorld) : Result (list Document) * StubWorld :=
  match f with
  | Some _ => (Ok [chunk_a], S w)
  | None => (Ok [chunk_a; chunk_b; chunk_c; chunk_d; chunk_e], S w)
  end.

(** A vector store with no hit at all. *)
Definition search_nothing (q : string) (k : nat) (f : option MetaFilter)
  (w : StubWorld) : Result (list Document) * StubWorld :=
  (Ok [], S w).

(** Serialization by the text alone, for chunks without metadata. *)
Definition dumps_text (doc : Document) : string := page_content doc.
Definition loads_text (s : string) : Document := doc_of s.

(** Four result lists in which the chunks [tie_p] and [tie_q] stand at the
    same ranks, 1, 1, 2 and 3, met in another order. *)
Definition tie_p : Document := doc_of "P".
Definition tie_q : Document := doc_of "Q".
Definition tie_lists : list (list Document) :=
  [ [doc_of "f0"; tie_p; tie_q];
    [doc_of "f1"; tie_p; doc_of "f2"; tie_q];
    [doc_of "f3"; tie_q; tie_p];
    [doc_of "f4"; tie_q; doc_of "f5"; tie_p] ].

(** A splitter that cuts two overlapping windows out of the text: the
    first [chunk_size] characters, and the rest from [chunk_overlap]
    characters before the end of the first window on. *)
Definition split_windows (sp : Splitter) (text : string) : list string :=
  if Nat.leb (String.length text) (chunk_size sp) then [text]
  else [PyStr.take (chunk_size sp) text;
        PyStr.drop (chunk_size sp - chunk_overlap sp) text].

(** Ids in unary: the [n]-th id is [n] strokes. *)
Fixpoint strokes (n : nat) : string :=
  match n with
  | 0 => "id"
  | S m => strokes m +:+ "|"
  end.

Definition uuid_counter (w : StubWorld) : string * StubWorld := (strokes w, S w).

Definition no_header (text : string) : string := "".
Definition no_pages (text : string) : string := "".
Definition json_of (refs : list string) : string :=
  "[" +:+ PyStr.join ", " refs +:+ "]".

Definition sample_doc : DocInfo :=
  {| di_full_text := "[Page 1]" +:+ LF +:+ "Every fund shall report.";
     di_filename := "Jan_05_2024_Mutual Funds.pdf";
     di_title := "Mutual Funds";
     di_date := Some "Jan 05, 2024";
     di_audience := Some "Mutual Funds";
     di_subject := Some "Mutual Funds";
     di_is_latest := Some true;
     di_status := Some "ACTIVE";
     di_references := Some [] |}.

(** The state a pipeline run starts from, and the states of the worked
    example of the filter fallback: after the query expansion, after the
    filtered search and after the unfiltered search. *)
Definition run_start : PipelineState StubWorld := {| world := 0; invoked := [] |}.

Definition sample_question : string :=
  "What must the latest mutual fund circular disclose?".

Definition sample_filter : MetaFilter :=
  WhereAnd [AudienceIs "Mutual Funds"; IsLatestIs true].

Definition run_expanded : PipelineState StubWorld :=
  {| world := 1;
     invoked := [MultiQueryChain sample_question MULTI_QUERY_COUNT] |}.

Definition run_filtered : PipelineState StubWorld :=
  {| world := 2;
     invoked := [MultiQueryChain sample_question MULTI_QUERY_COUNT] |}.

Definition run_unfiltered : PipelineState StubWorld :=
  {| world := 3;
     invoked := [MultiQueryChain sample_question MULTI_QUERY_COUNT] |}.

Fixpoint repeat_str (s : string) (n : nat) : string :=
  match n with
  | 0 => ""
  | S m => s +:+ repeat_str s m
  end.

(** A document of some 2300 characters: one parent, two child windows. *)
Definition long_doc : DocInfo :=
  {| di_full_text := repeat_str "Every fund shall report its holdings. " 60;
     di_filename := "Jan_05_2024_Mutual Funds.pdf";
     di_title := "Mutual Funds";
     di_date := None;
     di_audience := None;
     di_subject := Some "Mutual Funds";
     di_is_latest := None;
     di_status := None;
     di_references := None |}.

Definition circular (name subject date : string) : Circular :=
  {| filename := name;
     subject_normalized := Some subject;
     date_parsed := Some date;
     is_latest := None;
     status := None;
     version_count := None;
     all_versions := None |}.

(** Three circulars on mutual funds, two of them of the same latest date,
    and one on brokers. *)
Definition sample_circulars : list Circular :=
  [ circular "a.pdf" "mutual funds" "2022-01-05T00:00:00";
    circular "b.pdf" "stock brokers" "2023-03-01T00:00:00";
    circular "c.pdf" "mutual funds" "2024-01-05T00:00:00";
    circular "d.pdf" "mutual funds" "2024-01-05T00:00:00" ].

(** A language model whose generation chain fails, all else as scripted. *)
Definition llm_no_answer (c : ChainInput) (w : StubWorld)
  : Result string * StubWorld :=
  match c with
  | RagChain _ _ _ _ => (Raise "quota exceeded", S w)
  | _ => llm_scripted c w
  end.

(** A question no filter is built for. *)
Definition plain_question : string := "What is a demat account?".

(** A file system that takes every write. *)
Definition save_ok (store : gmap string string) (w : StubWorld)
  : Result unit * StubWorld := (Ok tt, w).

(** A table of two columns: a header row, a row with a bar in a cell and
    one cell too many, and a row with a line feed in its one cell. *)
Definition sample_table : list (list (option string)) :=
  [ [Some "Fee"; Some "Rate"];
    [Some "Entry|Exit"; None; Some "x"];
    [Some (" 2" +:+ LF +:+ "%")] ].

(** The dates in the names of the sample circulars. *)
Definition date_of (y m d : nat) : DateTime :=
  {| year := y; month := m; day := d |}.

Definition sample_dates : list (option DateTime) :=
  [ Some (date_of 2022 1 5); Some (date_of 2023 3 1);
    Some (date_of 2024 1 5); Some (date_of 2024 1 5) ].

(* ===================================================================== *)
(** * The external collaborators and the functions that call them *)
(* ===================================================================== *)

Section Collaborators.

Set Default Proof Using "Type".

(** The state of everything outside the program: the language model, the
    vector store, the generator of random ids. *)
Variable World : Type.

(** [chain.invoke(...)] of [prompt | llm | StrOutputParser()]. *)
Variable llm : ChainInput -> World -> Result string * World.

(** [vectorstore.similarity_search(query, k=k, filter=filter)]. *)
Variable similarity_search :
  string -> nat -> option MetaFilter -> World -> Result (list Document) * World.

(** [definitions_store.similarity_search(query, k=k)], when the glossary
    collection could be opened. *)
Variable definitions_store :
  option (string -> nat -> World -> Result (list Document) * World).

(** The parent store: parent id to parent text. *)
Variable parent_store : gmap string string.

(** LangChain's [dumps] and [loads]. *)
Variable dumps : Document -> string.
Variable loads : string -> Document.

(** [RecursiveCharacterTextSplitter(...).split_text(text)]. *)
Variable split_text : Splitter -> string -> list string.

(** [str(uuid.uuid4())]. *)
Variable uuid4 : World -> string * World.

(** The regular-expression scans of the chunker: the section header found
    in a chunk, and the page range its page markers span.  They fill the
    [section] and [pages] metadata fields only. *)
Variable detect_section_header : string -> string.
Variable page_range_of : string -> string.

(** [json.dumps] of the list of references. *)
Variable json_dumps : list string -> string.

Local Abbreviation PState := (PipelineState World).

Definition invoke (c : ChainInput) : M PState string :=
  fun s =>
    let (r, w) := llm c (world s) in
    (r, {| world := w; invoked := invoked s ++ [c] |}).

Definition search (q : string) (k : nat) (f : option MetaFilter)
  : M PState (list Document) :=
  fun s =>
    let (r, w) := similarity_search q k f (world s) in
    (r, {| world := w; invoked := invoked s |}).

(** ** Rank fusion *)

(** The inner loop, [for rank, doc in enumerate(docs)]. *)
Fixpoint rrf_scan (docs : list Document) (rank : nat) (k : Z)
  (fused : list (string * PyFloat.t)) : Result (list (string * PyFloat.t)) :=
  match docs with
  | [] => Ok fused
  | doc :: rest =>
      match reciprocal (Z.of_nat rank + k) with
      | Ok inc => rrf_scan rest (S rank) k (fused_add (dumps doc) inc fused)
      | Raise e => Raise e
      end
  end.

(** The outer loop, [for docs in result_lists]. *)
Fixpoint rrf_accumulate (result_lists : list (list Document)) (k : Z)
  (fused : list (string * PyFloat.t)) : Result (list (string * PyFloat.t)) :=
  match result_lists with
  | [] => Ok fused
  | docs :: rest =>
      match rrf_scan docs 0 k fused with
      | Ok fused' => rrf_accumulate rest k fused'
      | Raise e => Raise e
      end
  end.

Definition reciprocal_rank_fusion (result_lists : list (list Document)) (k : Z)
  : Result (list Document) :=
  match rrf_accumulate result_lists k [] with
  | Ok fused =>
      let reranked := sorted_desc PyFloat.ltb snd fused in
      Ok (map (fun item => loads (fst item)) reranked)
  | Raise e => Raise e
  end.

(** ** Query expansion ([SEBIRetriever.generate_multi_queries]) *)

(** The last stage of the chain:
    [[q.strip() for q in x.strip().split("\n") if q.strip()]]. *)
Definition response_lines (x : string) : list string :=
  map PyStr.strip
    (List.filter (fun q => PyStr.nonempty (PyStr.strip q))
       (PyStr.split (ascii_of_nat 10) (PyStr.strip x))).

Definition generate_multi_queries (question : string) : M PState (list string) :=
  try_except
    (let* x := invoke (MultiQueryChain question MULTI_QUERY_COUNT) in
     let alt_queries := response_lines x in
     ret (question :: firstn MULTI_QUERY_COUNT alt_queries))
    (fun _ => ret [question]).

(** ** Parent and glossary context *)

(** Truthiness of a metadata value. *)
Definition truthy (v : MetaVal) : bool :=
  match v with
  | MStr s => PyStr.nonempty s
  | MBool b => b
  end.

(** [self.parent_store.get(pid, "")] *)
Definition parent_text_of (pid : MetaVal) : string :=
  match pid with
  | MStr s => default "" (parent_store !! s)
  | MBool _ => ""
  end.

(** The loop of [get_parent_context], with its set [seen] and its list
    [parents]. *)
Fixpoint parent_scan (docs : list Document) (seen : list MetaVal)
  (parents : list string) : list string :=
  match docs with
  | [] => parents
  | doc :: rest =>
      let pid := meta_get_or doc "parent_id" "" in
      if truthy pid && negb (bool_decide (pid ∈ seen)) then
        let text := parent_text_of pid in
        parent_scan rest (pid :: seen)
          (if PyStr.nonempty text then parents ++ [text] else parents)
      else parent_scan rest seen parents
  end.

Definition get_parent_context (docs : list Document) : list string :=
  parent_scan docs [] [].

Definition definitions_search (q : string) (k : nat)
  (store : string -> nat -> World -> Result (list Document) * World)
  : M PState (list Document) :=
  fun s =>
    let (r, w) := store q k (world s) in
    (r, {| world := w; invoked := invoked s |}).

Definition get_definitions_context (question : string) : M PState string :=
  match definitions_store with
  | None => ret ""
  | Some store =>
      try_except
        (let* results := definitions_search question 3 store in
         match results with
         | [] => ret ""
         | _ =>
             let lines :=
               PyStr.join LF (map (fun d => "• " +:+ page_content d) results) in
             ret (LF +:+ "**Relevant Regulatory Definitions:**" +:+ LF
                  +:+ lines +:+ LF)
         end)
        (fun _ => ret "")
  end.

(** ** Retrieval ([SEBIRetriever.retrieve]) *)

(** The body of [for q in queries]: what one query adds to [all_results]. *)
Definition search_query (q : string) (meta_filter : option MetaFilter)
  (all_results : list (list Document)) : M PState (list (list Document)) :=
  try_except
    (let* docs :=
       match meta_filter with
       | Some f =>
           let* docs := search q TOP_K (Some f) in
           (* Fall back to unfiltered if too few *)
           if Nat.ltb (length docs) 2 then search q TOP_K None else ret docs
       | None => search q TOP_K None
       end in
     ret (all_results ++ [docs]))
    (fun _ =>
       try_except
         (let* docs := search q TOP_K None in ret (all_results ++ [docs]))
         (fun _ => ret all_results)).

Fixpoint search_all (queries : list string) (meta_filter : option MetaFilter)
  (all_results : list (list Document)) : M PState (list (list Document)) :=
  match queries with
  | [] => ret all_results
  | q :: rest =>
      let* all_results' := search_query q meta_filter all_results in
      search_all rest meta_filter all_results'
  end.

(** The header and text of one chunk in [child_context]. *)
Definition format_child (doc : Document) : string :=
  "[Source: " +:+ py_str (meta_get_or doc "source" "?")
  +:+ " | Section: " +:+ py_str (meta_get_or doc "section" "N/A")
  +:+ " | Date: " +:+ py_str (meta_get_or doc "date" "N/A")
  +:+ " | Status: " +:+ py_str (meta_get_or doc "status" "N/A")
  +:+ "]" +:+ LF +:+ page_content doc.

Definition retrieve (question : string) : M PState Retrieval :=
  (* 1. Generate queries *)
  let* queries := generate_multi_queries question in
  (* 2. Metadata filter *)
  let meta_filter := build_metadata_filter question in
  (* 3. Search for each query *)
  let* all_results := search_all queries meta_filter [] in
  (* 4. Fuse via RRF *)
  let* fused_docs :=
    match all_results with
    | [] => ret []
    | _ =>
        let* fused := lift_result (reciprocal_rank_fusion all_results RRF_K) in
        ret (firstn TOP_K fused)
    end in
  (* 5. Parent context *)
  let parent_contexts := get_parent_context fused_docs in
  (* 6. Definitions *)
  let* defs := get_definitions_context question in
  (* 7. Format context strings *)
  ret {| child_docs := fused_docs;
         child_context := PyStr.join BLOCK_SEP (map format_child fused_docs);
         parent_context := PyStr.join BLOCK_SEP (firstn 3 parent_contexts);
         definitions := defs;
         r_queries_used := queries;
         metadata_filter := meta_filter |}.

(** ** Grading ([SEBIRAGChain.grade_relevance], [check_hallucination]) *)

(** How the grader's reply is read. *)
Definition says_relevant (result : string) : bool :=
  let text := PyStr.lower (PyStr.strip result) in
  negb (PyStr.contains "not_relevant" text) && PyStr.contains "relevant" text.

(** The body of [for doc in docs], with its [try]. *)
Definition grade_one (doc : Document) (question : string)
  (relevant : list Document) : M PState (list Document) :=
  try_except
    (let* result :=
       invoke (RelevanceChain (PyStr.take 800 (page_content doc)) question) in
     if says_relevant result then ret (relevant ++ [doc]) else ret relevant)
    (fun _ => ret (relevant ++ [doc])).  (* include on error to be safe *)

Fixpoint grade_loop (docs : list Document) (question : string)
  (relevant : list Document) : M PState (list Document) :=
  match docs with
  | [] => ret relevant
  | doc :: rest =>
      let* relevant' := grade_one doc question relevant in
      grade_loop rest question relevant'
  end.

(** [return relevant if relevant else docs].  The second component tells
    that the list returned is the argument [docs] itself and not a new
    list: [query] appends to the list it gets back. *)
Definition grade_relevance (docs : list Document) (question : string)
  : M PState (list Document * bool) :=
  let* relevant := grade_loop docs question [] in
  ret (match relevant with
       | [] => (docs, true)
       | _ => (relevant, false)
       end).

(** How the grounding grader's reply is read. *)
Definition read_grounding (result : string) : string :=
  let text := PyStr.lower (PyStr.strip result) in
  if PyStr.contains "not_grounded" text then "not_grounded"
  else if PyStr.contains "partial" text then "partial"
  else if PyStr.contains "grounded" text then "grounded"
  else "unknown".

Definition check_hallucination (answer context : string) : M PState string :=
  let doc_text := PyStr.take 6000 context in
  try_except
    (let* result := invoke (HallucinationChain doc_text answer) in
     ret (read_grounding result))
    (fun _ => ret "unknown").

(** ** Generation and the full pipeline ([SEBIRAGChain.query]) *)

Definition generate_answer (question : string) (retrieval : Retrieval)
  : M PState string :=
  invoke (RagChain question
            (PyStr.or_else (child_context retrieval) "(no child context)")
            (PyStr.or_else (parent_context retrieval) "(no parent context)")
            (definitions retrieval)).

Definition NOT_FOUND_ANSWER : string :=
  "I could not find relevant information in the SEBI "
  +:+ "regulatory documents for your question. Please try "
  +:+ "rephrasing or ask about a specific regulation.".

Definition CAVEAT : string :=
  LF +:+ LF +:+ "⚠️ *Note: Parts of this answer may not be directly "
  +:+ "supported by the source documents. Please verify against "
  +:+ "the original SEBI circulars.*".

(** The dictionary lookup [{...}.get(hall, "medium")]. *)
Definition confidence_of (hall : string) : string :=
  if String.eqb hall "grounded" then "high"
  else if String.eqb hall "partial" then "medium"
  else if String.eqb hall "unknown" then "medium"
  else if String.eqb hall "not_grounded" then "low"
  else "medium".

(** The loop that lists each source document once. *)
Fixpoint collect_sources (docs : list Document) (seen_src : list MetaVal)
  (acc : list Source) : list Source :=
  match docs with
  | [] => acc
  | doc :: rest =>
      let src := meta_get_or doc "source" "Unknown" in
      if bool_decide (src ∈ seen_src) then collect_sources rest seen_src acc
      else
        collect_sources rest (src :: seen_src)
          (acc ++ [ {| src_file := src;
                       src_section := meta_get_or doc "section" "";
                       src_date := meta_get_or doc "date" "";
                       src_audience := meta_get_or doc "audience" "";
                       src_status := meta_get_or doc "status" "";
                       src_pages := meta_get_or doc "pages" "" |} ])
  end.

(** Step 3: the single retry.  It gives the relevant list and the retrieval
    with the merged contexts. *)
Definition re_retrieve (question : string) (retrieval : Retrieval)
  (relevant_docs : list Document) : M PState (list Document * Retrieval) :=
  if Nat.ltb (length relevant_docs) 2 && bool_decide (is_Some (metadata_filter retrieval))
  then
    let* retry := retrieve question in
    let* extra := grade_relevance (child_docs retry) question in
    let seen_ids := map (fun d => meta_get d "child_id") relevant_docs in
    let added :=
      List.filter
        (fun doc => negb (bool_decide (meta_get doc "child_id" ∈ seen_ids)))
        (fst extra) in
    ret (relevant_docs ++ added,
         {| child_docs := child_docs retrieval;
            child_context :=
              child_context retrieval +:+ BLOCK_SEP +:+ child_context retry;
            parent_context :=
              parent_context retrieval +:+ BLOCK_SEP +:+ parent_context retry;
            definitions := definitions retrieval;
            r_queries_used := r_queries_used retrieval;
            metadata_filter := metadata_filter retrieval |})
  else ret (relevant_docs, retrieval).

Definition query (question : string) : M PState QueryResult :=
  (* Step 1: Retrieve *)
  let* retrieval := retrieve question in
  match child_docs retrieval with
  | [] =>
      ret {| answer := NOT_FOUND_ANSWER;
             sources := [];
             confidence := "no_results";
             hallucination_check := "n/a";
             queries_used := r_queries_used retrieval;
             num_relevant := 0;
             num_retrieved := 0 |}
  | _ =>
      (* Step 2: Grade relevance (CRAG) *)
      let* graded := grade_relevance (child_docs retrieval) question in
      (* Step 3: Re-retrieve if too few relevant docs *)
      let* merged := re_retrieve question retrieval (fst graded) in
      let relevant_docs := fst merged in
      let retrieval' := snd merged in
      (* [child_docs] is the list appended to when grading gave it back *)
      let child_docs' :=
        if snd graded then relevant_docs else child_docs retrieval in
      (* Step 4: Generate answer *)
      let* generated := generate_answer question retrieval' in
      (* Step 5: Hallucination check (Self-RAG) *)
      let full_context :=
        child_context retrieval' +:+ LF +:+ LF +:+ parent_context retrieval' in
      let* hall := check_hallucination generated full_context in
      ret {| answer :=
               if String.eqb hall "not_grounded" then generated +:+ CAVEAT
               else generated;
             sources := collect_sources relevant_docs [] [];
             confidence := confidence_of hall;
             hallucination_check := hall;
             queries_used := r_queries_used retrieval';
             num_relevant := length relevant_docs;
             num_retrieved := length child_docs' |}
  end.

(** ** Chunking ([chunker.create_parent_child_chunks]) *)

Definition fresh_id : M World string :=
  fun w => let (i, w') := uuid4 w in (Ok i, w').

Definition parent_splitter : Splitter :=
  {| chunk_size := PARENT_CHUNK_SIZE * CHARS_PER_TOKEN;
     chunk_overlap := PARENT_CHUNK_OVERLAP * CHARS_PER_TOKEN;
     separators := [LF +:+ LF +:+ "[Page "; LF +:+ LF; LF; ". "; " "] |}.

Definition child_splitter : Splitter :=
  {| chunk_size := CHILD_CHUNK_SIZE * CHARS_PER_TOKEN;
     chunk_overlap := CHILD_CHUNK_OVERLAP * CHARS_PER_TOKEN;
     separators := [LF +:+ LF; LF; ". "; " "] |}.

(** Base metadata attached to every chunk. *)
Definition meta_base (doc_info : DocInfo) : gmap string MetaVal :=
  <["source" := MStr (di_filename doc_info)]>
  (<["title" := MStr (di_title doc_info)]>
  (<["date" := MStr (default "" (di_date doc_info))]>
  (<["audience" := MStr (default "General" (di_audience doc_info))]>
  (<["subject" := MStr (default "" (di_subject doc_info))]>
  (<["is_latest" := MBool (default true (di_is_latest doc_info))]>
  (<["status" := MStr (default "ACTIVE" (di_status doc_info))]>
  (<["references" := MStr (json_dumps (default [] (di_references doc_info)))]>
   ∅))))))).

Definition parent_meta (base : gmap string MetaVal)
  (parent_id section page_range : string) : gmap string MetaVal :=
  <["chunk_type" := MStr "parent"]>
  (<["pages" := MStr page_range]>
  (<["section" := MStr section]>
  (<["parent_id" := MStr parent_id]> base))).

Definition child_meta (base : gmap string MetaVal)
  (child_id parent_id section page_range : string) (has_table : bool)
  : gmap string MetaVal :=
  <["has_table" := MBool has_table]>
  (<["chunk_type" := MStr "child"]>
  (<["pages" := MStr page_range]>
  (<["section" := MStr section]>
  (<["parent_id" := MStr parent_id]>
  (<["child_id" := MStr child_id]> base))))).

(** The inner loop, [for child_text in child_texts]. *)
Fixpoint make_children (child_texts : list string) (base : gmap string MetaVal)
  (parent_id section page_range : string) (children : list Chunk)
  : M World (list Chunk) :=
  match child_texts with
  | [] => ret children
  | child_text :: rest =>
      let* child_id := fresh_id in
      let has_table :=
        PyStr.contains "|" child_text && PyStr.contains "---" child_text in
      make_children rest base parent_id section page_range
        (children ++
           [ {| chunk_id := child_id;
                chunk_text := child_text;
                chunk_metadata :=
                  child_meta base child_id parent_id section page_range
                    has_table |} ])
  end.

(** The outer loop, [for parent_text in parent_texts]. *)
Fixpoint make_parents (parent_texts : list string) (base : gmap string MetaVal)
  (parents children : list Chunk) : M World (list Chunk * list Chunk) :=
  match parent_texts with
  | [] => ret (parents, children)
  | parent_text :: rest =>
      let* parent_id := fresh_id in
      let section := detect_section_header parent_text in
      let page_range := page_range_of parent_text in
      let parents' :=
        parents ++
          [ {| chunk_id := parent_id;
               chunk_text := parent_text;
               chunk_metadata := parent_meta base parent_id section page_range |} ] in
      (* Split parent -> children *)
      let child_texts := split_text child_splitter parent_text in
      let* children' :=
        make_children child_texts base parent_id section page_range children in
      make_parents rest base parents' children'
  end.

Definition create_parent_child_chunks (doc_info : DocInfo)
  : M World (list Chunk * list Chunk) :=
  let full_text := di_full_text doc_info in
  if negb (PyStr.nonempty (PyStr.strip full_text)) then ret ([], [])
  else
    let base := meta_base doc_info in
    let parent_texts := split_text parent_splitter full_text in
    make_parents parent_texts base [] [].

(** ** Chunking all documents ([chunker.process_all_documents]) *)

(** [PROCESSED_DIR.mkdir(exist_ok=True)] and the [json.dump] of the parent
    store to [PARENT_STORE_PATH]. *)
Variable save_parent_store : gmap string string -> World -> Result unit * World.

(** The loop [for doc_info in all_documents]. *)
Fixpoint chunk_documents (all_documents : list DocInfo)
  (all_parents all_children : list Chunk) : M World (list Chunk * list Chunk) :=
  match all_documents with
  | [] => ret (all_parents, all_children)
  | doc_info :: rest =>
      let* chunks := create_parent_child_chunks doc_info in
      chunk_documents rest (all_parents ++ fst chunks) (all_children ++ snd chunks)
  end.

(** [{p["id"]: p["text"] for p in all_parents}]: of two parents of one id
    the later one stays. *)
Definition parent_store_of (all_parents : list Chunk) : gmap string string :=
  fold_left (fun store p => <[chunk_id p := chunk_text p]> store) all_parents ∅.

Definition process_all_documents (all_documents : list DocInfo)
  : M World (list Chunk * list Chunk) :=
  let* chunks := chunk_documents all_documents [] [] in
  (* Persist parent store *)
  let* _ := save_parent_store (parent_store_of (fst chunks)) in
  ret chunks.

(* ===================================================================== *)
(** * Specification-level readings of the effects *)
(* ===================================================================== *)

(** What one grading call came to. *)
Inductive Grade : Type := Relevant | NotRelevant | Failed.

(** A chunk is kept unless the grader answered and did not say
    "relevant". *)
Definition keeps (g : Grade) : bool :=
  match g with
  | NotRelevant => false
  | Relevant | Failed => true
  end.

(** The grading call for one chunk, made in state [s]. *)
Definition grade_of (doc : Document) (question : string) (s : PState)
  : Grade * PState :=
  match invoke (RelevanceChain (PyStr.take 800 (page_content doc)) question) s with
  | (Ok result, s') => (if says_relevant result then Relevant else NotRelevant, s')
  | (Raise _, s') => (Failed, s')
  end.

(** The grading calls for a list of chunks, one after the other. *)
Fixpoint grades (docs : list Document) (question : string) (s : PState)
  : list Grade * PState :=
  match docs with
  | [] => ([], s)
  | doc :: rest =>
      let (g, s1) := grade_of doc question s in
      let (gs, s2) := grades rest question s1 in
      (g :: gs, s2)
  end.

(** The chunks kept, given the outcome of each chunk's call. *)
Fixpoint pick (gs : list Grade) (docs : list Document) : list Document :=
  match gs, docs with
  | g :: gs', doc :: docs' =>
      if keeps g then doc :: pick gs' docs' else pick gs' docs'
  | _, _ => []
  end.

(** Every child names a parent of the list, and is one of the pieces that
    parent's text was split into. *)
Definition linked (parents children : list Chunk) : Prop :=
  forall child, child ∈ children ->
    exists parent, parent ∈ parents /\
      chunk_metadata child !! "parent_id" = Some (MStr (chunk_id parent)) /\
      chunk_text child ∈ split_text child_splitter (chunk_text parent).

(** Versioning leaves the identity of a circular alone. *)
Definition same_doc (c c' : Circular) : Prop :=
  filename c' = filename c /\
  subject_normalized c' = subject_normalized c /\
  date_parsed c' = date_parsed c.

(** The circular at position [i] is the newest of its subject: no circular
    of the same subject has a later date, and none of the same date stands
    earlier in the list. *)
Definition newest_of_subject (cs : list Circular) (i : nat) : Prop :=
  exists c, cs !! i = Some c /\
    forall j cj, cs !! j = Some cj -> subject_key cj = subject_key c ->
      PyStr.lt (date_key c) (date_key cj) = false /\
      (PyStr.lt (date_key cj) (date_key c) = false -> i <= j).

(** What a document gives each of its chunks: the keys of [meta_base],
    with the defaults of the keys the document need not have. *)
Definition carries_base (doc_info : DocInfo) (m : gmap string MetaVal) : Prop :=
  m !! "source" = Some (MStr (di_filename doc_info)) /\
  m !! "title" = Some (MStr (di_title doc_info)) /\
  m !! "date" = Some (MStr (default "" (di_date doc_info))) /\
  m !! "audience" = Some (MStr (default "General" (di_audience doc_info))) /\
  m !! "subject" = Some (MStr (default "" (di_subject doc_info))) /\
  m !! "is_latest" = Some (MBool (default true (di_is_latest doc_info))) /\
  m !! "status" = Some (MStr (default "ACTIVE" (di_status doc_info))) /\
  m !! "references" =
    Some (MStr (json_dumps (default [] (di_references doc_info)))).

(** The [has_table] test of the chunker. *)
Definition looks_like_table (text : string) : bool :=
  PyStr.contains "|" text && PyStr.contains "---" text.

(** The metadata of a parent chunk, and of a child chunk of the parent [p],
    over the base metadata [base]. *)
Definition parent_fields (base : gmap string MetaVal) (p : Chunk) : Prop :=
  chunk_metadata p =
    parent_meta base (chunk_id p) (detect_section_header (chunk_text p))
      (page_range_of (chunk_text p)).

Definition child_fields (base : gmap string MetaVal) (p c : Chunk) : Prop :=
  chunk_metadata c =
    child_meta base (chunk_id c) (chunk_id p)
      (detect_section_header (chunk_text p)) (page_range_of (chunk_text p))
      (looks_like_table (chunk_text c)).

(** The parent texts a document gives. *)
Definition parent_pieces (doc_info : DocInfo) : list string :=
  if PyStr.blank (di_full_text doc_info) then []
  else split_text parent_splitter (di_full_text doc_info).

(** The components of a [datetime] are in these ranges. *)
Definition in_range (d : DateTime) : Prop :=
  1 <= year d < 10 ^ 4 /\ 1 <= month d <= 12 /\ 1 <= day d <= 31.

(** The calendar order of dates. *)
Definition earlier (d1 d2 : DateTime) : Prop :=
  year d1 < year d2 \/
  (year d1 = year d2 /\
   (month d1 < month d2 \/ (month d1 = month d2 /\ day d1 < day d2))).

(** The same order with the files whose name gives no date put first. *)
Definition date_before (a b : option DateTime) : Prop :=
  match a, b with
  | None, Some _ => True
  | Some x, Some y => earlier x y
  | _, None => False
  end.

(** Comparing by a first component and then by a second. *)
Definition lex (c1 c2 : comparison) : comparison :=
  match c1 with
  | Eq => c2
  | _ => c1
  end.

(** The first row of a table, of keywords in lower case, whose keyword
    occurs in [q]. *)
Fixpoint first_label (q : string) (table : list (string * string))
  : option string :=
  match table with
  | [] => None
  | (kw, label) :: rest =>
      if PyStr.contains kw q then Some label else first_label q rest
  end.

(* ===================================================================== *)
(** * Proofs *)
(* ===================================================================== *)

(** Unfolding one step of the monad. *)
Ltac monad_step :=
  unfold bind, ret, try_except, lift_result in *; simpl in *.

(** ** Relevance grading *)

Lemma grades_length (docs : list Document) (question : string) (s : PState) :
  length (fst (grades docs question s)) = length docs.
Proof.
  revert s; induction docs as [|doc rest IH]; intros s; simpl; [reflexivity|].
  destruct (grade_of doc question s) as [g s1].
  specialize (IH s1). destruct (grades rest question s1) as [gs s2].
  simpl in *. now rewrite IH.
Qed.

Lemma grade_one_spec (doc : Document) (question : string)
  (relevant : list Document) (s : PState) :
  grade_one doc question relevant s =
    (Ok (relevant ++ pick [fst (grade_of doc question s)] [doc]),
     snd (grade_of doc question s)).
Proof.
  unfold grade_one, grade_of. monad_step.
  destruct (invoke _ s) as [[result|e] s']; simpl.
  - destruct (says_relevant result); simpl; [reflexivity|].
    now rewrite app_nil_r.
  - reflexivity.
Qed.

Lemma grade_loop_spec (docs : list Document) (question : string) :
  forall (relevant : list Document) (s : PState),
    grade_loop docs question relevant s =
      (Ok (relevant ++ pick (fst (grades docs question s)) docs),
       snd (grades docs question s)).
Proof.
  induction docs as [|doc rest IH]; intros relevant s; simpl.
  - unfold ret. now rewrite app_nil_r.
  - unfold bind. rewrite grade_one_spec.
    destruct (grade_of doc question s) as [g s1]; simpl.
    rewrite IH. destruct (grades rest question s1) as [gs s2]; simpl.
    destruct (keeps g); simpl; [now rewrite <- app_assoc|now rewrite app_nil_r].
Qed.

Lemma grade_relevance_spec (docs : list Document) (question : string)
  (s : PState) :
  grade_relevance docs question s =
    (Ok (match pick (fst (grades docs question s)) docs with
         | [] => (docs, true)
         | relevant => (relevant, false)
         end),
     snd (grades docs question s)).
Proof.
  unfold grade_relevance, bind. rewrite grade_loop_spec. simpl. unfold ret.
  now destruct (pick (fst (grades docs question s)) docs).
Qed.

Lemma pick_all_kept (gs : list Grade) (docs : list Document) :
  length gs = length docs -> Forall (fun g => keeps g = true) gs ->
  pick gs docs = docs.
Proof.
  revert docs; induction gs as [|g gs IH]; intros [|doc docs] Hlen Hall;
    simpl in *; try discriminate; [reflexivity|].
  inversion Hall as [|? ? Hg Hgs]; subst. rewrite Hg.
  f_equal. apply IH; [lia|assumption].
Qed.

Lemma pick_sublist (gs : list Grade) (docs : list Document) :
  sublist (pick gs docs) docs.
Proof.
  revert docs; induction gs as [|g gs IH]; intros [|doc docs]; simpl;
    try apply sublist_nil_l.
  destruct (keeps g); constructor; apply IH.
Qed.

(** The chunk at position [i] is among the chunks kept when its own call
    failed, whatever the other calls did. *)
Lemma pick_failed (gs : list Grade) (docs : list Document) (i : nat)
  (doc : Document) :
  gs !! i = Some Failed -> docs !! i = Some doc -> doc ∈ pick gs docs.
Proof.
  revert docs i; induction gs as [|g gs IH]; intros [|d docs] [|i] Hg Hd;
    simpl in *; try discriminate.
  - inversion Hg; inversion Hd; subst. simpl. apply list_elem_of_here.
  - destruct (keeps g); [apply list_elem_of_further|]; eapply IH; eassumption.
Qed.

(** C1. For a non-empty list of retrieved documents, [grade_relevance]
    returns normally with a non-empty list.  The list is made of the
    documents kept, chunk by chunk: a document is kept when the grader said
    "relevant" or when its own grading call failed; when no document is
    kept the input list itself is returned.  So a document whose call
    failed is in the result, and when every call fails the result is the
    input list, unchanged and in order. *)
Theorem grade_relevance_fail_open (docs : list Document) (question : string)
  (s : PState) :
  docs <> [] ->
  let gs := fst (grades docs question s) in
  exists out shared s',
    grade_relevance docs question s = (Ok (out, shared), s') /\
    out <> [] /\
    (out = pick gs docs \/ (pick gs docs = [] /\ out = docs)) /\
    (forall i doc, gs !! i = Some Failed -> docs !! i = Some doc -> doc ∈ out) /\
    (Forall (fun g => g = Failed) gs -> out = docs).
Proof.
  intros Hne gs. rewrite grade_relevance_spec. fold gs.
  destruct (pick gs docs) as [|d relevant] eqn:Hpick.
  - exists docs, true, (snd (grades docs question s)).
    repeat split; auto.
    intros i doc Hg Hd. eapply list_elem_of_lookup_2; eassumption.
  - exists (d :: relevant), false, (snd (grades docs question s)).
    repeat split; auto; try discriminate.
    + intros i doc Hg Hd. rewrite <- Hpick. eapply pick_failed; eassumption.
    + intros Hall. rewrite <- Hpick. apply pick_all_kept.
      * apply grades_length.
      * eapply Forall_impl; [exact Hall|]. now intros g ->.
Qed.

(** C9. The list [grade_relevance] returns is a sublist of its input, in
    the input's order: the documents kept, or the input list itself when
    none is kept. *)
Theorem grade_relevance_sublist (docs : list Document) (question : string)
  (s : PState) :
  exists out shared s',
    grade_relevance docs question s = (Ok (out, shared), s') /\
    sublist out docs /\
    let kept := pick (fst (grades docs question s)) docs in
    sublist kept docs /\
    ((kept <> [] /\ out = kept) \/ (kept = [] /\ out = docs)).
Proof.
  rewrite grade_relevance_spec.
  pose proof (pick_sublist (fst (grades docs question s)) docs) as Hsub.
  destruct (pick (fst (grades docs question s)) docs) as [|d relevant] eqn:Hpick.
  - exists docs, true, (snd (grades docs question s)).
    split; [reflexivity|]. split; [reflexivity|]. simpl.
    split; [assumption|]. right. split; reflexivity.
  - exists (d :: relevant), false, (snd (grades docs question s)).
    split; [reflexivity|]. split; [assumption|]. simpl.
    split; [assumption|]. left. split; [discriminate|reflexivity].
Qed.

(** ** Python strings *)

Lemma str_app_cons (c : ascii) (a b : string) :
  String c a +:+ b = String c (a +:+ b).
Proof. reflexivity. Qed.
Lemma str_app_nil_l (a : string) : "" +:+ a = a.
Proof. reflexivity. Qed.
Lemma str_app_nil_r (a : string) : a +:+ "" = a.
Proof.
  induction a as [|x a IH]; [reflexivity|].
  rewrite str_app_cons. f_equal. exact IH.
Qed.
Lemma str_app_assoc (a b c : string) : (a +:+ b) +:+ c = a +:+ (b +:+ c).
Proof.
  induction a as [|x a IH]; [reflexivity|].
  rewrite !str_app_cons. f_equal. exact IH.
Qed.

(** Induction on the length of a string. *)
Lemma string_length_ind (P : string -> Prop) :
  (forall s, (forall t, String.length t < String.length s -> P t) -> P s) ->
  forall s, P s.
Proof.
  intros step s. remember (String.length s) as n eqn:Hn.
  revert s Hn. induction n as [n IH] using lt_wf_ind.
  intros s ->. apply step. intros t Ht. exact (IH _ Ht t eq_refl).
Qed.

Lemma lstrip_eq (s : string) :
  PyStr.lstrip s =
    match PyStr.white_prefix s with
    | Some r => PyStr.lstrip r
    | None => s
    end.
Proof.
  destruct s as [|c1 [|c2 [|c3 r3]]]; cbn [PyStr.lstrip PyStr.white_prefix];
    try reflexivity.
  - destruct (PyStr.is_space c1); reflexivity.
  - destruct (PyStr.is_space c1); [reflexivity|].
    destruct (PyStr.is_space2 c1 c2); reflexivity.
  - destruct (PyStr.is_space c1); [reflexivity|].
    destruct (PyStr.is_space2 c1 c2); [reflexivity|].
    destruct (PyStr.is_space3 c1 c2 c3); reflexivity.
Qed.

Lemma blank_eq (s : string) :
  PyStr.blank s =
    match s with
    | EmptyString => true
    | String _ _ =>
        match PyStr.white_prefix s with
        | Some r => PyStr.blank r
        | None => false
        end
    end.
Proof.
  destruct s as [|c1 [|c2 [|c3 r3]]]; cbn [PyStr.blank PyStr.white_prefix];
    try reflexivity.
  - destruct (PyStr.is_space c1); reflexivity.
  - destruct (PyStr.is_space c1); [reflexivity|].
    destruct (PyStr.is_space2 c1 c2); reflexivity.
  - destruct (PyStr.is_space c1); [reflexivity|].
    destruct (PyStr.is_space2 c1 c2); [reflexivity|].
    destruct (PyStr.is_space3 c1 c2 c3); reflexivity.
Qed.

(** What [white_prefix] takes off is one white character [w], whatever
    follows it. *)
Lemma white_prefix_spec (s r : string) :
  PyStr.white_prefix s = Some r ->
  exists w, s = w +:+ r /\ 0 < String.length w /\
            PyStr.has_char "|" w = false /\ PyStr.has_char "\" w = false /\
            forall t, PyStr.white_prefix (w +:+ t) = Some t.
Proof.
  destruct s as [|c1 r1]; [discriminate|].
  cbn [PyStr.white_prefix].
  destruct (PyStr.is_space c1) eqn:H1.
  { intros [= <-]. exists (String c1 ""). split; [reflexivity|].
    split; [simpl; lia|].
    assert (Hb : Ascii.eqb c1 "|" = false /\ Ascii.eqb c1 "\" = false).
    { split; apply Ascii.eqb_neq; intros ->; discriminate H1. }
    destruct Hb as [Hb1 Hb2]. cbn [PyStr.has_char]. rewrite Hb1, Hb2.
    repeat split. intros t. rewrite str_app_cons, str_app_nil_l.
    cbn [PyStr.white_prefix]. now rewrite H1. }
  destruct r1 as [|c2 r2]; [discriminate|].
  destruct (PyStr.is_space2 c1 c2) eqn:H2.
  { intros [= <-]. exists (String c1 (String c2 "")). split; [reflexivity|].
    split; [simpl; lia|].
    assert (Hb : (Ascii.eqb c1 "|" = false /\ Ascii.eqb c1 "\" = false) /\
                 (Ascii.eqb c2 "|" = false /\ Ascii.eqb c2 "\" = false)).
    { repeat split; apply Ascii.eqb_neq; intros ->;
        revert H2; unfold PyStr.is_space2, PyStr.byte_is;
        try discriminate; destruct (Nat.eqb (nat_of_ascii c1) 194);
        discriminate. }
    destruct Hb as [[Hb1 Hb2] [Hb3 Hb4]]. cbn [PyStr.has_char].
    rewrite Hb1, Hb2, Hb3, Hb4. repeat split.
    intros t. rewrite !str_app_cons, str_app_nil_l.
    cbn [PyStr.white_prefix]. now rewrite H1, H2. }
  destruct r2 as [|c3 r3]; [discriminate|].
  destruct (PyStr.is_space3 c1 c2 c3) eqn:H3; [|discriminate].
  intros [= <-]. exists (String c1 (String c2 (String c3 ""))).
  split; [reflexivity|]. split; [simpl; lia|].
  assert (Hn : 128 <= nat_of_ascii c1 /\ 128 <= nat_of_ascii c2 /\
               128 <= nat_of_ascii c3).
  { revert H3. unfold PyStr.is_space3, PyStr.byte_is.
    cbv zeta.
    repeat rewrite ?orb_true_iff, ?andb_true_iff, ?Nat.eqb_eq, ?Nat.leb_le.
    lia. }
  assert (Hb : forall c, 128 <= nat_of_ascii c ->
                 Ascii.eqb c "|" = false /\ Ascii.eqb c "\" = false).
  { intros c Hc. split; apply Ascii.eqb_neq; intros ->;
      change (128 <= 124) in Hc || change (128 <= 92) in Hc; lia. }
  destruct Hn as (Hn1 & Hn2 & Hn3).
  destruct (Hb _ Hn1) as [E1 E1'], (Hb _ Hn2) as [E2 E2'], (Hb _ Hn3) as [E3 E3'].
  cbn [PyStr.has_char]. rewrite E1, E1', E2, E2', E3, E3'. repeat split.
  intros t. rewrite !str_app_cons, str_app_nil_l.
  cbn [PyStr.white_prefix]. now rewrite H1, H2, H3.
Qed.

Lemma str_length_app (a b : string) :
  String.length (a +:+ b) = String.length a + String.length b.
Proof.
  induction a as [|x a IH]; [reflexivity|].
  rewrite str_app_cons. simpl. now rewrite IH.
Qed.

Lemma white_prefix_shorter (s r : string) :
  PyStr.white_prefix s = Some r -> String.length r < String.length s.
Proof.
  intros (w & -> & Hw & _)%white_prefix_spec. rewrite str_length_app. lia.
Qed.

Lemma rstrip_cons (c : ascii) (r : string) :
  PyStr.rstrip (String c r) =
    if PyStr.blank (String c r) then EmptyString else String c (PyStr.rstrip r).
Proof. reflexivity. Qed.

Lemma lstrip_blank (s : string) : PyStr.blank s = PyStr.blank (PyStr.lstrip s).
Proof.
  induction s as [s IH] using string_length_ind.
  rewrite lstrip_eq. destruct s as [|c r]; [reflexivity|].
  rewrite (blank_eq (String c r)).
  destruct (PyStr.white_prefix (String c r)) as [t|] eqn:Hw.
  - apply IH. now apply white_prefix_shorter.
  - rewrite blank_eq, Hw. reflexivity.
Qed.

Lemma rstrip_blank (s : string) : PyStr.blank s = true -> PyStr.rstrip s = "".
Proof.
  destruct s as [|c r]; [reflexivity|]. intros H. now rewrite rstrip_cons, H.
Qed.

Lemma rstrip_empty_blank (s : string) : PyStr.rstrip s = "" -> PyStr.blank s = true.
Proof.
  destruct s as [|c r]; [reflexivity|]. rewrite rstrip_cons.
  destruct (PyStr.blank (String c r)); [reflexivity|discriminate].
Qed.

(** [strip] gives the empty string exactly on the strings that are empty or
    hold white space only. *)
Lemma strip_empty_iff (s : string) : PyStr.strip s = "" <-> PyStr.blank s = true.
Proof.
  unfold PyStr.strip. rewrite lstrip_blank. split.
  - apply rstrip_empty_blank.
  - apply rstrip_blank.
Qed.

Lemma blank_app (a b : string) :
  PyStr.blank a = true -> PyStr.blank b = true -> PyStr.blank (a +:+ b) = true.
Proof.
  induction a as [a IH] using string_length_ind. intros Ha Hb.
  destruct a as [|c r]; [exact Hb|].
  rewrite blank_eq in Ha.
  destruct (PyStr.white_prefix (String c r)) as [t|] eqn:Hw; [|discriminate].
  pose proof (white_prefix_shorter _ _ Hw) as Hlen.
  apply white_prefix_spec in Hw as (w & Hs & Hpos & _ & _ & Hw).
  rewrite Hs, str_app_assoc. rewrite blank_eq, Hw.
  destruct w as [|x w]; [simpl in Hpos; lia|]. rewrite str_app_cons.
  now apply IH.
Qed.

Lemma rstrip_split (s : string) :
  exists post, s = PyStr.rstrip s +:+ post /\ PyStr.blank post = true.
Proof.
  induction s as [|c r (post & Hr & Hpost)].
  - exists "". split; reflexivity.
  - rewrite rstrip_cons. destruct (PyStr.blank (String c r)) eqn:Hb.
    + exists (String c r). split; [reflexivity|exact Hb].
    + exists post. split; [|exact Hpost]. rewrite str_app_cons. congruence.
Qed.

Lemma rstrip_idem (s : string) : PyStr.rstrip (PyStr.rstrip s) = PyStr.rstrip s.
Proof.
  induction s as [|c r IH]; [reflexivity|].
  rewrite rstrip_cons. destruct (PyStr.blank (String c r)) eqn:Hb; [reflexivity|].
  rewrite rstrip_cons, IH.
  destruct (PyStr.blank (String c (PyStr.rstrip r))) eqn:Hb'; [|reflexivity].
  destruct (rstrip_split r) as (post & Hr & Hpost).
  pose proof (blank_app _ _ Hb' Hpost) as H.
  rewrite str_app_cons, <- Hr in H. congruence.
Qed.

Lemma lstrip_clean (s : string) : PyStr.white_prefix (PyStr.lstrip s) = None.
Proof.
  induction s as [s IH] using string_length_ind.
  rewrite lstrip_eq.
  destruct (PyStr.white_prefix s) as [t|] eqn:Hw; [|exact Hw].
  apply IH. now apply white_prefix_shorter.
Qed.

Lemma lstrip_of_clean (s : string) :
  PyStr.white_prefix s = None -> PyStr.lstrip s = s.
Proof. intros H. now rewrite lstrip_eq, H. Qed.

Lemma rstrip_clean (s : string) :
  PyStr.white_prefix s = None -> PyStr.white_prefix (PyStr.rstrip s) = None.
Proof.
  destruct s as [|c1 r1]; [reflexivity|].
  rewrite rstrip_cons. destruct (PyStr.blank (String c1 r1)); [reflexivity|].
  cbn [PyStr.white_prefix].
  destruct (PyStr.is_space c1); [discriminate|].
  destruct r1 as [|c2 r2]; [reflexivity|].
  rewrite rstrip_cons. destruct (PyStr.blank (String c2 r2)); [reflexivity|].
  destruct (PyStr.is_space2 c1 c2); [discriminate|].
  destruct r2 as [|c3 r3]; [reflexivity|].
  rewrite rstrip_cons. destruct (PyStr.blank (String c3 r3)); [reflexivity|].
  destruct (PyStr.is_space3 c1 c2 c3); [discriminate|reflexivity].
Qed.

Lemma strip_idem (s : string) : PyStr.strip (PyStr.strip s) = PyStr.strip s.
Proof.
  unfold PyStr.strip.
  rewrite (lstrip_of_clean (PyStr.rstrip (PyStr.lstrip s))).
  - apply rstrip_idem.
  - apply rstrip_clean, lstrip_clean.
Qed.

Lemma lstrip_suffix (s : string) : exists pre, s = pre +:+ PyStr.lstrip s.
Proof.
  induction s as [s IH] using string_length_ind.
  rewrite lstrip_eq.
  destruct (PyStr.white_prefix s) as [t|] eqn:Hw; [|now exists ""].
  destruct (IH t (white_prefix_shorter _ _ Hw)) as [pre Hpre].
  apply white_prefix_spec in Hw as (w & -> & _).
  exists (w +:+ pre). rewrite str_app_assoc. congruence.
Qed.

Lemma rstrip_prefix (s : string) : exists post, s = PyStr.rstrip s +:+ post.
Proof. destruct (rstrip_split s) as (post & H & _). now exists post. Qed.

Lemma strip_substring (s : string) : PyStr.substring_of (PyStr.strip s) s.
Proof.
  unfold PyStr.strip. destruct (lstrip_suffix s) as [pre Hpre].
  destruct (rstrip_prefix (PyStr.lstrip s)) as [post Hpost].
  exists pre, post. congruence.
Qed.

Lemma nonempty_true (s : string) : PyStr.nonempty s = true <-> s <> "".
Proof. destruct s; simpl; split; congruence. Qed.

(** ** Query expansion *)

Lemma response_lines_spec (x : string) :
  Forall (fun a =>
            a <> "" /\ PyStr.strip a = a /\
            exists line, line ∈ PyStr.split (ascii_of_nat 10) (PyStr.strip x) /\
                         a = PyStr.strip line)
         (response_lines x).
Proof.
  unfold response_lines. apply Forall_forall. intros a Ha.
  apply list_elem_of_In, in_map_iff in Ha as (line & <- & Hline).
  apply filter_In in Hline as [Hin Hne].
  split; [now apply nonempty_true|]. split; [apply strip_idem|].
  exists line. split; [now apply list_elem_of_In|reflexivity].
Qed.

(** C7. [generate_multi_queries] always returns normally.  When the chain
    fails it returns the one-element list of the original question; when
    the chain answers it returns the question followed by the first
    [MULTI_QUERY_COUNT] entries, at most, of the response's lines that are
    not blank, each trimmed. *)
Theorem generate_multi_queries_never_raises (question : string) (s : PState) :
  exists queries s',
    generate_multi_queries question s = (Ok queries, s') /\
    head queries = Some question /\
    match invoke (MultiQueryChain question MULTI_QUERY_COUNT) s with
    | (Raise _, _) => queries = [question]
    | (Ok x, _) =>
        exists alts,
          queries = question :: alts /\
          length alts <= MULTI_QUERY_COUNT /\
          alts = firstn MULTI_QUERY_COUNT (response_lines x) /\
          Forall (fun a =>
                    a <> "" /\ PyStr.strip a = a /\
                    exists line,
                      line ∈ PyStr.split (ascii_of_nat 10) (PyStr.strip x) /\
                      a = PyStr.strip line) alts
    end.
Proof.
  unfold generate_multi_queries, try_except, bind, ret.
  destruct (invoke (MultiQueryChain question MULTI_QUERY_COUNT) s)
    as [[x|e] s1].
  - eexists _, s1. split; [reflexivity|]. split; [reflexivity|].
    eexists. split; [reflexivity|]. split; [apply firstn_le_length|].
    split; [reflexivity|].
    apply Forall_forall. intros a Ha.
    pose proof (response_lines_spec x) as Hall.
    rewrite Forall_forall in Hall. apply Hall.
    apply elem_of_take in Ha as (i & Hi & _).
    eapply list_elem_of_lookup_2; eassumption.
  - eexists _, s1. repeat split.
Qed.

(** ** Grounding check and confidence *)

Lemma check_hallucination_spec (generated context : string) (s : PState) :
  check_hallucination generated context s =
    match invoke (HallucinationChain (PyStr.take 6000 context) generated) s with
    | (Ok result, s') => (Ok (read_grounding result), s')
    | (Raise _, s') => (Ok "unknown", s')
    end.
Proof.
  unfold check_hallucination, try_except, bind, ret.
  now destruct (invoke _ s) as [[result|e] s'].
Qed.

Lemma read_grounding_cases (result : string) :
  let text := PyStr.lower (PyStr.strip result) in
  (PyStr.contains "not_grounded" text = true ->
   read_grounding result = "not_grounded") /\
  (PyStr.contains "not_grounded" text = false ->
   PyStr.contains "partial" text = true ->
   read_grounding result = "partial") /\
  (PyStr.contains "not_grounded" text = false ->
   PyStr.contains "partial" text = false ->
   PyStr.contains "grounded" text = true ->
   read_grounding result = "grounded") /\
  (PyStr.contains "not_grounded" text = false ->
   PyStr.contains "partial" text = false ->
   PyStr.contains "grounded" text = false ->
   read_grounding result = "unknown").
Proof.
  unfold read_grounding; cbv zeta.
  repeat split; intros; repeat match goal with H : _ = _ |- _ => rewrite H end;
    reflexivity.
Qed.

Lemma read_grounding_range (result : string) :
  read_grounding result ∈ ["not_grounded"; "partial"; "grounded"; "unknown"].
Proof.
  unfold read_grounding; cbv zeta.
  repeat match goal with |- context [if ?b then _ else _] => destruct b end;
    repeat first [apply list_elem_of_here | apply list_elem_of_further].
Qed.

(** C6, as amended. [check_hallucination] always returns a verdict: a
    failed call gives "unknown"; a reply is trimmed and lower-cased, and
    what this gives is read by containment, "not_grounded" first, then
    "partial", then "grounded", and "unknown" when none is found.  When [query] returns a result that is
    not the no-results one, the result carries the verdict of the check on
    the generated answer, its confidence is high for "grounded", medium for
    "partial" and for "unknown", low for "not_grounded", and its answer is
    the generated answer followed by the caveat when the verdict is
    "not_grounded" and the generated answer itself otherwise. *)
Theorem grounding_verdict_and_confidence :
  (forall generated context s,
     exists hall s',
       check_hallucination generated context s = (Ok hall, s') /\
       match invoke (HallucinationChain (PyStr.take 6000 context) generated) s with
       | (Raise _, _) => hall = "unknown"
       | (Ok result, _) =>
           let text := PyStr.lower (PyStr.strip result) in
           if PyStr.contains "not_grounded" text then hall = "not_grounded"
           else if PyStr.contains "partial" text then hall = "partial"
           else if PyStr.contains "grounded" text then hall = "grounded"
           else hall = "unknown"
       end) /\
  (forall question s res s',
     query question s = (Ok res, s') ->
     (confidence res = "no_results" /\ hallucination_check res = "n/a") \/
     exists retrieval generated s1 s2,
       let hall := hallucination_check res in
       let context :=
         child_context retrieval +:+ LF +:+ LF +:+ parent_context retrieval in
       generate_answer question retrieval s1 = (Ok generated, s2) /\
       check_hallucination generated context s2 = (Ok hall, s') /\
       hall ∈ ["not_grounded"; "partial"; "grounded"; "unknown"] /\
       (hall = "grounded" -> confidence res = "high") /\
       (hall = "partial" -> confidence res = "medium") /\
       (hall = "unknown" -> confidence res = "medium") /\
       (hall = "not_grounded" -> confidence res = "low") /\
       (hall = "not_grounded" -> answer res = generated +:+ CAVEAT) /\
       (hall <> "not_grounded" -> answer res = generated)).
Proof.
  split.
  - intros generated context s. rewrite check_hallucination_spec.
    destruct (invoke _ s) as [[result|e] s1].
    + exists (read_grounding result), s1. split; [reflexivity|].
      unfold read_grounding; cbv zeta.
      repeat match goal with |- context [if ?b then _ else _] => destruct b end;
        reflexivity.
    + exists "unknown", s1. split; reflexivity.
  - intros question s res s' Hq. unfold query, bind in Hq.
    destruct (retrieve question s) as [[retrieval|e] s1] eqn:Hretr;
      [|discriminate].
    destruct (child_docs retrieval) as [|d ds] eqn:Hdocs.
    { left. unfold ret in Hq. inversion Hq; subst. split; reflexivity. }
    right.
    destruct (grade_relevance (d :: ds) question s1) as [[graded|e] s2] eqn:Hg;
      [|discriminate].
    destruct (re_retrieve question retrieval graded.1 s2)
      as [[merged|e] s3] eqn:Hm; [|discriminate].
    destruct (generate_answer question merged.2 s3) as [[generated|e] s4]
      eqn:Hgen; [|discriminate].
    destruct (check_hallucination generated
                (child_context merged.2 +:+ LF +:+ LF +:+ parent_context merged.2)
                s4) as [[hall|e] s5] eqn:Hhall; [|discriminate].
    unfold ret in Hq. inversion Hq; subst; clear Hq. simpl.
    exists merged.2, generated, s3, s4.
    split; [exact Hgen|]. split; [exact Hhall|].
    assert (Hrange : hall ∈ ["not_grounded"; "partial"; "grounded"; "unknown"]).
    { rewrite check_hallucination_spec in Hhall.
      destruct (invoke _ s4) as [[result|e] s6]; inversion Hhall; subst.
      - apply read_grounding_range.
      - repeat first [apply list_elem_of_here | apply list_elem_of_further]. }
    split; [exact Hrange|].
    repeat split; try (intros ->; reflexivity).
    intros Hne. destruct (String.eqb_spec hall "not_grounded"); congruence.
Qed.

(** ** Retrieval *)

Lemma generate_multi_queries_run (question : string) (s : PState) :
  exists queries s',
    generate_multi_queries question s = (Ok queries, s') /\
    invoked s' = invoked s ++ [MultiQueryChain question MULTI_QUERY_COUNT].
Proof.
  unfold generate_multi_queries, try_except, bind, ret, invoke.
  destruct (llm _ (world s)) as [[x|e] w]; eexists _, _; split; reflexivity.
Qed.

Lemma search_invoked (q : string) (k : nat) (f : option MetaFilter) (s : PState) :
  invoked (snd (search q k f s)) = invoked s.
Proof. unfold search. now destruct (similarity_search q k f (world s)). Qed.

Lemma search_query_run (q : string) (mf : option MetaFilter)
  (acc : list (list Document)) (s : PState) :
  exists acc' s',
    search_query q mf acc s = (Ok acc', s') /\ invoked s' = invoked s.
Proof.
  unfold search_query, try_except, bind, ret.
  pose proof (search_invoked q TOP_K None) as Hnone.
  destruct mf as [f|].
  - pose proof (search_invoked q TOP_K (Some f) s) as Hsome.
    destruct (search q TOP_K (Some f) s) as [[docs|e] s1]; simpl in Hsome.
    + destruct (Nat.ltb (length docs) 2).
      * pose proof (Hnone s1) as H1.
        destruct (search q TOP_K None s1) as [[docs'|e] s2]; simpl in H1.
        -- eexists _, _; split; [reflexivity|congruence].
        -- pose proof (Hnone s2) as H2.
           destruct (search q TOP_K None s2) as [[docs'|e'] s3]; simpl in H2;
             eexists _, _; (split; [reflexivity|congruence]).
      * eexists _, _; split; [reflexivity|congruence].
    + pose proof (Hnone s1) as H1.
      destruct (search q TOP_K None s1) as [[docs'|e'] s2]; simpl in H1;
        eexists _, _; (split; [reflexivity|congruence]).
  - pose proof (Hnone s) as H1.
    destruct (search q TOP_K None s) as [[docs|e] s1]; simpl in H1.
    + eexists _, _; split; [reflexivity|congruence].
    + pose proof (Hnone s1) as H2.
      destruct (search q TOP_K None s1) as [[docs'|e'] s2]; simpl in H2;
        eexists _, _; (split; [reflexivity|congruence]).
Qed.

Lemma search_all_run (queries : list string) (mf : option MetaFilter) :
  forall (acc : list (list Document)) (s : PState),
  exists acc' s',
    search_all queries mf acc s = (Ok acc', s') /\ invoked s' = invoked s.
Proof.
  induction queries as [|q rest IH]; intros acc s; simpl.
  - eexists _, _; split; reflexivity.
  - unfold bind.
    destruct (search_query_run q mf acc s) as (acc1 & s1 & -> & H1).
    destruct (IH acc1 s1) as (acc2 & s2 & -> & H2).
    eexists _, _; split; [reflexivity|congruence].
Qed.

(** The loop over the queries, cut at any query. *)
Lemma search_all_app (qs1 qs2 : list string) (mf : option MetaFilter) :
  forall (acc : list (list Document)) (s : PState),
    search_all (qs1 ++ qs2) mf acc s =
      match search_all qs1 mf acc s with
      | (Ok acc1, s1) => search_all qs2 mf acc1 s1
      | (Raise e, s1) => (Raise e, s1)
      end.
Proof.
  induction qs1 as [|q rest IH]; intros acc s; simpl; [reflexivity|].
  unfold bind. destruct (search_query q mf acc s) as [[acc1|e] s1];
    [apply IH|reflexivity].
Qed.

(** The results only grow: what earlier queries added stays in front. *)
Lemma search_all_extends (queries : list string) (mf : option MetaFilter) :
  forall (acc acc' : list (list Document)) (s s' : PState),
    search_all queries mf acc s = (Ok acc', s') ->
    exists rest, acc' = acc ++ rest.
Proof.
  induction queries as [|q qs IH]; intros acc acc' s s' H; simpl in H.
  - inversion H; subst. exists []. now rewrite app_nil_r.
  - unfold bind in H.
    destruct (search_query q mf acc s) as [[acc1|e] s1] eqn:Hq; [|discriminate].
    apply IH in H as [rest ->].
    assert (exists one, acc1 = acc ++ one) as [one ->].
    { revert Hq. unfold search_query, try_except, bind, ret.
      repeat match goal with
             | |- context [match ?m ?st with pair _ _ => _ end] =>
                 destruct (m st) as [[?|?] ?]
             | |- context [match ?o with Some _ => _ | None => _ end] =>
                 destruct o
             | |- context [if ?b then _ else _] => destruct b
             end;
        intros Heq; inversion Heq; subst;
        first [now exists [] ; rewrite app_nil_r | eexists; reflexivity]. }
    exists (one ++ rest). now rewrite app_assoc.
Qed.

Lemma get_definitions_context_run (question : string) (s : PState) :
  exists defs s',
    get_definitions_context question s = (Ok defs, s') /\
    invoked s' = invoked s.
Proof.
  unfold get_definitions_context.
  destruct definitions_store as [store|]; [|eexists _, _; split; reflexivity].
  unfold try_except, bind, ret, definitions_search.
  destruct (store question 3 (world s)) as [[[|d ds]|e] w];
    eexists _, _; split; reflexivity.
Qed.

(** How a run of [retrieve] that returns is made up. *)
Lemma retrieve_run (question : string) (s : PState) (retrieval : Retrieval)
  (s' : PState) :
  retrieve question s = (Ok retrieval, s') ->
  exists queries s1 all_results s2,
    generate_multi_queries question s = (Ok queries, s1) /\
    search_all queries (build_metadata_filter question) [] s1
      = (Ok all_results, s2) /\
    (match all_results with
     | [] => child_docs retrieval = []
     | _ => exists fused,
              reciprocal_rank_fusion all_results RRF_K = Ok fused /\
              child_docs retrieval = firstn TOP_K fused
     end) /\
    r_queries_used retrieval = queries /\
    metadata_filter retrieval = build_metadata_filter question /\
    invoked s' = invoked s ++ [MultiQueryChain question MULTI_QUERY_COUNT].
Proof.
  unfold retrieve. unfold bind at 1.
  destruct (generate_multi_queries_run question s) as (queries & s1 & Hq & Hi1).
  rewrite Hq. unfold bind at 1.
  destruct (search_all_run queries (build_metadata_filter question) [] s1)
    as (all_results & s2 & Hs & Hi2).
  rewrite Hs. intros H.
  exists queries, s1, all_results, s2.
  split; [reflexivity|]. split; [exact Hs|].
  destruct all_results as [|r rs].
  - unfold bind, ret in H.
    destruct (get_definitions_context_run question s2) as (defs & s3 & Hd & Hi3).
    rewrite Hd in H. inversion H; subst; simpl.
    repeat split; congruence.
  - unfold bind, ret, lift_result in H.
    destruct (reciprocal_rank_fusion (r :: rs) RRF_K) as [fused|e];
      [|discriminate].
    destruct (get_definitions_context_run question s2) as (defs & s3 & Hd & Hi3).
    rewrite Hd in H. inversion H; subst; simpl.
    split; [exists fused; split; reflexivity|].
    repeat split; congruence.
Qed.

(** C3. When a filter is built for the question, and for one of the
    expanded queries, say [q], the filtered search returns fewer than two
    results and the unfiltered search of [q] that follows returns [docs'],
    then what [q] adds to the lists that are fused is [docs'], at its place
    after the earlier queries' lists; and the chunks [retrieve] returns are
    the first [TOP_K] of the fusion of these lists. *)
Theorem retrieve_filter_fallback (question q : string) (f : MetaFilter)
  (qs1 qs2 : list string) (acc : list (list Document))
  (docs docs' : list Document) (s s0 s1 s2 s3 : PState) :
  build_metadata_filter question = Some f ->
  generate_multi_queries question s = (Ok (qs1 ++ q :: qs2), s0) ->
  search_all qs1 (Some f) [] s0 = (Ok acc, s1) ->
  search q TOP_K (Some f) s1 = (Ok docs, s2) ->
  length docs < 2 ->
  search q TOP_K None s2 = (Ok docs', s3) ->
  search_query q (Some f) acc s1 = (Ok (acc ++ [docs']), s3) /\
  exists rest s4,
    search_all (qs1 ++ q :: qs2) (build_metadata_filter question) [] s0
      = (Ok (acc ++ docs' :: rest), s4) /\
    forall retrieval s',
      retrieve question s = (Ok retrieval, s') ->
      exists fused,
        reciprocal_rank_fusion (acc ++ docs' :: rest) RRF_K = Ok fused /\
        child_docs retrieval = firstn TOP_K fused.
Proof.
  intros Hf Hgen Hpre Hfilt Hlen Hunf.
  assert (Hone : search_query q (Some f) acc s1 = (Ok (acc ++ [docs']), s3)).
  { unfold search_query, try_except, bind, ret. rewrite Hfilt.
    apply Nat.ltb_lt in Hlen. rewrite Hlen, Hunf. reflexivity. }
  split; [exact Hone|].
  destruct (search_all_run qs2 (Some f) (acc ++ [docs']) s3)
    as (acc' & s4 & Hrest & _).
  destruct (search_all_extends _ _ _ _ _ _ Hrest) as [rest ->].
  assert (Hall : search_all (qs1 ++ q :: qs2) (build_metadata_filter question)
                   [] s0 = (Ok (acc ++ docs' :: rest), s4)).
  { rewrite Hf, search_all_app, Hpre. simpl. unfold bind. rewrite Hone, Hrest.
    now rewrite <- app_assoc. }
  exists rest, s4. split; [exact Hall|].
  intros retrieval s' Hretr.
  apply retrieve_run in Hretr
    as (queries & s1' & all_results & s2' & Hq & Hs & Hdocs & _).
  rewrite Hgen in Hq. inversion Hq; subst. rewrite Hall in Hs.
  inversion Hs; subst.
  destruct (acc ++ docs' :: rest) eqn:Happ; [|exact Hdocs].
  now destruct acc.
Qed.

(** When no search has a hit, no list that is fused has an element. *)
Lemma search_query_no_hits (q : string) (mf : option MetaFilter)
  (acc acc' : list (list Document)) (s s' : PState) :
  (forall q k f w,
      fst (similarity_search q k f w) = Ok [] \/
      exists e, fst (similarity_search q k f w) = Raise e) ->
  search_query q mf acc s = (Ok acc', s') ->
  Forall (fun docs => docs = []) acc -> Forall (fun docs => docs = []) acc'.
Proof.
  intros Hsearch Hrun Hacc.
  assert (Hs : forall k f st,
             fst (search q k f st) = Ok [] \/
             exists e, fst (search q k f st) = Raise e).
  { intros k f st. unfold search.
    specialize (Hsearch q k f (world st)).
    destruct (similarity_search q k f (world st)); exact Hsearch. }
  assert (Hgrow : Forall (fun docs : list Document => docs = []) (acc ++ [[]])).
  { apply Forall_app. split; [exact Hacc|]. now constructor. }
  revert Hrun. unfold search_query, try_except, bind, ret.
  destruct mf as [f|].
  - destruct (Hs TOP_K (Some f) s) as [H1|[e H1]];
      destruct (search q TOP_K (Some f) s) as [r1 s1]; simpl in H1; subst r1;
      simpl.
    + destruct (Hs TOP_K None s1) as [H2|[e H2]];
        destruct (search q TOP_K None s1) as [r2 s2]; simpl in H2; subst r2.
      * intros Heq; inversion Heq; subst; exact Hgrow.
      * destruct (Hs TOP_K None s2) as [H3|[e3 H3]];
          destruct (search q TOP_K None s2) as [r3 s3]; simpl in H3; subst r3;
          intros Heq; inversion Heq; subst; assumption.
    + destruct (Hs TOP_K None s1) as [H2|[e2 H2]];
        destruct (search q TOP_K None s1) as [r2 s2]; simpl in H2; subst r2;
        intros Heq; inversion Heq; subst; assumption.
  - destruct (Hs TOP_K None s) as [H1|[e H1]];
      destruct (search q TOP_K None s) as [r1 s1]; simpl in H1; subst r1.
    + intros Heq; inversion Heq; subst; exact Hgrow.
    + destruct (Hs TOP_K None s1) as [H2|[e2 H2]];
        destruct (search q TOP_K None s1) as [r2 s2]; simpl in H2; subst r2;
        intros Heq; inversion Heq; subst; assumption.
Qed.

Lemma search_all_no_hits :
  (forall q k f w,
      fst (similarity_search q k f w) = Ok [] \/
      exists e, fst (similarity_search q k f w) = Raise e) ->
  forall (queries : list string) (mf : option MetaFilter)
    (acc acc' : list (list Document)) (s s' : PState),
    search_all queries mf acc s = (Ok acc', s') ->
    Forall (fun docs => docs = []) acc -> Forall (fun docs => docs = []) acc'.
Proof.
  intros Hsearch queries mf.
  induction queries as [|q qs IH]; intros acc acc' s s' Hrun Hacc; simpl in Hrun.
  - inversion Hrun; subst; exact Hacc.
  - unfold bind in Hrun.
    destruct (search_query q mf acc s) as [[acc1|e] s1] eqn:Hq; [|discriminate].
    eapply IH; [exact Hrun|].
    eapply search_query_no_hits; eassumption.
Qed.

Lemma rrf_accumulate_no_hits (lists : list (list Document)) (k : Z)
  (fused : list (string * PyFloat.t)) :
  Forall (fun docs => docs = []) lists ->
  rrf_accumulate lists k fused = Ok fused.
Proof.
  induction 1 as [|docs rest -> _ IH]; simpl; [reflexivity|exact IH].
Qed.

Lemma reciprocal_rank_fusion_no_hits (lists : list (list Document)) (k : Z) :
  Forall (fun docs => docs = []) lists ->
  reciprocal_rank_fusion lists k = Ok [].
Proof.
  intros H. unfold reciprocal_rank_fusion.
  now rewrite rrf_accumulate_no_hits.
Qed.

(** C4. When retrieval yields no child chunk, [query] returns normally the
    no-results answer: confidence "no_results", no sources, zero relevant
    and zero retrieved chunks and the fixed not-found text; and the only
    chain invoked on the way is the query expansion of [retrieve], so no
    answer is generated.  Retrieval yields no child chunk in particular
    when every similarity search returns an empty list or fails. *)
Theorem query_no_results (question : string) (s : PState) :
  (forall retrieval s1,
     retrieve question s = (Ok retrieval, s1) ->
     child_docs retrieval = [] ->
     query question s =
       (Ok {| answer := NOT_FOUND_ANSWER;
              sources := [];
              confidence := "no_results";
              hallucination_check := "n/a";
              queries_used := r_queries_used retrieval;
              num_relevant := 0;
              num_retrieved := 0 |}, s1) /\
     invoked s1 = invoked s ++ [MultiQueryChain question MULTI_QUERY_COUNT]) /\
  ((forall q k f w,
      fst (similarity_search q k f w) = Ok [] \/
      exists e, fst (similarity_search q k f w) = Raise e) ->
   exists retrieval s1,
     retrieve question s = (Ok retrieval, s1) /\ child_docs retrieval = []).
Proof.
  split.
  - intros retrieval s1 Hretr Hdocs. split.
    + unfold query, bind. rewrite Hretr, Hdocs. reflexivity.
    + apply retrieve_run in Hretr as (? & ? & ? & ? & _ & _ & _ & _ & _ & Hi).
      exact Hi.
  - intros Hsearch.
    destruct (generate_multi_queries_run question s) as (queries & s0 & Hq & _).
    destruct (search_all_run queries (build_metadata_filter question) [] s0)
      as (all_results & s2 & Hs & _).
    pose proof (search_all_no_hits Hsearch _ _ _ _ _ _ Hs (Forall_nil_2 _)) as Hempty.
    destruct (get_definitions_context_run question s2) as (defs & s3 & Hd & _).
    unfold retrieve, bind. rewrite Hq, Hs.
    destruct all_results as [|r rs].
    + unfold ret. rewrite Hd. eexists _, _. split; reflexivity.
    + unfold lift_result, ret.
      rewrite (reciprocal_rank_fusion_no_hits _ RRF_K Hempty). simpl.
      rewrite Hd. eexists _, _. split; reflexivity.
Qed.

(** ** Chunking *)

Lemma child_meta_parent_id (base : gmap string MetaVal)
  (child_id parent_id section page_range : string) (has_table : bool) :
  child_meta base child_id parent_id section page_range has_table !! "parent_id"
    = Some (MStr parent_id).
Proof. unfold child_meta. now simplify_map_eq. Qed.

Lemma make_children_run (child_texts : list string) (base : gmap string MetaVal)
  (parent_id section page_range : string) :
  forall (children : list Chunk) (w : World),
  exists new w',
    make_children child_texts base parent_id section page_range children w
      = (Ok (children ++ new), w') /\
    Forall (fun child =>
              chunk_metadata child !! "parent_id" = Some (MStr parent_id) /\
              chunk_text child ∈ child_texts) new.
Proof.
  induction child_texts as [|t rest IH]; intros children w; simpl.
  - exists [], w. rewrite app_nil_r. split; [reflexivity|constructor].
  - unfold bind, fresh_id. destruct (uuid4 w) as [child_id w1].
    destruct (IH (children ++
                    [ {| chunk_id := child_id; chunk_text := t;
                         chunk_metadata :=
                           child_meta base child_id parent_id section page_range
                             (PyStr.contains "|" t && PyStr.contains "---" t) |} ])
                 w1) as (new & w' & Hrun & Hnew).
    rewrite Hrun. eexists (_ :: new), w'. split.
    + now rewrite <- app_assoc.
    + constructor.
      * simpl. split; [apply child_meta_parent_id|apply list_elem_of_here].
      * eapply Forall_impl; [exact Hnew|]. intros c [Hp Ht].
        split; [exact Hp|now apply list_elem_of_further].
Qed.

Lemma linked_mono (parents parents' children : list Chunk) :
  linked parents children -> parents ⊆ parents' -> linked parents' children.
Proof.
  intros H Hsub child Hc. destruct (H child Hc) as (parent & Hp & Hrest).
  exists parent. split; [now apply Hsub|exact Hrest].
Qed.

Lemma make_parents_run (parent_texts : list string) (base : gmap string MetaVal) :
  forall (parents children : list Chunk) (w : World),
    linked parents children ->
    exists parents' children' w',
      make_parents parent_texts base parents children w
        = (Ok (parents', children'), w') /\
      linked parents' children'.
Proof.
  induction parent_texts as [|t rest IH]; intros parents children w Hl; simpl.
  - exists parents, children, w. split; [reflexivity|exact Hl].
  - unfold bind at 1. unfold fresh_id at 1. destruct (uuid4 w) as [parent_id w1].
    unfold bind at 1.
    destruct (make_children_run (split_text child_splitter t) base parent_id
                (detect_section_header t) (page_range_of t) children w1)
      as (new & w2 & Hrun & Hnew).
    rewrite Hrun. apply IH.
    intros child [Hold|Hin]%elem_of_app.
    + eapply linked_mono; [exact Hl| |exact Hold].
      intros p Hp. apply elem_of_app. now left.
    + rewrite Forall_forall in Hnew. destruct (Hnew child Hin) as [Hp Ht].
      eexists. split; [apply elem_of_app; right; apply list_elem_of_here|].
      simpl. split; assumption.
Qed.

Lemma create_parent_child_chunks_run (doc_info : DocInfo) (w : World) :
  exists parents children w',
    create_parent_child_chunks doc_info w = (Ok (parents, children), w') /\
    linked parents children /\
    (PyStr.blank (di_full_text doc_info) = true ->
     parents = [] /\ children = [] /\ w' = w).
Proof.
  unfold create_parent_child_chunks.
  destruct (PyStr.nonempty (PyStr.strip (di_full_text doc_info))) eqn:Hne; simpl.
  - destruct (make_parents_run
                (split_text parent_splitter (di_full_text doc_info))
                (meta_base doc_info) [] [] w) as (ps & cs & w' & Hrun & Hl).
    { intros child Hc. inversion Hc. }
    exists ps, cs, w'. split; [exact Hrun|]. split; [exact Hl|].
    intros Hb. apply strip_empty_iff in Hb. rewrite Hb in Hne. discriminate.
  - exists [], [], w. split; [reflexivity|]. split.
    + intros child Hc. inversion Hc.
    + intros _. repeat split.
Qed.

(** C10. [create_parent_child_chunks] always returns a pair (parents,
    children) in which the [parent_id] of every child is the id of a parent
    of the returned list, and that parent's text is the text the child was
    split from: the child's text is one of the pieces the child splitter
    gives for it.  A document whose full text is empty or white space only
    yields no parent and no child. *)
Theorem children_name_their_parent (doc_info : DocInfo) (w : World) :
  exists parents children w',
    create_parent_child_chunks doc_info w = (Ok (parents, children), w') /\
    (forall child, child ∈ children ->
       exists parent, parent ∈ parents /\
         chunk_metadata child !! "parent_id" = Some (MStr (chunk_id parent)) /\
         chunk_text child ∈ split_text child_splitter (chunk_text parent)) /\
    (PyStr.blank (di_full_text doc_info) = true ->
     parents = [] /\ children = []).
Proof.
  destruct (create_parent_child_chunks_run doc_info w)
    as (ps & cs & w' & Hrun & Hl & Hb).
  exists ps, cs, w'. split; [exact Hrun|]. split; [exact Hl|].
  intros H. destruct (Hb H) as (-> & -> & _). split; reflexivity.
Qed.


(** ** Stable sorting *)

Lemma Permutation_elem_of {A : Type} (l l' : list A) (x : A) :
  Permutation l l' -> x ∈ l -> x ∈ l'.
Proof. intros H Hx. now rewrite <- H. Qed.

Section StableSort.

Context {A K : Type} (lt : K -> K -> bool) (key : A -> K).

(** The keys the sort meets are comparable: on them [lt] is a strict weak
    order. *)
Variable comparable : K -> Prop.
Hypothesis lt_asym :
  forall x y, comparable x -> comparable y -> lt x y = true -> lt y x = false.
Hypothesis lt_negtrans :
  forall x y z, comparable x -> comparable y -> comparable z ->
    lt x y = false -> lt y z = false -> lt x z = false.

Lemma insert_desc_perm (x : A) (l : list A) :
  Permutation (insert_desc lt key x l) (x :: l).
Proof using Type.
  induction l as [|y l IH]; simpl; [reflexivity|].
  destruct (lt (key x) (key y)); [|reflexivity].
  rewrite IH. apply perm_swap.
Qed.

Lemma sorted_desc_perm (l : list A) : Permutation (sorted_desc lt key l) l.
Proof using Type.
  induction l as [|x l IH]; simpl; [reflexivity|].
  rewrite insert_desc_perm. now constructor.
Qed.

Lemma before_nil (a b : A) : ~ before [] a b.
Proof. intros (i & j & _ & Hi & _). now rewrite lookup_nil in Hi. Qed.

Lemma before_cons (y a b : A) (l : list A) :
  before (y :: l) a b <-> (a = y /\ b ∈ l) \/ before l a b.
Proof using Type.
  unfold before. split.
  - intros (i & j & Hij & Hi & Hj). destruct j as [|j]; [lia|].
    destruct i as [|i]; simpl in *.
    + left. inversion Hi; subst. split; [reflexivity|].
      eapply list_elem_of_lookup_2; eassumption.
    + right. exists i, j. repeat split; [lia|assumption|assumption].
  - intros [[-> Hb]|(i & j & Hij & Hi & Hj)].
    + apply list_elem_of_lookup_1 in Hb as [j Hj].
      exists 0, (S j). repeat split; [lia|assumption].
    + exists (S i), (S j). repeat split; [lia|assumption|assumption].
Qed.

Lemma before_elem_of (l : list A) (a b : A) : before l a b -> a ∈ l /\ b ∈ l.
Proof using Type.
  intros (i & j & _ & Hi & Hj).
  split; eapply list_elem_of_lookup_2; eassumption.
Qed.

(** Where a new element lands: behind elements of strictly greater key
    only. *)
Lemma before_insert_desc (x a b : A) (l : list A) :
  before (insert_desc lt key x l) a b ->
  before l a b \/ (a = x /\ b ∈ l) \/
  (b = x /\ a ∈ l /\ lt (key x) (key a) = true).
Proof using Type.
  induction l as [|y l IH]; simpl.
  - intros [[_ Hb]|Hb]%before_cons; [inversion Hb|now apply before_nil in Hb].
  - destruct (lt (key x) (key y)) eqn:Hxy.
    + intros [[-> Hb]|Hb]%before_cons.
      * apply (Permutation_elem_of _ _ _ (insert_desc_perm x l)) in Hb.
        apply elem_of_cons in Hb as [->|Hb].
        -- right; right. split; [reflexivity|]. split; [|exact Hxy].
           apply list_elem_of_here.
        -- left. apply before_cons. left. split; [reflexivity|exact Hb].
      * destruct (IH Hb) as [H|[[-> H]|(-> & H & Hlt)]].
        -- left. apply before_cons. now right.
        -- right; left. split; [reflexivity|now apply list_elem_of_further].
        -- right; right. split; [reflexivity|].
           split; [now apply list_elem_of_further|exact Hlt].
    + intros [[-> Hb]|Hb]%before_cons.
      * right; left. split; [reflexivity|exact Hb].
      * now left.
Qed.

Lemma insert_desc_descending (x : A) (l : list A) :
  comparable (key x) -> Forall (fun y => comparable (key y)) l ->
  descending lt key l -> descending lt key (insert_desc lt key x l).
Proof using lt_asym lt_negtrans.
  intros Hx. induction l as [|y l IH]; intros Hl Hdesc a b; simpl.
  - intros [[_ Hb]|Hb]%before_cons; [inversion Hb|now apply before_nil in Hb].
  - inversion Hl as [|? ? Hy Hl']; subst.
    assert (Htail : descending lt key l).
    { intros a' b' H. apply Hdesc, before_cons. now right. }
    rewrite Forall_forall in Hl'.
    destruct (lt (key x) (key y)) eqn:Hxy.
    + intros [[-> Hb]|Hb]%before_cons.
      * apply (Permutation_elem_of _ _ _ (insert_desc_perm x l)) in Hb.
        apply elem_of_cons in Hb as [->|Hb].
        -- now apply lt_asym.
        -- apply Hdesc, before_cons. now left.
      * apply IH; [now apply Forall_forall|exact Htail|exact Hb].
    + intros [[-> Hb]|Hb]%before_cons.
      * apply elem_of_cons in Hb as [->|Hb]; [exact Hxy|].
        apply (lt_negtrans _ (key y)); auto.
        apply Hdesc, before_cons. now left.
      * now apply Hdesc.
Qed.

(** [sorted_desc] is a stable descending sort. *)
Lemma sorted_desc_stable (l : list A) :
  Forall (fun y => comparable (key y)) l ->
  stable_desc_sorted lt key l (sorted_desc lt key l).
Proof using lt_asym lt_negtrans.
  induction l as [|x l IH]; intros Hl.
  - split; [reflexivity|]. split; intros a b H; now apply before_nil in H.
  - inversion Hl as [|? ? Hx Hl']; subst.
    destruct (IH Hl') as (Hperm & Hdesc & Hstable).
    split; [apply sorted_desc_perm|]. split.
    + simpl. apply insert_desc_descending; [exact Hx| |exact Hdesc].
      rewrite Forall_forall in Hl' |- *. intros y Hy. apply Hl'.
      now apply (Permutation_elem_of _ _ _ Hperm).
    + simpl. intros a b Hab Hba.
      destruct (before_insert_desc _ _ _ _ Hab) as [H|[[-> H]|(-> & H & Hlt)]].
      * apply before_cons. right. now apply Hstable.
      * apply before_cons. left. split; [reflexivity|].
        now apply (Permutation_elem_of _ _ _ Hperm).
      * congruence.
Qed.

(** Sorting looks at the keys of the elements of the list only. *)
Lemma insert_desc_ext (key' : A -> K) (x : A) (l : list A) :
  key' x = key x -> Forall (fun y => key' y = key y) l ->
  insert_desc lt key' x l = insert_desc lt key x l.
Proof using Type.
  intros Hx. induction 1 as [|y l Hy _ IH]; simpl; [reflexivity|].
  now rewrite Hx, Hy, IH.
Qed.

Lemma sorted_desc_ext (key' : A -> K) (l : list A) :
  Forall (fun y => key' y = key y) l ->
  sorted_desc lt key' l = sorted_desc lt key l.
Proof using Type.
  induction 1 as [|x l Hx Hl IH]; simpl; [reflexivity|].
  rewrite IH. apply insert_desc_ext; [exact Hx|].
  rewrite Forall_forall in Hl |- *. intros y Hy. apply Hl.
  now apply (Permutation_elem_of _ _ _ (sorted_desc_perm l)).
Qed.

End StableSort.

(** Sorting pairs by a component is sorting the other component along. *)
Lemma sorted_desc_map {A B K : Type} (lt : K -> K -> bool) (key : B -> K)
  (f : A -> B) (l : list A) :
  sorted_desc lt key (map f l) = map f (sorted_desc lt (fun a => key (f a)) l).
Proof.
  induction l as [|x l IH]; simpl; [reflexivity|].
  rewrite IH. generalize (sorted_desc lt (fun a => key (f a)) l) as s.
  induction s as [|y s IHs]; simpl; [reflexivity|].
  destruct (lt (key (f x)) (key (f y))); simpl; [now rewrite IHs|reflexivity].
Qed.

(** ** Floats: the scores are ordered *)












(** ** Reciprocal rank fusion *)

Lemma first_seen_NoDup (l : list string) :
  forall seen, NoDup seen -> NoDup (seen ++ first_seen seen l).
Proof.
  induction l as [|x l IH]; intros seen Hseen; simpl.
  - now rewrite app_nil_r.
  - case_bool_decide as Hx; [now apply IH|].
    replace (seen ++ x :: first_seen (seen ++ [x]) l)
      with ((seen ++ [x]) ++ first_seen (seen ++ [x]) l)
      by now rewrite <- app_assoc.
    apply IH. apply NoDup_app. split; [exact Hseen|]. split.
    + intros y Hy ->%list_elem_of_singleton. contradiction.
    + apply NoDup_singleton.
Qed.

Lemma first_seen_elem_of (l : list string) :
  forall seen x, x ∈ seen ++ first_seen seen l <-> x ∈ seen \/ x ∈ l.
Proof.
  induction l as [|y l IH]; intros seen x; simpl.
  - rewrite app_nil_r. split; [now left|]. intros [H|H]; [exact H|inversion H].
  - case_bool_decide as Hy.
    + rewrite IH, elem_of_cons. split.
      * intros [H|H]; [now left|now right; right].
      * intros [H|[->|H]]; [now left|now left|now right].
    + replace (seen ++ y :: first_seen (seen ++ [y]) l)
        with ((seen ++ [y]) ++ first_seen (seen ++ [y]) l)
        by now rewrite <- app_assoc.
      rewrite IH, elem_of_app, list_elem_of_singleton, elem_of_cons. split.
      * intros [[H|H]|H]; [now left|now right; left|now right; right].
      * intros [H|[H|H]]; [now left; left|now left; right|now right].
Qed.

Lemma dict_upd_keys {V : Type} (dflt : V) (f : V -> V) (key : string)
  (d : list (string * V)) :
  map fst (dict_upd dflt f key d) =
    if bool_decide (key ∈ map fst d) then map fst d else map fst d ++ [key].
Proof.
  induction d as [|[k0 v] rest IH]; simpl; [reflexivity|].
  destruct (String.eqb_spec k0 key) as [->|Hne]; simpl.
  - rewrite bool_decide_eq_true_2; [reflexivity|apply list_elem_of_here].
  - rewrite IH. repeat case_bool_decide; try reflexivity.
    + exfalso. match goal with H : ¬ _ |- _ => apply H end.
      now apply list_elem_of_further.
    + exfalso.
      match goal with H : key ∈ k0 :: _ |- _ =>
        apply elem_of_cons in H as [->|H]; [congruence|contradiction] end.
Qed.

Lemma dict_upd_get {V : Type} (dflt : V) (f : V -> V) (key : string)
  (d : list (string * V)) (key' : string) :
  dict_get dflt key' (dict_upd dflt f key d) =
    if String.eqb key key' then f (dict_get dflt key d)
    else dict_get dflt key' d.
Proof.
  induction d as [|[k0 v] rest IH]; simpl.
  - now destruct (String.eqb key key').
  - destruct (String.eqb_spec k0 key) as [->|Hne]; simpl.
    + now destruct (String.eqb key key').
    + rewrite IH. destruct (String.eqb_spec k0 key') as [->|Hne'].
      * destruct (String.eqb_spec key key'); [congruence|reflexivity].
      * reflexivity.
Qed.

(** An association list with distinct keys is its keys with their
    values. *)
Lemma dict_eta {V : Type} (dflt : V) (d : list (string * V)) :
  NoDup (map fst d) ->
  d = map (fun key => (key, dict_get dflt key d)) (map fst d).
Proof.
  induction d as [|[k0 v] rest IH]; simpl; [reflexivity|].
  intros [Hk0 Hrest]%NoDup_cons. rewrite String.eqb_refl. f_equal.
  rewrite (IH Hrest) at 1. apply map_ext_in.
  intros key Hkey%list_elem_of_In.
  destruct (String.eqb_spec k0 key) as [->|_]; [contradiction|reflexivity].
Qed.

Lemma fused_add_keys (key : string) (inc : PyFloat.t)
  (fused : list (string * PyFloat.t)) :
  map fst (fused_add key inc fused) =
    if bool_decide (key ∈ map fst fused) then map fst fused
    else map fst fused ++ [key].
Proof. apply dict_upd_keys. Qed.

Lemma fused_add_get (key : string) (inc : PyFloat.t)
  (fused : list (string * PyFloat.t)) (key' : string) :
  fused_get key' (fused_add key inc fused) =
    if String.eqb key key' then PyFloat.add (fused_get key fused) inc
    else fused_get key' fused.
Proof.
  unfold fused_get, fused_add.
  apply (dict_upd_get PyFloat.zero (fun v => PyFloat.add v inc)).
Qed.

Lemma fused_eta (fused : list (string * PyFloat.t)) :
  NoDup (map fst fused) ->
  fused = map (fun key => (key, fused_get key fused)) (map fst fused).
Proof. apply dict_eta. Qed.

(** An integer below [2 ^ 53] is converted exactly, so without overflow. *)

Lemma digits2_pos_lower (m : positive) :
  (2 ^ (Zpos (digits2_pos m) - 1) <= Zpos m)%Z.
Proof.
  induction m as [m IH|m IH|]; simpl digits2_pos.
  - rewrite Pos2Z.inj_succ.
    replace (Z.succ (Zpos (digits2_pos m)) - 1)%Z
      with (Z.succ (Zpos (digits2_pos m) - 1))%Z by lia.
    rewrite Z.pow_succ_r by lia. lia.
  - rewrite Pos2Z.inj_succ.
    replace (Z.succ (Zpos (digits2_pos m)) - 1)%Z
      with (Z.succ (Zpos (digits2_pos m) - 1))%Z by lia.
    rewrite Z.pow_succ_r by lia. lia.
  - simpl. lia.
Qed.

Lemma digits2_pos_small (m : positive) :
  (Zpos m < 2 ^ 53)%Z -> (Zpos (digits2_pos m) <= 53)%Z.
Proof.
  intros Hm. pose proof (digits2_pos_lower m) as Hlow.
  destruct (Z_le_gt_dec (Zpos (digits2_pos m)) 53) as [|Hgt]; [assumption|].
  exfalso.
  assert (2 ^ 53 <= 2 ^ (Zpos (digits2_pos m) - 1))%Z
    by (apply Z.pow_le_mono_r; lia).
  lia.
Qed.

Lemma digits2_pos_iter_xO (m p : positive) :
  digits2_pos (Pos.iter xO m p) = (digits2_pos m + p)%positive.
Proof.
  induction p as [|p IH] using Pos.peano_ind.
  - simpl. lia.
  - rewrite Pos.iter_succ. simpl. rewrite IH. lia.
Qed.

Lemma binary_round_aux_canonical (mz : positive) (ez : Z) :
  fexp prec emax (Zpos (digits2_pos mz) + ez) = ez ->
  (ez <= emax - prec)%Z ->
  binary_round_aux prec emax false (Zpos mz) ez loc_Exact
    = S754_finite false mz ez.
Proof.
  intros Hfexp Hez.
  unfold binary_round_aux, shr_fexp.
  cbn [Zdigits2 shr_record_of_loc].
  rewrite Hfexp, Z.sub_diag.
  cbn [shr shr_m loc_of_shr_record round_nearest_even Zdigits2 shr_record_of_loc].
  rewrite Hfexp, Z.sub_diag.
  cbn [shr shr_m].
  apply Z.leb_le in Hez. now rewrite Hez.
Qed.

Lemma of_int_small (m : positive) :
  (Zpos m < 2 ^ 53)%Z ->
  exists mz ez, PyFloat.of_int (Zpos m) = S754_finite false mz ez.
Proof.
  intros Hm. pose proof (digits2_pos_small m Hm) as Hd.
  unfold PyFloat.of_int, binary_normalize, binary_round.
  set (d := Zpos (digits2_pos m)) in *.
  assert (Hfexp : forall x, x = d -> fexp prec emax x = (d - 53)%Z).
  { intros x ->. unfold fexp, emin, prec, emax. lia. }
  rewrite (Hfexp (d + 0)%Z) by lia.
  assert (Haligned : exists mz,
            shl_align m 0 (d - 53) = (mz, (d - 53)%Z) /\
            (Zpos (digits2_pos mz) + (d - 53) = d)%Z).
  { unfold shl_align. destruct (d - 53 - 0)%Z as [|q|q] eqn:E.
    - exists m. split; [f_equal; lia|]. fold d. lia.
    - lia.
    - exists (Pos.iter xO m q). split; [reflexivity|].
      rewrite digits2_pos_iter_xO, Pos2Z.inj_add. fold d. lia. }
  destruct Haligned as (mz & -> & Hmz).
  exists mz, (d - 53)%Z. apply binary_round_aux_canonical.
  - now apply Hfexp.
  - unfold emax, prec. lia.
Qed.

Lemma fits_small (z : Z) : (0 <= z < 2 ^ 53)%Z -> PyFloat.fits z = true.
Proof.
  intros [Hz Hlt]. unfold PyFloat.fits. destruct z as [|m|m]; [reflexivity| |lia].
  destruct (of_int_small m Hlt) as (mz & ez & ->). reflexivity.
Qed.

Lemma reciprocal_fits (z : Z) :
  z <> 0%Z -> PyFloat.fits z = true ->
  reciprocal z = Ok (PyFloat.div PyFloat.one (PyFloat.of_int z)).
Proof.
  intros Hz Hfits. unfold reciprocal. rewrite Hfits.
  now destruct (Z.eqb_spec z 0).
Qed.

Lemma rrf_scan_spec (k : Z) (docs : list Document) :
  forall (rank : nat) (fused : list (string * PyFloat.t)),
    (0 < k)%Z ->
    (forall i, i < length docs -> PyFloat.fits (Z.of_nat (rank + i) + k) = true) ->
    exists fused',
      rrf_scan docs rank k fused = Ok fused' /\
      map fst fused' = map fst fused ++ first_seen (map fst fused) (map dumps docs) /\
      forall key,
        fused_get key fused' =
          fold_left (add_rank k) (ranks_of key (map dumps docs) rank)
            (fused_get key fused).
Proof.
  induction docs as [|doc rest IH]; intros rank fused Hk Hfits; simpl.
  - exists fused. rewrite app_nil_r. repeat split.
  - rewrite reciprocal_fits; [|lia|].
    2:{ specialize (Hfits 0 ltac:(simpl; lia)). now rewrite Nat.add_0_r in Hfits. }
    destruct (IH (S rank)
                (fused_add (dumps doc)
                   (PyFloat.div PyFloat.one (PyFloat.of_int (Z.of_nat rank + k)))
                   fused) Hk) as (fused' & Hrun & Hkeys & Hget).
    { intros i Hi. specialize (Hfits (S i) ltac:(simpl; lia)).
      now replace (S rank + i) with (rank + S i) by lia. }
    exists fused'. split; [exact Hrun|]. split.
    + rewrite Hkeys, fused_add_keys.
      case_bool_decide; [reflexivity|now rewrite <- app_assoc].
    + intros key. rewrite Hget, fused_add_get.
      destruct (String.eqb_spec (dumps doc) key) as [<-|]; reflexivity.
Qed.

Lemma rrf_accumulate_spec (k : Z) (result_lists : list (list Document)) :
  forall (fused : list (string * PyFloat.t)),
    (0 < k)%Z ->
    (forall docs rank, docs ∈ result_lists -> rank < length docs ->
                       PyFloat.fits (Z.of_nat rank + k) = true) ->
    exists fused',
      rrf_accumulate result_lists k fused = Ok fused' /\
      map fst fused' =
        map fst fused ++
        first_seen (map fst fused) (concat (map (map dumps) result_lists)) /\
      forall key,
        fused_get key fused' =
          fold_left (add_rank k)
            (concat (map (fun keys => ranks_of key keys 0)
                       (map (map dumps) result_lists)))
            (fused_get key fused).
Proof.
  induction result_lists as [|docs rest IH]; intros fused Hk Hfits; simpl.
  - exists fused. rewrite app_nil_r. repeat split.
  - destruct (rrf_scan_spec k docs 0 fused Hk) as (fused1 & Hrun1 & Hkeys1 & Hget1).
    { intros i Hi. apply (Hfits docs); [apply list_elem_of_here|exact Hi]. }
    rewrite Hrun1.
    destruct (IH fused1 Hk) as (fused' & Hrun & Hkeys & Hget).
    { intros ds rank Hds. apply Hfits. now apply list_elem_of_further. }
    exists fused'. split; [exact Hrun|]. split.
    + rewrite Hkeys, Hkeys1, <- app_assoc. f_equal.
      generalize (map fst fused) as seen.
      generalize (concat (map (map dumps) rest)) as l2.
      generalize (map dumps docs) as l1.
      induction l1 as [|x l1 IHl]; intros l2 seen; simpl.
      * now rewrite app_nil_r.
      * case_bool_decide; [apply IHl|].
        simpl. f_equal. rewrite <- IHl. now rewrite <- app_assoc.
    + intros key. now rewrite Hget, Hget1, fold_left_app.
Qed.




(** ** Temporal versioning *)

Lemma str_lt_iff (x y : string) :
  PyStr.lt x y = true <-> OrderedTypeEx.String_as_OT.lt x y.
Proof.
  unfold PyStr.lt, String.ltb.
  rewrite <- OrderedTypeEx.String_as_OT.cmp_lt.
  unfold OrderedTypeEx.String_as_OT.cmp.
  destruct (String.compare x y); split; congruence.
Qed.

Lemma str_lt_irrefl (x : string) : PyStr.lt x x = false.
Proof.
  destruct (PyStr.lt x x) eqn:E; [|reflexivity].
  apply str_lt_iff in E.
  apply OrderedTypeEx.String_as_OT.lt_not_eq in E. now destruct E.
Qed.

Lemma str_lt_asym (x y : string) :
  True -> True -> PyStr.lt x y = true -> PyStr.lt y x = false.
Proof.
  intros _ _ Hxy. destruct (PyStr.lt y x) eqn:E; [|reflexivity].
  apply str_lt_iff in Hxy, E.
  pose proof (OrderedTypeEx.String_as_OT.lt_trans _ _ _ Hxy E) as H.
  apply OrderedTypeEx.String_as_OT.lt_not_eq in H. now destruct H.
Qed.

Lemma str_lt_total (x y : string) :
  PyStr.lt x y = false -> x = y \/ PyStr.lt y x = true.
Proof.
  intros H. unfold PyStr.lt, String.ltb in *.
  rewrite (String.compare_antisym y x).
  destruct (String.compare x y) eqn:E; simpl; [|discriminate|now right].
  left. now apply String.compare_eq_iff.
Qed.

Lemma str_lt_negtrans (x y z : string) :
  True -> True -> True ->
  PyStr.lt x y = false -> PyStr.lt y z = false -> PyStr.lt x z = false.
Proof.
  intros _ _ _ Hxy Hyz. destruct (PyStr.lt x z) eqn:E; [|reflexivity].
  destruct (str_lt_total _ _ Hxy) as [->|Hyx]; [congruence|].
  destruct (str_lt_total _ _ Hyz) as [->|Hzy]; [congruence|].
  apply str_lt_iff in E, Hyx, Hzy.
  pose proof (OrderedTypeEx.String_as_OT.lt_trans _ _ _ Hzy Hyx) as H1.
  pose proof (OrderedTypeEx.String_as_OT.lt_trans _ _ _ H1 E) as H2.
  apply OrderedTypeEx.String_as_OT.lt_not_eq in H2. now destruct H2.
Qed.

(** The positions at which a key stands. *)
Lemma ranks_of_elem_of (key : string) (keys : list string) :
  forall (rank j : nat),
    j ∈ ranks_of key keys rank <->
    rank <= j /\ keys !! (j - rank) = Some key.
Proof.
  induction keys as [|k0 rest IH]; intros rank j; simpl.
  - split; [intros H; inversion H|intros [_ H]; discriminate].
  - assert (Hrest : j ∈ ranks_of key rest (S rank) <->
                    rank < j /\ rest !! (j - S rank) = Some key).
    { rewrite IH. split; intros [H1 H2]; (split; [lia|exact H2]). }
    destruct (String.eqb_spec k0 key) as [->|Hne].
    + rewrite elem_of_cons, Hrest. split.
      * intros [->|[Hlt Hj]].
        -- split; [lia|]. now rewrite Nat.sub_diag.
        -- split; [lia|]. now replace (j - rank) with (S (j - S rank)) by lia.
      * intros [Hle Hj]. destruct (decide (j = rank)) as [->|Hneq]; [now left|].
        right. split; [lia|].
        now replace (j - rank) with (S (j - S rank)) in Hj by lia.
    + rewrite Hrest. split.
      * intros [Hlt Hj]. split; [lia|].
        now replace (j - rank) with (S (j - S rank)) by lia.
      * intros [Hle Hj]. destruct (decide (j = rank)) as [->|Hneq].
        -- rewrite Nat.sub_diag in Hj. simpl in Hj. congruence.
        -- split; [lia|].
           now replace (j - rank) with (S (j - S rank)) in Hj by lia.
Qed.

Lemma ranks_of_before (key : string) (keys : list string) :
  forall (rank a b : nat), before (ranks_of key keys rank) a b -> a < b.
Proof.
  induction keys as [|k0 rest IH]; intros rank a b; simpl.
  - intros H. now apply before_nil in H.
  - destruct (String.eqb k0 key); [|apply IH].
    intros [[-> Hb]|H]%before_cons; [|eapply IH; exact H].
    apply ranks_of_elem_of in Hb. lia.
Qed.

Lemma ranks_of_NoDup (key : string) (keys : list string) (rank : nat) :
  NoDup (ranks_of key keys rank).
Proof.
  revert rank. induction keys as [|k0 rest IH]; intros rank; simpl.
  - apply NoDup_nil_2.
  - destruct (String.eqb k0 key); [|apply IH].
    apply NoDup_cons. split; [|apply IH].
    rewrite ranks_of_elem_of. lia.
Qed.

(** The groups the first loop builds: one per subject, in the order of
    first appearance, each holding the positions of its subject. *)
Lemma build_groups_spec (cs : list Circular) :
  forall (i : nat) (groups : list (string * list nat)),
    map fst (build_groups cs i groups) =
      map fst groups ++ first_seen (map fst groups) (map subject_key cs) /\
    forall key,
      dict_get [] key (build_groups cs i groups) =
        dict_get [] key groups ++ ranks_of key (map subject_key cs) i.
Proof.
  induction cs as [|c rest IH]; intros i groups; simpl.
  - rewrite !app_nil_r. split; [reflexivity|].
    intros key. now rewrite app_nil_r.
  - destruct (IH (S i) (group_append (subject_key c) i groups)) as [Hkeys Hget].
    unfold group_append in *. split.
    + rewrite Hkeys, dict_upd_keys.
      case_bool_decide; [reflexivity|now rewrite <- app_assoc].
    + intros key. rewrite Hget, dict_upd_get.
      destruct (String.eqb_spec (subject_key c) key) as [<-|];
        [now rewrite <- app_assoc|reflexivity].
Qed.

Lemma build_groups_eta (cs : list Circular) :
  let keys := map subject_key cs in
  build_groups cs 0 [] =
    map (fun key => (key, ranks_of key keys 0)) (first_seen [] keys).
Proof.
  intros keys. destruct (build_groups_spec cs 0 []) as [Hkeys Hget].
  simpl in Hkeys, Hget. fold keys in Hkeys, Hget.
  rewrite (dict_eta [] (build_groups cs 0 [])).
  - rewrite Hkeys. apply map_ext. intros key. now rewrite Hget.
  - rewrite Hkeys. apply (first_seen_NoDup _ []), NoDup_nil_2.
Qed.

Lemma groups_NoDup (keys ks : list string) :
  NoDup ks ->
  NoDup (concat (map snd (map (fun key => (key, ranks_of key keys 0)) ks))).
Proof.
  induction 1 as [|k ks Hk Hks IH]; simpl; [apply NoDup_nil_2|].
  apply NoDup_app. split; [apply ranks_of_NoDup|]. split; [|exact IH].
  intros j Hj Hin.
  apply list_elem_of_In, in_concat in Hin as (ms & Hms & Hjms).
  rewrite map_map in Hms. simpl in Hms.
  apply in_map_iff in Hms as (k' & <- & Hk').
  apply list_elem_of_In in Hjms, Hk'.
  apply ranks_of_elem_of in Hj as [_ Hj], Hjms as [_ Hjms].
  rewrite Hj in Hjms. inversion Hjms; subst. contradiction.
Qed.

Lemma same_doc_refl (c : Circular) : same_doc c c.
Proof. repeat split. Qed.

Lemma same_doc_trans (c1 c2 c3 : Circular) :
  same_doc c1 c2 -> same_doc c2 c3 -> same_doc c1 c3.
Proof. unfold same_doc. intros (? & ? & ?) (? & ? & ?). repeat split; congruence. Qed.

Lemma mark_version_same_doc (i n : nat) (names : list string) (c : Circular) :
  same_doc c (mark_version i n names c).
Proof. repeat split. Qed.

Lemma alter_same_doc (i n : nat) (names : list string) (j : nat)
  (store : list Circular) :
  Forall2 same_doc store (alter (mark_version i n names) j store).
Proof.
  revert j. induction store as [|c store IH]; intros [|j]; simpl;
    constructor; try apply same_doc_refl; try apply mark_version_same_doc;
    try apply IH.
  apply Forall2_same_length_lookup. split; [reflexivity|].
  intros k x y Hx Hy. rewrite Hx in Hy. inversion Hy. apply same_doc_refl.
Qed.

Lemma Forall2_same_doc_trans (s1 s2 s3 : list Circular) :
  Forall2 same_doc s1 s2 -> Forall2 same_doc s2 s3 -> Forall2 same_doc s1 s3.
Proof.
  intros H12. revert s3. induction H12 as [|c1 c2 s1 s2 Hc H12 IH];
    intros s3 H23; inversion H23; subst; constructor.
  - eapply same_doc_trans; eassumption.
  - now apply IH.
Qed.

Lemma same_doc_date_at (store store' : list Circular) (j : nat) :
  Forall2 same_doc store store' -> date_at store' j = date_at store j.
Proof.
  intros H. unfold date_at, date_key.
  destruct (store !! j) as [c|] eqn:Hj.
  - destruct (Forall2_lookup_l _ _ _ _ _ H Hj) as (c' & -> & _ & _ & Hd).
    now rewrite Hd.
  - apply lookup_ge_None in Hj. rewrite (Forall2_length _ _ _ H) in Hj.
    apply lookup_ge_None in Hj. now rewrite Hj.
Qed.

Lemma mark_group_frame (group todo : list nat) :
  forall (i : nat) (store : list Circular),
    Forall2 same_doc store (mark_group group todo i store).
Proof.
  induction todo as [|c rest IH]; intros i store; simpl.
  - apply Forall2_same_length_lookup. split; [reflexivity|].
    intros k x y Hx Hy. rewrite Hx in Hy. inversion Hy. apply same_doc_refl.
  - eapply Forall2_same_doc_trans; [apply alter_same_doc|apply IH].
Qed.

Lemma mark_group_outside (group todo : list nat) (j : nat) :
  forall (i : nat) (store : list Circular),
    j ∉ todo -> mark_group group todo i store !! j = store !! j.
Proof.
  induction todo as [|c rest IH]; intros i store Hj; simpl; [reflexivity|].
  apply not_elem_of_cons in Hj as [Hne Hj].
  rewrite IH by exact Hj. now apply list_lookup_alter_ne.
Qed.

Lemma mark_group_inside (group todo : list nat) (j : nat) :
  forall (i p : nat) (store : list Circular),
    NoDup todo -> todo !! p = Some j -> j < length store ->
    exists c',
      mark_group group todo i store !! j = Some c' /\
      is_latest c' = Some (Nat.eqb (i + p) 0) /\
      status c' = Some (if Nat.eqb (i + p) 0 then "ACTIVE" else "SUPERSEDED").
Proof.
  induction todo as [|c rest IH]; intros i p store Hnd Hp Hlen; [discriminate|].
  apply NoDup_cons in Hnd as [Hc Hnd]. simpl.
  destruct p as [|p]; simpl in Hp.
  - inversion Hp; subst c. rewrite mark_group_outside by exact Hc.
    apply lookup_lt_is_Some in Hlen as [c0 Hc0].
    rewrite list_lookup_alter_eq, Hc0. simpl.
    eexists. split; [reflexivity|]. rewrite Nat.add_0_r. split; reflexivity.
  - destruct (IH (S i) p
                (alter (mark_version i (length group)
                          (map (filename_at store) group)) c store) Hnd Hp)
      as (c' & Hrun & Hl & Hs).
    { now rewrite length_alter. }
    exists c'. split; [exact Hrun|].
    now replace (i + S p) with (S i + p) by lia.
Qed.

Lemma mark_groups_frame (groups : list (string * list nat)) :
  forall store, Forall2 same_doc store (mark_groups groups store).
Proof.
  induction groups as [|[k ms] rest IH]; intros store; simpl.
  - apply Forall2_same_length_lookup. split; [reflexivity|].
    intros j x y Hx Hy. rewrite Hx in Hy. inversion Hy. apply same_doc_refl.
  - eapply Forall2_same_doc_trans; [apply mark_group_frame|apply IH].
Qed.

Lemma mark_groups_outside (groups : list (string * list nat)) (j : nat) :
  forall store,
    j ∉ concat (map snd groups) ->
    mark_groups groups store !! j = store !! j.
Proof.
  induction groups as [|[k ms] rest IH]; intros store Hj; simpl; [reflexivity|].
  simpl in Hj. apply not_elem_of_app in Hj as [Hms Hrest].
  rewrite IH by exact Hrest. apply mark_group_outside.
  intros Hin. apply Hms.
  eapply Permutation_elem_of;
    [apply (sorted_desc_perm PyStr.lt (date_at store) ms)|exact Hin].
Qed.

(** The mark a circular ends with: it is the latest exactly when it heads
    its group once the group is sorted by date. *)
Lemma mark_groups_inside (store0 : list Circular)
  (groups : list (string * list nat)) (k : string) (ms : list nat) (j : nat) :
  forall store,
    NoDup (concat (map snd groups)) ->
    (k, ms) ∈ groups -> j ∈ ms -> j < length store ->
    Forall2 same_doc store0 store ->
    let leads :=
      bool_decide (head (sorted_desc PyStr.lt (date_at store0) ms) = Some j) in
    exists c',
      mark_groups groups store !! j = Some c' /\
      is_latest c' = Some leads /\
      status c' = Some (if leads then "ACTIVE" else "SUPERSEDED").
Proof.
  induction groups as [|[k0 ms0] rest IH]; intros store Hnd Hin Hj Hlen Hframe;
    [inversion Hin|].
  simpl in Hnd. apply NoDup_app in Hnd as (Hnd0 & Hdisj & Hndrest).
  assert (Hsort : sorted_desc PyStr.lt (date_at store) ms0
                  = sorted_desc PyStr.lt (date_at store0) ms0).
  { apply sorted_desc_ext, Forall_forall. intros x _.
    now apply same_doc_date_at. }
  simpl. rewrite Hsort.
  set (sorted0 := sorted_desc PyStr.lt (date_at store0) ms0).
  pose proof (sorted_desc_perm PyStr.lt (date_at store0) ms0) as Hperm.
  fold sorted0 in Hperm.
  apply elem_of_cons in Hin as [Heq|Hin].
  - inversion Heq; subst k0 ms0; clear Heq.
    assert (Hjs : j ∈ sorted0).
    { eapply Permutation_elem_of; [symmetry; exact Hperm|exact Hj]. }
    apply list_elem_of_lookup_1 in Hjs as [p Hp].
    assert (Hnds : NoDup sorted0) by now rewrite Hperm.
    destruct (mark_group_inside sorted0 sorted0 j 0 p store Hnds Hp Hlen)
      as (c' & Hrun & Hl & Hs).
    exists c'. rewrite mark_groups_outside by now apply Hdisj.
    split; [exact Hrun|]. fold sorted0.
    assert (Hlead : Nat.eqb (0 + p) 0
                    = bool_decide (head sorted0 = Some j)).
    { simpl. destruct p as [|p]; simpl.
      - rewrite bool_decide_eq_true_2; [reflexivity|].
        destruct sorted0; [discriminate|]. simpl in *. congruence.
      - rewrite bool_decide_eq_false_2; [reflexivity|].
        intros Hhd. destruct sorted0 as [|h tl]; [discriminate|].
        simpl in Hhd, Hp. inversion Hhd; subst h.
        apply NoDup_cons in Hnds as [Hnot _]. apply Hnot.
        eapply list_elem_of_lookup_2; exact Hp. }
    rewrite <- Hlead. split; assumption.
  - apply IH; [exact Hndrest|exact Hin|exact Hj| |].
    + rewrite <- (Forall2_length _ _ _ (mark_group_frame sorted0 sorted0 0 store)).
      exact Hlen.
    + eapply Forall2_same_doc_trans; [exact Hframe|apply mark_group_frame].
Qed.

Lemma subject_positions (cs : list Circular) (key : string) (j : nat) :
  j ∈ ranks_of key (map subject_key cs) 0 <->
  exists cj, cs !! j = Some cj /\ subject_key cj = key.
Proof.
  rewrite ranks_of_elem_of, Nat.sub_0_r.
  change (map subject_key cs) with (subject_key <$> cs).
  rewrite list_lookup_fmap. split.
  - intros [_ H]. destruct (cs !! j) as [cj|]; [|discriminate].
    simpl in H. inversion H. now exists cj.
  - intros (cj & -> & <-). split; [lia|reflexivity].
Qed.

Lemma date_at_lookup (cs : list Circular) (j : nat) (cj : Circular) :
  cs !! j = Some cj -> date_at cs j = date_key cj.
Proof. unfold date_at. now intros ->. Qed.

(** The head of a subject's positions sorted by date is the newest
    circular of the subject. *)
Lemma head_sorted_newest (cs : list Circular) (i : nat) (c : Circular) :
  cs !! i = Some c ->
  head (sorted_desc PyStr.lt (date_at cs)
          (ranks_of (subject_key c) (map subject_key cs) 0)) = Some i
  <-> newest_of_subject cs i.
Proof.
  intros Hi.
  set (ms := ranks_of (subject_key c) (map subject_key cs) 0).
  destruct (sorted_desc_stable PyStr.lt (date_at cs) (fun _ => True)
              str_lt_asym str_lt_negtrans ms)
    as (Hperm & Hdesc & Hstable).
  { apply Forall_forall. intros; exact I. }
  assert (Hims : i ∈ ms) by (apply subject_positions; eauto).
  set (sorted := sorted_desc PyStr.lt (date_at cs) ms) in *.
  assert (Hisorted : i ∈ sorted).
  { eapply Permutation_elem_of; [symmetry; exact Hperm|exact Hims]. }
  split.
  - intros Hhead. exists c. split; [exact Hi|]. intros j cj Hj Hsubj.
    destruct (decide (j = i)) as [->|Hne].
    { rewrite Hi in Hj. inversion Hj; subst cj.
      split; [apply str_lt_irrefl|lia]. }
    assert (Hjs : j ∈ sorted).
    { eapply Permutation_elem_of; [symmetry; exact Hperm|].
      apply subject_positions. eauto. }
    destruct sorted as [|h tl] eqn:Hs; [discriminate|].
    simpl in Hhead. inversion Hhead; subst h.
    apply elem_of_cons in Hjs as [->|Hjtl]; [congruence|].
    assert (Hbefore : before (i :: tl) i j) by (apply before_cons; now left).
    rewrite <- (date_at_lookup _ _ _ Hi), <- (date_at_lookup _ _ _ Hj).
    split; [now apply Hdesc|].
    intros Htie. apply Hstable in Hbefore; [|exact Htie].
    apply ranks_of_before in Hbefore. lia.
  - intros (c0 & Hc0 & Hnew). rewrite Hi in Hc0. inversion Hc0; subst c0.
    destruct sorted as [|h tl] eqn:Hs; [inversion Hisorted|]. simpl.
    destruct (decide (h = i)) as [->|Hne]; [reflexivity|]. exfalso.
    apply elem_of_cons in Hisorted as [->|Hitl]; [congruence|].
    assert (Hbefore : before (h :: tl) h i) by (apply before_cons; now left).
    assert (Hhms : h ∈ ms).
    { eapply Permutation_elem_of; [exact Hperm|apply list_elem_of_here]. }
    apply subject_positions in Hhms as (ch & Hh & Hsubj).
    destruct (Hnew h ch Hh Hsubj) as [Hle Htie].
    pose proof (Hdesc _ _ Hbefore) as Hhi.
    rewrite (date_at_lookup _ _ _ Hi), (date_at_lookup _ _ _ Hh) in Hhi.
    specialize (Htie Hhi).
    apply Hstable in Hbefore.
    + apply ranks_of_before in Hbefore. lia.
    + now rewrite (date_at_lookup _ _ _ Hi), (date_at_lookup _ _ _ Hh).
Qed.

(** Every subject has a newest circular. *)
Lemma newest_exists (cs : list Circular) (i : nat) (c : Circular) :
  cs !! i = Some c ->
  exists j cj, cs !! j = Some cj /\ subject_key cj = subject_key c /\
               newest_of_subject cs j.
Proof.
  intros Hi.
  set (ms := ranks_of (subject_key c) (map subject_key cs) 0).
  assert (Hims : i ∈ ms) by (apply subject_positions; eauto).
  pose proof (sorted_desc_perm PyStr.lt (date_at cs) ms) as Hperm.
  destruct (sorted_desc PyStr.lt (date_at cs) ms) as [|h tl] eqn:Hs.
  { apply Permutation_nil_l in Hperm. rewrite <- Hperm in Hims. inversion Hims. }
  assert (Hhms : h ∈ ms).
  { eapply Permutation_elem_of; [exact Hperm|apply list_elem_of_here]. }
  apply subject_positions in Hhms as (ch & Hh & Hsubj).
  exists h, ch. split; [exact Hh|]. split; [exact Hsubj|].
  apply (head_sorted_newest cs h ch Hh). rewrite Hsubj. fold ms.
  now rewrite Hs.
Qed.

Lemma newest_unique (cs : list Circular) (i j : nat) (ci cj : Circular) :
  cs !! i = Some ci -> cs !! j = Some cj -> subject_key ci = subject_key cj ->
  newest_of_subject cs i -> newest_of_subject cs j -> i = j.
Proof.
  intros Hi Hj Hsubj (c1 & H1 & Hn1) (c2 & H2 & Hn2).
  rewrite Hi in H1. rewrite Hj in H2. inversion H1; inversion H2; subst c1 c2.
  destruct (Hn1 j cj Hj (eq_sym Hsubj)) as [Ha Hb].
  destruct (Hn2 i ci Hi Hsubj) as [Hc Hd].
  specialize (Hb Hc). specialize (Hd Ha). lia.
Qed.

(** The mark every circular ends with. *)
Lemma determine_latest_versions_at (cs : list Circular) (i : nat) (c : Circular) :
  cs !! i = Some c ->
  exists c',
    determine_latest_versions cs !! i = Some c' /\ same_doc c c' /\
    ((newest_of_subject cs i /\
      status c' = Some "ACTIVE" /\ is_latest c' = Some true) \/
     (~ newest_of_subject cs i /\
      status c' = Some "SUPERSEDED" /\ is_latest c' = Some false)).
Proof.
  intros Hi. unfold determine_latest_versions. rewrite build_groups_eta.
  set (keys := map subject_key cs).
  set (ks := first_seen [] keys).
  set (groups := map (fun key => (key, ranks_of key keys 0)) ks).
  assert (Hnd : NoDup (concat (map snd groups))).
  { apply groups_NoDup, (first_seen_NoDup _ []), NoDup_nil_2. }
  assert (Hin : (subject_key c, ranks_of (subject_key c) keys 0) ∈ groups).
  { apply list_elem_of_In, in_map_iff. exists (subject_key c).
    split; [reflexivity|]. apply list_elem_of_In.
    unfold ks. rewrite <- (app_nil_l (first_seen [] keys)).
    apply first_seen_elem_of. right.
    apply list_elem_of_In, in_map_iff. exists c. split; [reflexivity|].
    apply list_elem_of_In. eapply list_elem_of_lookup_2. exact Hi. }
  assert (Hims : i ∈ ranks_of (subject_key c) keys 0)
    by (apply subject_positions; eauto).
  assert (Hlen : i < length cs) by (eapply lookup_lt_Some; exact Hi).
  assert (Hframe0 : Forall2 same_doc cs cs).
  { apply Forall2_same_length_lookup. split; [reflexivity|].
    intros j x y Hx Hy. rewrite Hx in Hy. inversion Hy. apply same_doc_refl. }
  destruct (mark_groups_inside cs groups _ _ i cs Hnd Hin Hims Hlen Hframe0)
    as (c' & Hrun & Hl & Hs).
  exists c'. split; [exact Hrun|]. split.
  { pose proof (mark_groups_frame groups cs) as Hframe.
    destruct (Forall2_lookup_l _ _ _ _ _ Hframe Hi) as (c2 & Hc2 & Hsame).
    rewrite Hrun in Hc2. now inversion Hc2. }
  revert Hl Hs. case_bool_decide as Hhead; intros Hl Hs.
  - left. split; [|split; assumption].
    now apply (head_sorted_newest cs i c Hi).
  - right. split; [|split; assumption].
    intros Hnew. apply Hhead. now apply (head_sorted_newest cs i c Hi).
Qed.

(** C5. After [determine_latest_versions], the list has the same circulars
    at the same positions.  Among the circulars of one subject exactly one
    is marked [status = "ACTIVE"] with [is_latest = True]: the newest, that
    is the one of greatest [date_parsed], the first in input order when
    several share that date.  All the others of the subject are marked
    [status = "SUPERSEDED"] with [is_latest = False]. *)
Theorem latest_version_per_subject (all_circulars : list Circular) :
  let out := determine_latest_versions all_circulars in
  length out = length all_circulars /\
  (forall i c, all_circulars !! i = Some c ->
     exists c', out !! i = Some c' /\ same_doc c c') /\
  (forall i c, all_circulars !! i = Some c ->
     exists j cj,
       all_circulars !! j = Some cj /\ subject_key cj = subject_key c /\
       newest_of_subject all_circulars j /\
       forall j' c', out !! j' = Some c' -> subject_key c' = subject_key c ->
         (j' = j /\ status c' = Some "ACTIVE" /\ is_latest c' = Some true) \/
         (j' <> j /\ status c' = Some "SUPERSEDED" /\ is_latest c' = Some false)).
Proof.
  intros out. split; [|split].
  - unfold out, determine_latest_versions. symmetry.
    eapply Forall2_length, mark_groups_frame.
  - intros i c Hi.
    destruct (determine_latest_versions_at _ _ _ Hi) as (c' & H1 & H2 & _).
    now exists c'.
  - intros i c Hi.
    destruct (newest_exists _ _ _ Hi) as (j & cj & Hj & Hsubj & Hnew).
    exists j, cj. split; [exact Hj|]. split; [exact Hsubj|].
    split; [exact Hnew|]. intros j' c' Hout Hsubj'.
    assert (exists c0, all_circulars !! j' = Some c0) as [c0 Hc0].
    { apply lookup_lt_is_Some. apply lookup_lt_Some in Hout.
      unfold out, determine_latest_versions in Hout.
      now rewrite <- (Forall2_length _ _ _ (mark_groups_frame _ _)) in Hout. }
    destruct (determine_latest_versions_at _ _ _ Hc0)
      as (c2 & Hc2 & (_ & Hs & _) & Hmark).
    fold out in Hc2. rewrite Hout in Hc2. inversion Hc2; subst c2.
    assert (Hsame : subject_key c0 = subject_key cj).
    { unfold subject_key in *. rewrite <- Hs. congruence. }
    destruct Hmark as [(Hn & Hst & Hl)|(Hn & Hst & Hl)].
    + left. split; [|split; assumption].
      eapply newest_unique; eassumption.
    + right. split; [|split; assumption]. now intros ->.
Qed.

(** ** More on strings: containment *)

Lemma take_drop_str (n : nat) (s : string) :
  PyStr.take n s +:+ PyStr.drop n s = s.
Proof.
  revert n. induction s as [|c s IH]; intros n; [reflexivity|].
  cbn [PyStr.take PyStr.drop]. destruct (PyStr.is_cont c).
  - rewrite str_app_cons. f_equal. apply IH.
  - destruct n as [|n]; [reflexivity|]. rewrite str_app_cons. f_equal. apply IH.
Qed.

Lemma prefix_iff (p s : string) :
  String.prefix p s = true <-> exists post, s = p +:+ post.
Proof.
  revert s. induction p as [|c p IH]; intros s; simpl.
  - split; [intros _; exists s|intros _]; [reflexivity|now destruct s].
  - destruct s as [|d s]; [split; [discriminate|intros [post H]; discriminate]|].
    simpl. destruct (ascii_dec c d) as [->|Hne].
    + rewrite IH. split; intros [post H]; exists post.
      * rewrite str_app_cons. now rewrite H.
      * rewrite str_app_cons in H. now inversion H.
    + split; [discriminate|]. intros [post H].
      rewrite str_app_cons in H. inversion H. congruence.
Qed.

(** [contains] decides containment as a contiguous part. *)
Lemma contains_iff (needle s : string) :
  PyStr.contains needle s = true <-> PyStr.substring_of needle s.
Proof.
  unfold PyStr.substring_of. induction s as [|c s IH].
  - change (PyStr.contains needle "") with (String.prefix needle "" || false).
    rewrite orb_false_r, prefix_iff. split.
    + intros [post H]. exists "", post. exact H.
    + intros (pre & post & H). destruct pre; [now exists post|discriminate].
  - change (PyStr.contains needle (String c s))
      with (String.prefix needle (String c s) || PyStr.contains needle s).
    rewrite orb_true_iff, prefix_iff, IH. split.
    + intros [[post H]|(pre & post & H)].
      * exists "", post. exact H.
      * exists (String c pre), post. rewrite str_app_cons. now rewrite H.
    + intros (pre & post & H). destruct pre as [|d pre].
      * left. now exists post.
      * right. exists pre, post. rewrite str_app_cons in H. now inversion H.
Qed.


(** ** The calls a query makes *)

(** The grading chain's input for one chunk. *)
Lemma take_len (n : nat) (s : string) :
  PyStr.len (PyStr.take n s) = Nat.min n (PyStr.len s).
Proof.
  revert n. induction s as [|c s IH]; intros n; [now destruct n|].
  cbn [PyStr.take PyStr.len]. destruct (PyStr.is_cont c) eqn:Hc.
  - cbn [PyStr.len]. rewrite Hc, IH. reflexivity.
  - destruct n as [|n]; [reflexivity|]. cbn [PyStr.len]. rewrite Hc, IH.
    reflexivity.
Qed.

Lemma take_all (n : nat) (s : string) :
  PyStr.len s <= n -> PyStr.take n s = s.
Proof.
  revert n. induction s as [|c s IH]; intros n; [reflexivity|].
  cbn [PyStr.take PyStr.len]. destruct (PyStr.is_cont c).
  - intros H. f_equal. apply IH. exact H.
  - destruct n as [|n]; [simpl; lia|]. intros H. f_equal. apply IH. simpl in H. lia.
Qed.

Lemma take_prefix (n : nat) (s : string) :
  String.prefix (PyStr.take n s) s = true.
Proof.
  apply prefix_iff. exists (PyStr.drop n s). symmetry. apply take_drop_str.
Qed.

Lemma grades_invoked (docs : list Document) (question : string) :
  forall s : PState,
    invoked (snd (grades docs question s)) =
      invoked s ++
      map (fun doc => RelevanceChain (PyStr.take 800 (page_content doc)) question)
          docs.
Proof.
  induction docs as [|doc rest IH]; intros s; simpl.
  - now rewrite app_nil_r.
  - destruct (grade_of doc question s) as [g s1] eqn:Hg.
    specialize (IH s1). destruct (grades rest question s1) as [gs s2].
    simpl in *. rewrite IH.
    assert (H1 : invoked s1 =
                 invoked s ++
                 [RelevanceChain (PyStr.take 800 (page_content doc)) question]).
    { revert Hg. unfold grade_of, invoke.
      destruct (llm _ (world s)) as [[result|e] w]; intros Heq;
        inversion Heq; reflexivity. }
    rewrite H1. now rewrite <- app_assoc.
Qed.

(** One grading call is made per document, in the order of the list and
    whatever the earlier calls gave, each on the excerpt the document's
    text starts with, of 800 characters at most.  The function returns
    normally also on the empty list, which it gives back. *)
Theorem grade_relevance_calls (docs : list Document) (question : string)
  (s : PState) :
  exists out s',
    grade_relevance docs question s = (Ok out, s') /\
    invoked s' =
      invoked s ++
      map (fun doc => RelevanceChain (PyStr.take 800 (page_content doc)) question)
          docs /\
    Forall (fun doc =>
              PyStr.len (PyStr.take 800 (page_content doc))
                = Nat.min 800 (PyStr.len (page_content doc)) /\
              String.prefix (PyStr.take 800 (page_content doc)) (page_content doc)
                = true) docs /\
    (docs = [] -> out = ([], true)).
Proof.
  rewrite grade_relevance_spec. eexists _, _. split; [reflexivity|].
  split; [apply grades_invoked|]. split.
  - apply Forall_forall. intros doc _. split; [apply take_len|apply take_prefix].
  - intros ->. reflexivity.
Qed.

(** ** The sources of an answer *)

Lemma collect_sources_spec (docs : list Document) :
  forall (seen_src : list MetaVal) (acc : list Source),
    (forall v, v ∈ seen_src <-> v ∈ map src_file acc) ->
    NoDup (map src_file acc) ->
    let out := collect_sources docs seen_src acc in
    NoDup (map src_file out) /\
    length out <= length acc + length docs /\
    (exists more, out = acc ++ more) /\
    (forall v, v ∈ map src_file out <->
       v ∈ map src_file acc \/
       exists doc, doc ∈ docs /\ meta_get_or doc "source" "Unknown" = v).
Proof.
  induction docs as [|doc rest IH]; intros seen_src acc Hseen Hnd; simpl.
  - split; [exact Hnd|]. split; [lia|]. split.
    + exists []. now rewrite app_nil_r.
    + intros v. split; [now left|]. intros [H|(d & Hd & _)]; [exact H|].
      inversion Hd.
  - case_bool_decide as Hin.
    + destruct (IH seen_src acc Hseen Hnd) as (H1 & H2 & H3 & H4).
      split; [exact H1|]. split; [lia|]. split; [exact H3|].
      intros v. rewrite H4. split.
      * intros [H|(d & Hd & Hv)]; [now left|].
        right. exists d. split; [now apply list_elem_of_further|exact Hv].
      * intros [H|(d & Hd & Hv)]; [now left|].
        apply elem_of_cons in Hd as [->|Hd].
        -- left. rewrite <- Hv. now apply Hseen.
        -- right. exists d. split; assumption.
    + set (src := meta_get_or doc "source" "Unknown") in *.
      set (entry := {| src_file := src;
                       src_section := meta_get_or doc "section" "";
                       src_date := meta_get_or doc "date" "";
                       src_audience := meta_get_or doc "audience" "";
                       src_status := meta_get_or doc "status" "";
                       src_pages := meta_get_or doc "pages" "" |}).
      destruct (IH (src :: seen_src) (acc ++ [entry])) as (H1 & H2 & H3 & H4).
      { intros v. rewrite map_app, elem_of_app, elem_of_cons, Hseen. simpl.
        rewrite list_elem_of_singleton. split; intros [H|H]; auto. }
      { rewrite map_app. simpl. apply NoDup_app. split; [exact Hnd|].
        split; [|apply NoDup_singleton].
        intros v Hv Hv'. apply list_elem_of_singleton in Hv'. subst v.
        apply Hin. now apply Hseen. }
      split; [exact H1|]. split.
      { rewrite length_app in H2. simpl in H2. lia. }
      split.
      { destruct H3 as [more ->]. exists (entry :: more).
        now rewrite <- app_assoc. }
      intros v. rewrite H4, map_app, elem_of_app. simpl.
      rewrite list_elem_of_singleton. split.
      * intros [[H|H]|(d & Hd & Hv)].
        -- now left.
        -- right. exists doc. split; [apply list_elem_of_here|now symmetry].
        -- right. exists d. split; [now apply list_elem_of_further|exact Hv].
      * intros [H|(d & Hd & Hv)]; [now left; left|].
        apply elem_of_cons in Hd as [->|Hd].
        -- left. right. now symmetry.
        -- right. exists d. split; assumption.
Qed.

Lemma collect_sources_nonempty (docs : list Document) :
  docs <> [] -> collect_sources docs [] [] <> [].
Proof.
  destruct docs as [|doc rest]; [congruence|]. intros _. simpl.
  destruct (collect_sources_spec rest
              [meta_get_or doc "source" "Unknown"]
              [ {| src_file := meta_get_or doc "source" "Unknown";
                   src_section := meta_get_or doc "section" "";
                   src_date := meta_get_or doc "date" "";
                   src_audience := meta_get_or doc "audience" "";
                   src_status := meta_get_or doc "status" "";
                   src_pages := meta_get_or doc "pages" "" |} ])
    as (_ & _ & [more Hmore] & _).
  - intros v. simpl. reflexivity.
  - simpl. apply NoDup_singleton.
  - rewrite Hmore. discriminate.
Qed.

(** ** The steps of a query *)

Lemma grade_relevance_nonempty (docs : list Document) (question : string)
  (s : PState) (graded : list Document * bool) (s' : PState) :
  grade_relevance docs question s = (Ok graded, s') ->
  docs <> [] -> fst graded <> [].
Proof.
  rewrite grade_relevance_spec. intros H Hne. inversion H; subst.
  now destruct (pick _ docs).
Qed.

Lemma grade_relevance_length (docs : list Document) (question : string)
  (s : PState) (graded : list Document * bool) (s' : PState) :
  grade_relevance docs question s = (Ok graded, s') ->
  length (fst graded) <= length docs.
Proof.
  rewrite grade_relevance_spec. intros H. inversion H; subst.
  pose proof (sublist_length _ _ (pick_sublist (fst (grades docs question s)) docs))
    as Hlen.
  destruct (pick _ docs); simpl in *; lia.
Qed.

(** The retry keeps what was graded relevant, in front. *)
Lemma re_retrieve_run (question : string) (retrieval : Retrieval)
  (relevant_docs : list Document) (s : PState)
  (merged : list Document * Retrieval) (s' : PState) :
  re_retrieve question retrieval relevant_docs s = (Ok merged, s') ->
  (exists added, fst merged = relevant_docs ++ added) /\
  r_queries_used (snd merged) = r_queries_used retrieval /\
  (metadata_filter retrieval = None \/ 2 <= length relevant_docs ->
   merged = (relevant_docs, retrieval) /\ s' = s).
Proof.
  unfold re_retrieve.
  destruct (Nat.ltb (length relevant_docs) 2) eqn:Hlen; simpl.
  - case_bool_decide as Hf; simpl.
    + unfold bind, ret.
      destruct (retrieve question s) as [[retry|e] s1]; [|discriminate].
      destruct (grade_relevance (child_docs retry) question s1)
        as [[extra|e] s2]; [|discriminate].
      intros H; inversion H; subst; simpl.
      split; [eexists; reflexivity|]. split; [reflexivity|].
      intros [Hnone|Hlong].
      * rewrite Hnone in Hf. now destruct Hf.
      * apply Nat.ltb_lt in Hlen. lia.
    + unfold ret. intros H; inversion H; subst; simpl.
      split; [exists []; now rewrite app_nil_r|]. repeat split.
  - unfold ret. intros H; inversion H; subst; simpl.
    split; [exists []; now rewrite app_nil_r|]. repeat split.
Qed.

(** How a run of [query] that returns is made up. *)
Lemma query_run (question : string) (s : PState) (res : QueryResult)
  (s' : PState) :
  query question s = (Ok res, s') ->
  exists retrieval s1,
    retrieve question s = (Ok retrieval, s1) /\
    ((child_docs retrieval = [] /\ s' = s1 /\
      res = {| answer := NOT_FOUND_ANSWER;
               sources := [];
               confidence := "no_results";
               hallucination_check := "n/a";
               queries_used := r_queries_used retrieval;
               num_relevant := 0;
               num_retrieved := 0 |}) \/
     (child_docs retrieval <> [] /\
      exists graded s2 merged s3 generated s4 hall,
        grade_relevance (child_docs retrieval) question s1 = (Ok graded, s2) /\
        re_retrieve question retrieval (fst graded) s2 = (Ok merged, s3) /\
        generate_answer question (snd merged) s3 = (Ok generated, s4) /\
        check_hallucination generated
          (child_context (snd merged) +:+ LF +:+ LF +:+ parent_context (snd merged))
          s4 = (Ok hall, s') /\
        res = {| answer :=
                   if String.eqb hall "not_grounded" then generated +:+ CAVEAT
                   else generated;
                 sources := collect_sources (fst merged) [] [];
                 confidence := confidence_of hall;
                 hallucination_check := hall;
                 queries_used := r_queries_used (snd merged);
                 num_relevant := length (fst merged);
                 num_retrieved :=
                   length (if snd graded then fst merged
                           else child_docs retrieval) |})).
Proof.
  intros Hq. unfold query, bind in Hq.
  destruct (retrieve question s) as [[retrieval|e] s1] eqn:Hretr; [|discriminate].
  exists retrieval, s1. split; [reflexivity|].
  destruct (child_docs retrieval) as [|d ds] eqn:Hdocs.
  { left. unfold ret in Hq. inversion Hq; subst. repeat split. }
  right. split; [discriminate|].
  destruct (grade_relevance (d :: ds) question s1) as [[graded|e] s2] eqn:Hg;
    [|discriminate].
  destruct (re_retrieve question retrieval graded.1 s2)
    as [[merged|e] s3] eqn:Hm; [|discriminate].
  destruct (generate_answer question merged.2 s3) as [[generated|e] s4]
    eqn:Hgen; [|discriminate].
  destruct (check_hallucination generated
              (child_context merged.2 +:+ LF +:+ LF +:+ parent_context merged.2)
              s4) as [[hall|e] s5] eqn:Hhall; [|discriminate].
  unfold ret in Hq. inversion Hq; subst; clear Hq.
  exists graded, s2, merged, s3, generated, s4, hall.
  repeat split; assumption.
Qed.

Lemma confidence_of_range (hall : string) :
  confidence_of hall ∈ ["high"; "medium"; "low"].
Proof.
  unfold confidence_of.
  repeat match goal with |- context [if ?b then _ else _] => destruct b end;
    repeat first [apply list_elem_of_here | apply list_elem_of_further].
Qed.

(** The sources of an answer name each source file once, and there are no
    more of them than chunks counted as relevant.  The no-results answer
    has no source and no relevant chunk; every other answer has a source
    and a relevant chunk, and its confidence is high, medium or low. *)
Theorem query_sources_distinct (question : string) (s : PState)
  (res : QueryResult) (s' : PState) :
  query question s = (Ok res, s') ->
  NoDup (map src_file (sources res)) /\
  length (sources res) <= num_relevant res /\
  ((confidence res = "no_results" /\ sources res = [] /\ num_relevant res = 0) \/
   (confidence res ∈ ["high"; "medium"; "low"] /\ sources res <> [] /\
    1 <= num_relevant res)).
Proof.
  intros Hq.
  destruct (query_run _ _ _ _ Hq) as (retrieval & s1 & Hretr & [Hnone|Hsome]).
  - destruct Hnone as (_ & _ & ->). simpl.
    split; [apply NoDup_nil_2|]. split; [lia|]. left. repeat split.
  - destruct Hsome as (Hne & graded & s2 & merged & s3 & generated & s4 & hall
                       & Hg & Hm & _ & _ & ->). simpl.
    destruct (collect_sources_spec (fst merged) [] []) as (H1 & H2 & _ & _).
    { intros v. simpl. reflexivity. }
    { apply NoDup_nil_2. }
    split; [exact H1|]. split; [simpl in H2; lia|]. right.
    split; [apply confidence_of_range|].
    assert (Hrel : fst merged <> []).
    { destruct (re_retrieve_run _ _ _ _ _ _ Hm) as ([added Hadd] & _).
      pose proof (grade_relevance_nonempty _ _ _ _ _ Hg Hne) as Hg1.
      rewrite Hadd. destruct (fst graded); [congruence|discriminate]. }
    split; [now apply collect_sources_nonempty|].
    destruct (fst merged); [congruence|simpl; lia].
Qed.

Lemma invoke_invoked (c : ChainInput) (s : PState) :
  invoked (snd (invoke c s)) = invoked s ++ [c].
Proof. unfold invoke. now destruct (llm c (world s)). Qed.

Lemma check_hallucination_invoked (generated context : string) (s : PState) :
  invoked (snd (check_hallucination generated context s)) =
    invoked s ++ [HallucinationChain (PyStr.take 6000 context) generated].
Proof.
  rewrite check_hallucination_spec.
  pose proof (invoke_invoked (HallucinationChain (PyStr.take 6000 context) generated) s)
    as H.
  now destruct (invoke _ s) as [[result|e] s1].
Qed.

(** When grading gives back its argument, the list is the argument. *)
Lemma grade_relevance_shared (docs : list Document) (question : string)
  (s : PState) (graded : list Document * bool) (s' : PState) :
  grade_relevance docs question s = (Ok graded, s') ->
  snd graded = true -> fst graded = docs.
Proof.
  rewrite grade_relevance_spec. intros H. inversion H; subst.
  now destruct (pick _ docs).
Qed.

(** A question for which no filter is built is retrieved once: the chains
    invoked are the query expansion, then one grading call per retrieved
    chunk, then the generation and the grounding check, in this order and
    nothing else.  At most [TOP_K] chunks are retrieved, and between one
    and all of them count as relevant. *)
Theorem query_without_filter (question : string) (s : PState)
  (res : QueryResult) (s' : PState) :
  build_metadata_filter question = None ->
  query question s = (Ok res, s') ->
  exists retrieval s1 calls,
    retrieve question s = (Ok retrieval, s1) /\
    invoked s' =
      invoked s ++ MultiQueryChain question MULTI_QUERY_COUNT :: calls /\
    match child_docs retrieval with
    | [] => calls = []
    | docs =>
        exists generated,
          calls =
            map (fun doc =>
                   RelevanceChain (PyStr.take 800 (page_content doc)) question)
                docs ++
            [ RagChain question
                (PyStr.or_else (child_context retrieval) "(no child context)")
                (PyStr.or_else (parent_context retrieval) "(no parent context)")
                (definitions retrieval);
              HallucinationChain
                (PyStr.take 6000
                   (child_context retrieval +:+ LF +:+ LF
                    +:+ parent_context retrieval))
                generated ] /\
          num_retrieved res = length docs /\
          length docs <= TOP_K /\
          1 <= num_relevant res <= length docs
    end.
Proof.
  intros Hnone Hq.
  destruct (query_run _ _ _ _ Hq) as (retrieval & s1 & Hretr & Hcases).
  destruct (retrieve_run _ _ _ _ Hretr)
    as (queries & s0 & all_results & s0' & _ & _ & Hdocs & _ & Hf & Hi1).
  rewrite Hnone in Hf.
  destruct Hcases as [(Hempty & -> & _)|(Hne & Hsteps)].
  - exists retrieval, s1, []. split; [exact Hretr|]. split; [exact Hi1|].
    now rewrite Hempty.
  - destruct Hsteps as (graded & s2 & merged & s3 & generated & s4 & hall
                        & Hg & Hm & Hgen & Hhall & ->).
    destruct (re_retrieve_run _ _ _ _ _ _ Hm) as (_ & _ & Hsame).
    destruct (Hsame (or_introl Hf)) as [-> ->]. simpl in *.
    pose proof (grade_relevance_nonempty _ _ _ _ _ Hg Hne) as Hrel.
    pose proof (grade_relevance_length _ _ _ _ _ Hg) as Hlen.
    pose proof (grade_relevance_shared _ _ _ _ _ Hg) as Hshared.
    assert (Hi2 : invoked s2 =
                  invoked s1 ++
                  map (fun doc =>
                         RelevanceChain (PyStr.take 800 (page_content doc)) question)
                      (child_docs retrieval)).
    { rewrite grade_relevance_spec in Hg. inversion Hg.
      apply grades_invoked. }
    assert (Hi3 : invoked s4 =
                  invoked s2 ++
                  [ RagChain question
                      (PyStr.or_else (child_context retrieval) "(no child context)")
                      (PyStr.or_else (parent_context retrieval) "(no parent context)")
                      (definitions retrieval) ]).
    { unfold generate_answer in Hgen.
      pose proof (invoke_invoked
                    (RagChain question
                       (PyStr.or_else (child_context retrieval) "(no child context)")
                       (PyStr.or_else (parent_context retrieval) "(no parent context)")
                       (definitions retrieval)) s2) as H.
      now rewrite Hgen in H. }
    assert (Hi4 : invoked s' =
                  invoked s4 ++
                  [ HallucinationChain
                      (PyStr.take 6000
                         (child_context retrieval +:+ LF +:+ LF
                          +:+ parent_context retrieval))
                      generated ]).
    { pose proof (check_hallucination_invoked generated
                    (child_context retrieval +:+ LF +:+ LF
                     +:+ parent_context retrieval) s4) as H.
      now rewrite Hhall in H. }
    eexists retrieval, s1, _. split; [exact Hretr|]. split.
    { rewrite Hi4, Hi3, Hi2, Hi1. rewrite <- !app_assoc. simpl. reflexivity. }
    destruct (child_docs retrieval) as [|d ds] eqn:Hcd; [congruence|].
    exists generated. split; [reflexivity|].
    assert (Htop : length (d :: ds) <= TOP_K).
    { destruct all_results as [|r rs]; [discriminate|].
      destruct Hdocs as (fused & _ & ->). apply firstn_le_length. }
    split.
    { destruct (snd graded) eqn:Hs; [|reflexivity].
      now rewrite (Hshared eq_refl). }
    split; [exact Htop|]. split; [|exact Hlen].
    destruct (fst graded); [congruence|simpl; lia].
Qed.

(** The generation step has no handler: when chunks were retrieved and the
    generation chain fails, [query] raises. *)
Theorem query_generation_failure (question : string) (s : PState)
  (retrieval : Retrieval) (s1 : PState) :
  retrieve question s = (Ok retrieval, s1) ->
  child_docs retrieval <> [] ->
  (forall q cc pc defs w, exists e, fst (llm (RagChain q cc pc defs) w) = Raise e) ->
  exists e s', query question s = (Raise e, s').
Proof.
  intros Hretr Hne Hdown. unfold query, bind. rewrite Hretr.
  destruct (child_docs retrieval) as [|d ds] eqn:Hdocs; [congruence|].
  rewrite grade_relevance_spec.
  destruct (re_retrieve question retrieval _ _) as [[merged|e] s3];
    [|eexists _, _; reflexivity].
  unfold generate_answer, invoke.
  destruct (Hdown question
              (PyStr.or_else (child_context merged.2) "(no child context)")
              (PyStr.or_else (parent_context merged.2) "(no parent context)")
              (definitions merged.2) (world s3)) as [e He].
  destruct (llm _ (world s3)) as [r w]. simpl in He. subst r.
  eexists _, _; reflexivity.
Qed.

(** ** The metadata filter *)

Lemma audience_clause_first (q : string) (table : list (string * string)) :
  (audience_clause q table = [] /\
   Forall (fun row => PyStr.contains (fst row) q = false) table) \/
  (exists pre kw label post,
     table = pre ++ (kw, label) :: post /\
     Forall (fun row => PyStr.contains (fst row) q = false) pre /\
     PyStr.contains kw q = true /\
     audience_clause q table = [AudienceIs label]).
Proof.
  induction table as [|[kw label] rest IH]; simpl.
  - left. split; [reflexivity|constructor].
  - destruct (PyStr.contains kw q) eqn:Hkw.
    + right. exists [], kw, label, rest. repeat split; auto.
    + destruct IH as [[Hnone Hall]|(pre & kw' & label' & post & -> & Hpre & Hkw' & Hc)].
      * left. split; [exact Hnone|]. constructor; [exact Hkw|exact Hall].
      * right. exists ((kw, label) :: pre), kw', label', post.
        split; [reflexivity|]. split; [|split; assumption].
        constructor; [exact Hkw|exact Hpre].
Qed.

(** The filter is made of at most three clauses, in a fixed order.  First
    the audience of the first row of [audience_map] whose keyword occurs in
    the lower-cased question, if there is one: a later row is not looked at.
    Then [is_latest = True] when a recency word occurs, then
    [status = "ACTIVE"] when a currency word occurs; the filter never asks
    for another value of these fields.  No clause gives no filter, one
    clause gives the clause itself, and only two or three clauses are
    joined by [$and]. *)
Theorem build_metadata_filter_clauses (question : string) :
  let q := PyStr.lower question in
  exists aud lat act,
    ((aud = [] /\
      Forall (fun row => PyStr.contains (fst row) q = false) audience_map) \/
     (exists pre kw label post,
        audience_map = pre ++ (kw, label) :: post /\
        Forall (fun row => PyStr.contains (fst row) q = false) pre /\
        PyStr.contains kw q = true /\
        aud = [AudienceIs label])) /\
    lat = (if any_in ["latest"; "current"; "most recent"; "newest"] q
           then [IsLatestIs true] else []) /\
    act = (if any_in ["active"; "in force"; "in effect"] q
           then [StatusIs "ACTIVE"] else []) /\
    match build_metadata_filter question with
    | None => aud ++ lat ++ act = []
    | Some (Where c) => aud ++ lat ++ act = [c]
    | Some (WhereAnd cs) => cs = aud ++ lat ++ act /\ 2 <= length cs <= 3
    end.
Proof.
  intros q. unfold build_metadata_filter. fold q.
  destruct (audience_clause_first q audience_map)
    as [[Hnone Hall]|(pre & kw & label & post & Htab & Hpre & Hkw & Hc)].
  - exists [], (if any_in ["latest"; "current"; "most recent"; "newest"] q
                then [IsLatestIs true] else []),
           (if any_in ["active"; "in force"; "in effect"] q
            then [StatusIs "ACTIVE"] else []).
    split; [left; split; [reflexivity|exact Hall]|].
    split; [reflexivity|]. split; [reflexivity|].
    rewrite Hnone.
    destruct (any_in ["latest"; "current"; "most recent"; "newest"] q);
      destruct (any_in ["active"; "in force"; "in effect"] q); simpl;
      try reflexivity.
    split; [reflexivity|lia].
  - exists [AudienceIs label],
           (if any_in ["latest"; "current"; "most recent"; "newest"] q
            then [IsLatestIs true] else []),
           (if any_in ["active"; "in force"; "in effect"] q
            then [StatusIs "ACTIVE"] else []).
    split.
    { right. exists pre, kw, label, post. repeat split; assumption. }
    split; [reflexivity|]. split; [reflexivity|].
    rewrite Hc.
    destruct (any_in ["latest"; "current"; "most recent"; "newest"] q);
      destruct (any_in ["active"; "in force"; "in effect"] q); simpl;
      try reflexivity; (split; [reflexivity|lia]).
Qed.

(** ** Parent context *)

Lemma parent_scan_spec (docs : list Document) :
  forall (seen : list MetaVal) (parents : list string) (text : string),
    text ∈ parent_scan docs seen parents <->
    text ∈ parents \/
    exists doc pid,
      doc ∈ docs /\ meta_get doc "parent_id" = Some (MStr pid) /\
      pid <> "" /\ (MStr pid ∉ seen) /\
      parent_store !! pid = Some text /\ text <> "".
Proof.
  induction docs as [|doc rest IH]; intros seen parents text; simpl.
  - split; [now left|]. intros [H|(d & pid & Hd & _)]; [exact H|inversion Hd].
  - set (pid := meta_get_or doc "parent_id" "").
    destruct (truthy pid && negb (bool_decide (pid ∈ seen))) eqn:Hcond.
    + apply andb_true_iff in Hcond as [Htruthy Hfresh].
      apply negb_true_iff, bool_decide_eq_false in Hfresh.
      rewrite IH. clear IH.
      assert (Hpid : forall p, meta_get doc "parent_id" = Some (MStr p) ->
                               pid = MStr p).
      { intros p Hp. unfold pid, meta_get_or. unfold meta_get in Hp.
        now rewrite Hp. }
      split.
      * intros [Hin|(d & p & Hd & Hm & Hp & Hseen & Hstore & Hne)].
        -- destruct (PyStr.nonempty (parent_text_of pid)) eqn:Hne.
           ++ apply elem_of_app in Hin as [Hin|Hin]; [now left|].
              apply list_elem_of_singleton in Hin. right.
              destruct pid as [p|b] eqn:Hp.
              ** exists doc, p. split; [apply list_elem_of_here|].
                 assert (Hm : meta_get doc "parent_id" = Some (MStr p)).
                 { unfold pid, meta_get_or in Hp. unfold meta_get.
                   destruct (metadata doc !! "parent_id") as [v|] eqn:Hv;
                     simpl in Hp; [now subst v|].
                   inversion Hp; subst p. discriminate Htruthy. }
                 split; [exact Hm|].
                 split; [intros ->; discriminate Htruthy|].
                 split; [exact Hfresh|].
                 simpl in Hin, Hne.
                 destruct (parent_store !! p) as [t|] eqn:Ht; simpl in *.
                 --- subst t. split; [reflexivity|]. now apply nonempty_true.
                 --- discriminate Hne.
              ** simpl in Hne. discriminate.
           ++ now left.
        -- right. exists d, p. split; [now apply list_elem_of_further|].
           repeat split; try assumption.
           intros Hs. apply Hseen. now apply list_elem_of_further.
      * intros [Hin|(d & p & Hd & Hm & Hp & Hseen & Hstore & Hne)].
        -- left. destruct (PyStr.nonempty (parent_text_of pid));
             [apply elem_of_app; now left|exact Hin].
        -- apply elem_of_cons in Hd as [->|Hd].
           ++ left. rewrite (Hpid p Hm). simpl. rewrite Hstore. simpl.
              apply nonempty_true in Hne. rewrite Hne.
              apply elem_of_app. right. apply list_elem_of_here.
           ++ destruct (decide (MStr p = pid)) as [Heq|Hneq].
              ** left. rewrite <- Heq. simpl. rewrite Hstore. simpl.
                 apply nonempty_true in Hne. rewrite Hne.
                 apply elem_of_app. right. apply list_elem_of_here.
              ** right. exists d, p. repeat split; try assumption.
                 intros [Heq|Hs]%elem_of_cons; [now apply Hneq|now apply Hseen].
    + rewrite IH. clear IH. split.
      * intros [Hin|(d & p & Hd & Hrest)]; [now left|].
        right. exists d, p. split; [now apply list_elem_of_further|exact Hrest].
      * intros [Hin|(d & p & Hd & Hm & Hp & Hseen & Hstore & Hne)]; [now left|].
        apply elem_of_cons in Hd as [->|Hd].
        -- exfalso. assert (Heq : pid = MStr p).
           { unfold pid, meta_get_or. unfold meta_get in Hm. now rewrite Hm. }
           rewrite Heq in Hcond. simpl in Hcond.
           apply andb_false_iff in Hcond as [Hc|Hc].
           ++ apply Hp. destruct p; [reflexivity|discriminate].
           ++ apply negb_false_iff, bool_decide_eq_true in Hc. now apply Hseen.
        -- right. exists d, p. repeat split; assumption.
Qed.

(** A chunk whose parent id is empty, is already seen, or is the id of a
    chunk of the list adds nothing at the end of the list. *)
Lemma parent_scan_sibling (docs : list Document) (doc : Document) :
  forall (seen : list MetaVal) (parents : list string),
    truthy (meta_get_or doc "parent_id" "") = false \/
    meta_get_or doc "parent_id" "" ∈ seen \/
    (exists doc', doc' ∈ docs /\
       meta_get_or doc' "parent_id" "" = meta_get_or doc "parent_id" "") ->
    parent_scan (docs ++ [doc]) seen parents = parent_scan docs seen parents.
Proof.
  induction docs as [|d rest IH]; intros seen parents Hcase; simpl.
  - destruct Hcase as [Hf|[Hs|(d' & Hd' & _)]].
    + now rewrite Hf.
    + rewrite (bool_decide_eq_true_2 _ Hs). simpl.
      now rewrite andb_false_r.
    + inversion Hd'.
  - destruct (truthy (meta_get_or d "parent_id" "")
              && negb (bool_decide (meta_get_or d "parent_id" "" ∈ seen)))
      eqn:Hcond.
    + apply IH. destruct Hcase as [Hf|[Hs|(d' & Hd' & Heq)]].
      * now left.
      * right. left. now apply list_elem_of_further.
      * apply elem_of_cons in Hd' as [->|Hd'].
        -- right. left. rewrite <- Heq. apply list_elem_of_here.
        -- right. right. exists d'. split; assumption.
    + apply IH. destruct Hcase as [Hf|[Hs|(d' & Hd' & Heq)]].
      * now left.
      * right. now left.
      * apply elem_of_cons in Hd' as [->|Hd'].
        -- rewrite <- Heq.
           apply andb_false_iff in Hcond as [Hc|Hc]; [now left|].
           right. left. now apply negb_false_iff, bool_decide_eq_true in Hc.
        -- right. right. exists d'. split; assumption.
Qed.

Lemma parent_scan_length (docs : list Document) :
  forall (seen : list MetaVal) (parents : list string),
    length (parent_scan docs seen parents) <= length parents + length docs.
Proof.
  induction docs as [|doc rest IH]; intros seen parents; simpl; [lia|].
  destruct (truthy _ && negb _).
  - destruct (PyStr.nonempty _).
    + etransitivity; [apply IH|]. rewrite length_app. simpl. lia.
    + etransitivity; [apply IH|]. lia.
  - etransitivity; [apply IH|]. lia.
Qed.

(** The parent context holds exactly the texts, not empty, that the parent
    store has for the parent ids, not empty, of the chunks; there are no
    more texts than chunks; and a chunk whose parent id is that of an
    earlier chunk of the list adds nothing: the parent of several siblings
    is fetched once. *)
Theorem get_parent_context_once (docs : list Document) :
  (forall text,
     text ∈ get_parent_context docs <->
     exists doc pid,
       doc ∈ docs /\ meta_get doc "parent_id" = Some (MStr pid) /\
       pid <> "" /\ parent_store !! pid = Some text /\ text <> "") /\
  length (get_parent_context docs) <= length docs /\
  (forall doc doc',
     doc' ∈ docs ->
     meta_get_or doc' "parent_id" "" = meta_get_or doc "parent_id" "" ->
     get_parent_context (docs ++ [doc]) = get_parent_context docs).
Proof.
  unfold get_parent_context. split; [|split].
  - intros text. rewrite parent_scan_spec. split.
    + intros [H|(doc & pid & Hd & Hm & Hp & _ & Hs & Hne)]; [inversion H|].
      exists doc, pid. repeat split; assumption.
    + intros (doc & pid & Hd & Hm & Hp & Hs & Hne). right.
      exists doc, pid. repeat split; try assumption. intros H; inversion H.
  - apply (parent_scan_length docs [] []).
  - intros doc doc' Hd Heq. apply parent_scan_sibling. right. right.
    exists doc'. split; assumption.
Qed.

(** ** Retrieval as a whole *)

(** What every search result satisfies, every list that is fused
    satisfies. *)
Lemma search_query_Forall (P : list Document -> Prop) (q : string)
  (mf : option MetaFilter) (acc acc' : list (list Document)) (s s' : PState) :
  (forall q f w docs,
     fst (similarity_search q TOP_K f w) = Ok docs -> P docs) ->
  search_query q mf acc s = (Ok acc', s') ->
  Forall P acc -> Forall P acc'.
Proof.
  intros Hsearch Hrun Hacc.
  assert (Hs : forall f st docs st',
             search q TOP_K f st = (Ok docs, st') -> P docs).
  { intros f st docs st'. unfold search.
    specialize (Hsearch q f (world st)).
    destruct (similarity_search q TOP_K f (world st)) as [r w]; simpl in Hsearch.
    intros Heq; inversion Heq; subst. now apply Hsearch. }
  assert (Hgrow : forall docs, P docs -> Forall P (acc ++ [docs])).
  { intros docs Hd. apply Forall_app. split; [exact Hacc|]. now constructor. }
  revert Hrun. unfold search_query, try_except, bind, ret.
  destruct mf as [f|].
  - destruct (search q TOP_K (Some f) s) as [[docs|e] s1] eqn:H1.
    + destruct (Nat.ltb (length docs) 2).
      * destruct (search q TOP_K None s1) as [[docs'|e] s2] eqn:H2.
        -- intros Heq; inversion Heq; subst. eapply Hgrow, Hs, H2.
        -- destruct (search q TOP_K None s2) as [[docs'|e'] s3] eqn:H3;
             intros Heq; inversion Heq; subst; [eapply Hgrow, Hs, H3|exact Hacc].
      * intros Heq; inversion Heq; subst. eapply Hgrow, Hs, H1.
    + destruct (search q TOP_K None s1) as [[docs'|e'] s2] eqn:H2;
        intros Heq; inversion Heq; subst; [eapply Hgrow, Hs, H2|exact Hacc].
  - destruct (search q TOP_K None s) as [[docs|e] s1] eqn:H1.
    + intros Heq; inversion Heq; subst. eapply Hgrow, Hs, H1.
    + destruct (search q TOP_K None s1) as [[docs'|e'] s2] eqn:H2;
        intros Heq; inversion Heq; subst; [eapply Hgrow, Hs, H2|exact Hacc].
Qed.

Lemma search_all_Forall (P : list Document -> Prop) :
  (forall q f w docs,
     fst (similarity_search q TOP_K f w) = Ok docs -> P docs) ->
  forall (queries : list string) (mf : option MetaFilter)
    (acc acc' : list (list Document)) (s s' : PState),
    search_all queries mf acc s = (Ok acc', s') ->
    Forall P acc -> Forall P acc'.
Proof.
  intros Hsearch queries mf.
  induction queries as [|q qs IH]; intros acc acc' s s' Hrun Hacc; simpl in Hrun.
  - inversion Hrun; subst; exact Hacc.
  - unfold bind in Hrun.
    destruct (search_query q mf acc s) as [[acc1|e] s1] eqn:Hq; [|discriminate].
    eapply IH; [exact Hrun|].
    eapply search_query_Forall; eassumption.
Qed.

(** One list per query at most. *)
Lemma search_query_length (q : string) (mf : option MetaFilter)
  (acc acc' : list (list Document)) (s s' : PState) :
  search_query q mf acc s = (Ok acc', s') -> length acc' <= S (length acc).
Proof.
  unfold search_query, try_except, bind, ret.
  repeat match goal with
         | |- context [match ?m ?st with pair _ _ => _ end] =>
             destruct (m st) as [[?|?] ?]
         | |- context [match ?o with Some _ => _ | None => _ end] =>
             destruct o
         | |- context [if ?b then _ else _] => destruct b
         end;
    intros Heq; inversion Heq; subst; rewrite ?length_app; simpl; lia.
Qed.

Lemma search_all_length (queries : list string) (mf : option MetaFilter) :
  forall (acc acc' : list (list Document)) (s s' : PState),
    search_all queries mf acc s = (Ok acc', s') ->
    length acc' <= length acc + length queries.
Proof.
  induction queries as [|q qs IH]; intros acc acc' s s' Hrun; simpl in Hrun.
  - inversion Hrun; subst. simpl. lia.
  - unfold bind in Hrun.
    destruct (search_query q mf acc s) as [[acc1|e] s1] eqn:Hq; [|discriminate].
    apply IH in Hrun. apply search_query_length in Hq. simpl. lia.
Qed.

(** Provided the vector store, asked for [TOP_K] chunks, returns no more,
    [retrieve] always returns normally: a failed expansion, failed searches
    and a failed glossary lookup are all handled on the way.  It returns at
    most [TOP_K] chunks, the question in front of at most
    [MULTI_QUERY_COUNT] other queries, the filter built for the question,
    and the one chain it invokes is the query expansion. *)
Theorem retrieve_returns (question : string) (s : PState) :
  (forall q f w docs,
     fst (similarity_search q TOP_K f w) = Ok docs -> length docs <= TOP_K) ->
  exists retrieval s',
    retrieve question s = (Ok retrieval, s') /\
    length (child_docs retrieval) <= TOP_K /\
    head (r_queries_used retrieval) = Some question /\
    length (r_queries_used retrieval) <= 1 + MULTI_QUERY_COUNT /\
    metadata_filter retrieval = build_metadata_filter question /\
    invoked s' = invoked s ++ [MultiQueryChain question MULTI_QUERY_COUNT].
Proof.
  intros Hbound.
  assert (Hqueries : exists queries s0,
            generate_multi_queries question s = (Ok queries, s0) /\
            head queries = Some question /\
            length queries <= 1 + MULTI_QUERY_COUNT).
  { unfold generate_multi_queries, try_except, bind, ret.
    destruct (invoke _ s) as [[x|e] s0]; eexists _, _;
      (split; [reflexivity|]); (split; [reflexivity|]); simpl.
    - pose proof (firstn_le_length MULTI_QUERY_COUNT (response_lines x)). lia.
    - unfold MULTI_QUERY_COUNT. lia. }
  destruct Hqueries as (queries & s0 & Hq & Hhead & Hlen).
  destruct (search_all_run queries (build_metadata_filter question) [] s0)
    as (all_results & s2 & Hs & Hi2).
  assert (Hsmall : Forall (fun docs : list Document => length docs <= TOP_K)
                     all_results).
  { eapply (search_all_Forall (fun docs => length docs <= TOP_K));
      [|exact Hs|constructor].
    intros q f w docs Hd. eapply Hbound, Hd. }
  assert (Hfused : exists fused,
            reciprocal_rank_fusion all_results RRF_K = Ok fused).
  { destruct (rrf_accumulate_spec RRF_K all_results []) as (fused & Hrun & _).
    - reflexivity.
    - intros docs rank Hdocs Hrank. apply fits_small.
      rewrite Forall_forall in Hsmall. specialize (Hsmall docs Hdocs).
      unfold TOP_K, RRF_K in *. lia.
    - unfold reciprocal_rank_fusion. rewrite Hrun. eexists; reflexivity. }
  destruct Hfused as [fused Hfused].
  destruct (get_definitions_context_run question s2) as (defs & s3 & Hd & Hi3).
  assert (Hi1 : invoked s0 =
                invoked s ++ [MultiQueryChain question MULTI_QUERY_COUNT]).
  { destruct (generate_multi_queries_run question s) as (qs' & s0' & Hq' & Hi).
    rewrite Hq in Hq'. inversion Hq'; subst. exact Hi. }
  unfold retrieve, bind. rewrite Hq, Hs.
  destruct all_results as [|r rs].
  - unfold ret. rewrite Hd. eexists _, _. split; [reflexivity|]. simpl.
    split; [lia|]. split; [exact Hhead|]. split; [exact Hlen|].
    split; [reflexivity|]. congruence.
  - unfold lift_result, ret. rewrite Hfused. simpl. rewrite Hd.
    eexists _, _. split; [reflexivity|]. simpl.
    split; [apply firstn_le_length|]. split; [exact Hhead|].
    split; [exact Hlen|]. split; [reflexivity|]. congruence.
Qed.

(** ** Reciprocal rank fusion with a zero constant *)

(** [k] is a parameter of the function.  With [k = 0] the first chunk of
    the first list that is not empty has rank plus [k] zero, and the
    division raises; with empty lists only, nothing is divided. *)
Theorem reciprocal_rank_fusion_zero_k (result_lists : list (list Document)) :
  (Forall (fun docs => docs = []) result_lists ->
   reciprocal_rank_fusion result_lists 0 = Ok []) /\
  (Exists (fun docs => docs <> []) result_lists ->
   reciprocal_rank_fusion result_lists 0 = Raise "ZeroDivisionError").
Proof.
  split.
  - apply reciprocal_rank_fusion_no_hits.
  - intros Hex. unfold reciprocal_rank_fusion.
    assert (H : forall fused,
              rrf_accumulate result_lists 0 fused = Raise "ZeroDivisionError").
    { induction Hex as [docs rest Hne|docs rest Hex IH]; intros fused; simpl.
      - destruct docs as [|doc docs]; [congruence|]. reflexivity.
      - destruct docs as [|doc docs]; simpl; [apply IH|reflexivity]. }
    now rewrite H.
Qed.

(** ** The chunks of a document, field by field *)

Lemma carries_base_meta_base (doc_info : DocInfo) :
  carries_base doc_info (meta_base doc_info).
Proof. unfold carries_base, meta_base. repeat split; now simplify_map_eq. Qed.

Lemma carries_base_parent (doc_info : DocInfo) (base : gmap string MetaVal)
  (parent_id section page_range : string) :
  carries_base doc_info base ->
  carries_base doc_info (parent_meta base parent_id section page_range).
Proof.
  unfold carries_base, parent_meta.
  intros (H1 & H2 & H3 & H4 & H5 & H6 & H7 & H8).
  repeat split; now simplify_map_eq.
Qed.

Lemma carries_base_child (doc_info : DocInfo) (base : gmap string MetaVal)
  (child_id parent_id section page_range : string) (has_table : bool) :
  carries_base doc_info base ->
  carries_base doc_info
    (child_meta base child_id parent_id section page_range has_table).
Proof.
  unfold carries_base, child_meta.
  intros (H1 & H2 & H3 & H4 & H5 & H6 & H7 & H8).
  repeat split; now simplify_map_eq.
Qed.

Lemma make_children_fields (child_texts : list string)
  (base : gmap string MetaVal) (parent_id section page_range : string) :
  forall (children : list Chunk) (w : World),
  exists new w',
    make_children child_texts base parent_id section page_range children w
      = (Ok (children ++ new), w') /\
    map chunk_text new = child_texts /\
    Forall (fun c =>
              chunk_metadata c =
                child_meta base (chunk_id c) parent_id section page_range
                  (looks_like_table (chunk_text c))) new.
Proof.
  induction child_texts as [|t rest IH]; intros children w; simpl.
  - exists [], w. rewrite app_nil_r. repeat split. constructor.
  - unfold bind, fresh_id. destruct (uuid4 w) as [child_id w1].
    destruct (IH (children ++
                    [ {| chunk_id := child_id; chunk_text := t;
                         chunk_metadata :=
                           child_meta base child_id parent_id section page_range
                             (PyStr.contains "|" t && PyStr.contains "---" t) |} ])
                 w1) as (new & w' & Hrun & Htexts & Hnew).
    rewrite Hrun. eexists (_ :: new), w'. split; [now rewrite <- app_assoc|].
    split; [simpl; now rewrite Htexts|].
    constructor; [reflexivity|exact Hnew].
Qed.

Lemma make_parents_fields (parent_texts : list string)
  (base : gmap string MetaVal) :
  forall (parents children : list Chunk) (w : World),
  exists new_parents new_children w',
    make_parents parent_texts base parents children w
      = (Ok (parents ++ new_parents, children ++ new_children), w') /\
    map chunk_text new_parents = parent_texts /\
    map chunk_text new_children =
      concat (map (split_text child_splitter) parent_texts) /\
    Forall (parent_fields base) new_parents /\
    Forall (fun c => exists p, p ∈ new_parents /\ child_fields base p c)
           new_children.
Proof.
  induction parent_texts as [|t rest IH]; intros parents children w; simpl.
  - exists [], [], w. rewrite !app_nil_r. repeat split; constructor.
  - unfold bind at 1. unfold fresh_id at 1. destruct (uuid4 w) as [parent_id w1].
    unfold bind at 1.
    destruct (make_children_fields (split_text child_splitter t) base parent_id
                (detect_section_header t) (page_range_of t) children w1)
      as (new & w2 & Hrun & Htexts & Hnew).
    rewrite Hrun.
    set (parent := {| chunk_id := parent_id; chunk_text := t;
                      chunk_metadata :=
                        parent_meta base parent_id (detect_section_header t)
                          (page_range_of t) |}).
    destruct (IH (parents ++ [parent]) (children ++ new) w2)
      as (ps & cs & w' & Hrest & Hpt & Hct & Hps & Hcs).
    rewrite Hrest. exists (parent :: ps), (new ++ cs), w'.
    split; [now rewrite <- !app_assoc|].
    split; [simpl; now rewrite Hpt|].
    split; [rewrite map_app, Htexts, Hct; reflexivity|].
    split; [constructor; [reflexivity|exact Hps]|].
    apply Forall_app. split.
    + eapply Forall_impl; [exact Hnew|]. intros c Hc.
      exists parent. split; [apply list_elem_of_here|exact Hc].
    + eapply Forall_impl; [exact Hcs|]. intros c (p & Hp & Hc).
      exists p. split; [now apply list_elem_of_further|exact Hc].
Qed.

Lemma create_parent_child_chunks_fields (doc_info : DocInfo) (w : World) :
  exists parents children w',
    create_parent_child_chunks doc_info w = (Ok (parents, children), w') /\
    (if PyStr.blank (di_full_text doc_info)
     then parents = [] /\ children = [] /\ w' = w
     else
       map chunk_text parents =
         split_text parent_splitter (di_full_text doc_info) /\
       map chunk_text children =
         concat (map (split_text child_splitter)
                   (split_text parent_splitter (di_full_text doc_info)))) /\
    Forall (parent_fields (meta_base doc_info)) parents /\
    Forall (fun c => exists p, p ∈ parents /\
                               child_fields (meta_base doc_info) p c) children.
Proof.
  unfold create_parent_child_chunks.
  destruct (PyStr.blank (di_full_text doc_info)) eqn:Hb.
  - apply strip_empty_iff in Hb. rewrite Hb. simpl.
    exists [], [], w. repeat split; constructor.
  - assert (Hne : PyStr.nonempty (PyStr.strip (di_full_text doc_info)) = true).
    { apply nonempty_true. intros H. apply strip_empty_iff in H. congruence. }
    rewrite Hne. simpl.
    destruct (make_parents_fields
                (split_text parent_splitter (di_full_text doc_info))
                (meta_base doc_info) [] [] w)
      as (ps & cs & w' & Hrun & Hpt & Hct & Hps & Hcs).
    exists ps, cs, w'. split; [exact Hrun|].
    split; [split; assumption|]. split; assumption.
Qed.

(** Every piece of text becomes a chunk, in order: the parents are the
    pieces the parent splitter cuts the full text into, the children the
    pieces the child splitter cuts each parent into, parent after parent.
    A blank document gives no chunk and draws no id. *)
Theorem chunks_are_the_pieces (doc_info : DocInfo) (w : World) :
  exists parents children w',
    create_parent_child_chunks doc_info w = (Ok (parents, children), w') /\
    if PyStr.blank (di_full_text doc_info)
    then parents = [] /\ children = [] /\ w' = w
    else
      map chunk_text parents =
        split_text parent_splitter (di_full_text doc_info) /\
      map chunk_text children =
        concat (map (fun parent => split_text child_splitter (chunk_text parent))
                  parents).
Proof.
  destruct (create_parent_child_chunks_fields doc_info w)
    as (ps & cs & w' & Hrun & Htexts & _).
  exists ps, cs, w'. split; [exact Hrun|].
  destruct (PyStr.blank (di_full_text doc_info)); [exact Htexts|].
  destruct Htexts as [Hpt Hct]. split; [exact Hpt|].
  rewrite Hct, <- Hpt, map_map. reflexivity.
Qed.

(** Every chunk carries the document's metadata, with "General", [True]
    and "ACTIVE" for an audience, a latest flag and a status the document
    does not give: the fields the retriever filters on are always there.
    A parent is of type "parent" and names itself as parent; a child is of
    type "child", names itself as child, is flagged as a table when its
    text holds a bar and three dashes, and has the section and the page
    range of its parent, which are read off the parent's text. *)
Theorem chunks_carry_metadata (doc_info : DocInfo) (w : World) :
  exists parents children w',
    create_parent_child_chunks doc_info w = (Ok (parents, children), w') /\
    (forall c, c ∈ parents ++ children ->
       carries_base doc_info (chunk_metadata c)) /\
    (forall p, p ∈ parents ->
       chunk_metadata p !! "chunk_type" = Some (MStr "parent") /\
       chunk_metadata p !! "parent_id" = Some (MStr (chunk_id p)) /\
       chunk_metadata p !! "section" =
         Some (MStr (detect_section_header (chunk_text p))) /\
       chunk_metadata p !! "pages" = Some (MStr (page_range_of (chunk_text p))) /\
       chunk_metadata p !! "child_id" = None /\
       chunk_metadata p !! "has_table" = None) /\
    (forall c, c ∈ children ->
       chunk_metadata c !! "chunk_type" = Some (MStr "child") /\
       chunk_metadata c !! "child_id" = Some (MStr (chunk_id c)) /\
       chunk_metadata c !! "has_table" =
         Some (MBool (PyStr.contains "|" (chunk_text c)
                      && PyStr.contains "---" (chunk_text c))) /\
       exists p, p ∈ parents /\
         chunk_metadata c !! "parent_id" = Some (MStr (chunk_id p)) /\
         chunk_metadata c !! "section" = chunk_metadata p !! "section" /\
         chunk_metadata c !! "pages" = chunk_metadata p !! "pages").
Proof.
  destruct (create_parent_child_chunks_fields doc_info w)
    as (ps & cs & w' & Hrun & _ & Hps & Hcs).
  rewrite Forall_forall in Hps. rewrite Forall_forall in Hcs.
  exists ps, cs, w'. split; [exact Hrun|]. split; [|split].
  - intros c [Hc|Hc]%elem_of_app.
    + rewrite (Hps c Hc). apply carries_base_parent, carries_base_meta_base.
    + destruct (Hcs c Hc) as (p & _ & ->).
      apply carries_base_child, carries_base_meta_base.
  - intros p Hp. rewrite (Hps p Hp). unfold parent_meta.
    assert (Hb := carries_base_meta_base doc_info).
    assert (H1 : meta_base doc_info !! "child_id" = None)
      by (unfold meta_base; now simplify_map_eq).
    assert (H2 : meta_base doc_info !! "has_table" = None)
      by (unfold meta_base; now simplify_map_eq).
    repeat split; now simplify_map_eq.
  - intros c Hc. destruct (Hcs c Hc) as (p & Hp & Hfields).
    rewrite Hfields. unfold child_meta.
    split; [now simplify_map_eq|]. split; [now simplify_map_eq|].
    split; [now simplify_map_eq|].
    exists p. split; [exact Hp|]. rewrite (Hps p Hp). unfold parent_meta.
    repeat split; now simplify_map_eq.
Qed.

(** ** All documents, and the parent store *)

Lemma linked_app (parents parents' children children' : list Chunk) :
  linked parents children -> linked parents' children' ->
  linked (parents ++ parents') (children ++ children').
Proof.
  intros H H' child [Hc|Hc]%elem_of_app.
  - destruct (H child Hc) as (p & Hp & Hrest). exists p.
    split; [apply elem_of_app; now left|exact Hrest].
  - destruct (H' child Hc) as (p & Hp & Hrest). exists p.
    split; [apply elem_of_app; now right|exact Hrest].
Qed.

Lemma chunk_documents_run (all_documents : list DocInfo) :
  forall (all_parents all_children : list Chunk) (w : World),
  exists new_parents new_children w',
    chunk_documents all_documents all_parents all_children w
      = (Ok (all_parents ++ new_parents, all_children ++ new_children), w') /\
    linked new_parents new_children /\
    map chunk_text new_parents = concat (map parent_pieces all_documents) /\
    map chunk_text new_children =
      concat (map (fun p => split_text child_splitter (chunk_text p))
                new_parents).
Proof.
  induction all_documents as [|doc_info rest IH];
    intros all_parents all_children w; simpl.
  - exists [], [], w. rewrite !app_nil_r. repeat split.
    intros child Hc. inversion Hc.
  - unfold bind.
    destruct (create_parent_child_chunks_run doc_info w)
      as (ps & cs & w1 & Hrun & Hl & _).
    destruct (create_parent_child_chunks_fields doc_info w)
      as (ps' & cs' & w1' & Hrun' & Htexts & _).
    rewrite Hrun in Hrun'. inversion Hrun'; subst ps' cs' w1'. clear Hrun'.
    rewrite Hrun. simpl.
    destruct (IH (all_parents ++ ps) (all_children ++ cs) w1)
      as (ps2 & cs2 & w2 & Hrest & Hl2 & Hpt & Hct).
    rewrite Hrest. exists (ps ++ ps2), (cs ++ cs2), w2.
    split; [now rewrite <- !app_assoc|].
    split; [now apply linked_app|].
    assert (Hdoc : map chunk_text ps = parent_pieces doc_info /\
                   map chunk_text cs =
                     concat (map (fun p => split_text child_splitter (chunk_text p))
                               ps)).
    { unfold parent_pieces.
      destruct (PyStr.blank (di_full_text doc_info)).
      - destruct Htexts as (-> & -> & _). split; reflexivity.
      - destruct Htexts as [H1 H2]. split; [exact H1|].
        rewrite H2, <- H1, map_map. reflexivity. }
    destruct Hdoc as [Hd1 Hd2].
    split; [now rewrite map_app, Hd1, Hpt|].
    now rewrite !map_app, concat_app, Hd2, Hct.
Qed.

Lemma parent_store_fold_fresh (ps : list Chunk) :
  forall (store : gmap string string) (id : string),
    id ∉ map chunk_id ps ->
    fold_left (fun store p => <[chunk_id p := chunk_text p]> store) ps store !! id
      = store !! id.
Proof.
  induction ps as [|q rest IH]; intros store id Hid; simpl; [reflexivity|].
  rewrite IH.
  - apply lookup_insert_ne. intros Heq. apply Hid. simpl. rewrite Heq.
    apply list_elem_of_here.
  - intros H. apply Hid. simpl. now apply list_elem_of_further.
Qed.

Lemma parent_store_fold_lookup (ps : list Chunk) :
  forall (store : gmap string string) (p : Chunk),
    NoDup (map chunk_id ps) -> p ∈ ps ->
    fold_left (fun store p => <[chunk_id p := chunk_text p]> store) ps store
      !! chunk_id p = Some (chunk_text p).
Proof.
  induction ps as [|q rest IH]; intros store p Hnd Hp; [inversion Hp|].
  simpl in *. apply NoDup_cons in Hnd as [Hq Hrest].
  apply elem_of_cons in Hp as [->|Hp].
  - rewrite parent_store_fold_fresh by exact Hq. apply lookup_insert_eq.
  - now apply IH.
Qed.

Lemma parent_store_fold_dom (ps : list Chunk) :
  forall (store : gmap string string) (id : string),
    is_Some (fold_left (fun store p => <[chunk_id p := chunk_text p]> store)
               ps store !! id) <->
    id ∈ map chunk_id ps \/ is_Some (store !! id).
Proof.
  induction ps as [|q rest IH]; intros store id; simpl.
  - split; [now right|]. intros [H|H]; [inversion H|exact H].
  - rewrite IH, elem_of_cons. split.
    + intros [H|H]; [now left; right|].
      destruct (decide (id = chunk_id q)) as [->|Hne]; [now left; left|].
      rewrite lookup_insert_ne in H by congruence. now right.
    + intros [[->|H]|H].
      * right. rewrite lookup_insert_eq. eexists; reflexivity.
      * now left.
      * right. destruct (decide (id = chunk_id q)) as [->|Hne].
        -- rewrite lookup_insert_eq. eexists; reflexivity.
        -- now rewrite lookup_insert_ne by congruence.
Qed.

Lemma process_all_documents_run (all_documents : list DocInfo) (w : World)
  (all_parents all_children : list Chunk) (w' : World) :
  process_all_documents all_documents w = (Ok (all_parents, all_children), w') ->
  exists w1,
    chunk_documents all_documents [] [] w = (Ok (all_parents, all_children), w1) /\
    save_parent_store (parent_store_of all_parents) w1 = (Ok tt, w').
Proof.
  unfold process_all_documents, bind, ret.
  destruct (chunk_documents all_documents [] [] w) as [[chunks|e] w1];
    [|discriminate].
  destruct (save_parent_store (parent_store_of (fst chunks)) w1)
    as [[[]|e] w2] eqn:Hsave; [|discriminate].
  intros H; inversion H; subst. exists w1. split; [reflexivity|exact Hsave].
Qed.

(** The documents are chunked one after the other: the parents are the
    pieces of the documents' texts, document after document, a blank
    document giving none, and the children are the pieces of the parents.
    The store that is saved is the one built from these parents, and its
    keys are the parents' ids. *)
Theorem process_all_documents_in_order (all_documents : list DocInfo)
  (w : World) (all_parents all_children : list Chunk) (w' : World) :
  process_all_documents all_documents w = (Ok (all_parents, all_children), w') ->
  map chunk_text all_parents = concat (map parent_pieces all_documents) /\
  map chunk_text all_children =
    concat (map (fun p => split_text child_splitter (chunk_text p)) all_parents) /\
  (exists w1, save_parent_store (parent_store_of all_parents) w1 = (Ok tt, w')) /\
  (forall id, is_Some (parent_store_of all_parents !! id) <->
              id ∈ map chunk_id all_parents).
Proof.
  intros Hrun.
  destruct (process_all_documents_run _ _ _ _ _ Hrun) as (w1 & Hchunks & Hsave).
  destruct (chunk_documents_run all_documents [] [] w)
    as (ps & cs & w2 & Hrun2 & _ & Hpt & Hct).
  rewrite Hchunks in Hrun2. simpl in Hrun2. inversion Hrun2; subst ps cs w2.
  split; [exact Hpt|]. split; [exact Hct|]. split; [now exists w1|].
  intros id. unfold parent_store_of. rewrite parent_store_fold_dom.
  split; [intros [H|[x H]]; [exact H|]|now left].
  rewrite lookup_empty in H. discriminate.
Qed.

(** Looking up the parent a child names gives the text the child was cut
    from, provided the ids drawn for the parents are distinct. *)
Theorem parent_store_round_trip (all_documents : list DocInfo) (w : World)
  (all_parents all_children : list Chunk) (w' : World) :
  process_all_documents all_documents w = (Ok (all_parents, all_children), w') ->
  NoDup (map chunk_id all_parents) ->
  forall child, child ∈ all_children ->
    exists parent_id parent_text,
      chunk_metadata child !! "parent_id" = Some (MStr parent_id) /\
      parent_store_of all_parents !! parent_id = Some parent_text /\
      chunk_text child ∈ split_text child_splitter parent_text.
Proof.
  intros Hrun Hnd child Hc.
  destruct (process_all_documents_run _ _ _ _ _ Hrun) as (w1 & Hchunks & _).
  destruct (chunk_documents_run all_documents [] [] w)
    as (ps & cs & w2 & Hrun2 & Hl & _).
  rewrite Hchunks in Hrun2. simpl in Hrun2. inversion Hrun2; subst ps cs w2.
  destruct (Hl child Hc) as (parent & Hp & Hid & Hpiece).
  exists (chunk_id parent), (chunk_text parent).
  split; [exact Hid|]. split; [|exact Hpiece].
  now apply parent_store_fold_lookup.
Qed.

(** From the chunker to the retriever: when the retriever's parent store is
    the store saved, and the ids drawn for the parents are distinct, the
    parent context of a retrieved child is the text of the parent the child
    was cut from (nothing when that text or the parent's id is empty). *)
Theorem parent_context_of_child (all_documents : list DocInfo) (w : World)
  (all_parents all_children : list Chunk) (w' : World) :
  process_all_documents all_documents w = (Ok (all_parents, all_children), w') ->
  NoDup (map chunk_id all_parents) ->
  parent_store = parent_store_of all_parents ->
  forall child doc,
    child ∈ all_children -> metadata doc = chunk_metadata child ->
    exists parent,
      parent ∈ all_parents /\
      chunk_text child ∈ split_text child_splitter (chunk_text parent) /\
      get_parent_context [doc] =
        if PyStr.nonempty (chunk_id parent) && PyStr.nonempty (chunk_text parent)
        then [chunk_text parent] else [].
Proof.
  intros Hrun Hnd Hstore child doc Hc Hmeta.
  destruct (process_all_documents_run _ _ _ _ _ Hrun) as (w1 & Hchunks & _).
  destruct (chunk_documents_run all_documents [] [] w)
    as (ps & cs & w2 & Hrun2 & Hl & _).
  rewrite Hchunks in Hrun2. simpl in Hrun2. inversion Hrun2; subst ps cs w2.
  destruct (Hl child Hc) as (parent & Hp & Hid & Hpiece).
  exists parent. split; [exact Hp|]. split; [exact Hpiece|].
  unfold get_parent_context. simpl.
  unfold meta_get_or. rewrite Hmeta, Hid. simpl.
  rewrite andb_true_r.
  destruct (PyStr.nonempty (chunk_id parent)); simpl; [|reflexivity].
  rewrite Hstore. unfold parent_store_of.
  rewrite (parent_store_fold_lookup _ _ _ Hnd Hp). simpl.
  now destruct (PyStr.nonempty (chunk_text parent)).
Qed.

(** ** Characters of a string *)

Lemma has_char_app (c : ascii) (a b : string) :
  PyStr.has_char c (a +:+ b) = PyStr.has_char c a || PyStr.has_char c b.
Proof.
  induction a as [|x a IH]; [reflexivity|].
  rewrite str_app_cons. simpl. rewrite IH. now rewrite orb_assoc.
Qed.

Lemma has_char_replace (c old : ascii) (new s : string) :
  PyStr.has_char c new = false ->
  (c = old \/ PyStr.has_char c s = false) ->
  PyStr.has_char c (PyStr.replace_char old new s) = false.
Proof.
  intros Hnew Hs. induction s as [|x s IH]; simpl; [reflexivity|].
  destruct (Ascii.eqb_spec x old) as [->|Hne].
  - rewrite has_char_app, Hnew. simpl. apply IH.
    destruct Hs as [H|H]; [now left|]. simpl in H.
    apply orb_false_iff in H as [_ H]. now right.
  - simpl. destruct Hs as [->|H].
    + destruct (Ascii.eqb_spec x old) as [|_]; [contradiction|]. simpl.
      apply IH. now left.
    + simpl in H. apply orb_false_iff in H as [Hx H]. rewrite Hx. simpl.
      apply IH. now right.
Qed.

Lemma has_char_lstrip (c : ascii) (s : string) :
  PyStr.has_char c s = false -> PyStr.has_char c (PyStr.lstrip s) = false.
Proof.
  intros H. destruct (lstrip_suffix s) as [pre Hpre].
  rewrite Hpre, has_char_app in H. now apply orb_false_iff in H as [_ H].
Qed.

Lemma has_char_rstrip (c : ascii) (s : string) :
  PyStr.has_char c s = false -> PyStr.has_char c (PyStr.rstrip s) = false.
Proof.
  intros H. destruct (rstrip_prefix s) as [post Hpost].
  rewrite Hpost, has_char_app in H. now apply orb_false_iff in H as [H _].
Qed.

Lemma has_char_strip (c : ascii) (s : string) :
  PyStr.has_char c s = false -> PyStr.has_char c (PyStr.strip s) = false.
Proof. intros H. now apply has_char_rstrip, has_char_lstrip. Qed.

Lemma has_char_join (c : ascii) (sep : string) (parts : list string) :
  PyStr.has_char c sep = false ->
  Forall (fun p => PyStr.has_char c p = false) parts ->
  PyStr.has_char c (PyStr.join sep parts) = false.
Proof.
  intros Hsep. induction 1 as [|p ps Hp Hps IH]; [reflexivity|].
  destruct ps as [|q qs]; [exact Hp|].
  change (PyStr.join sep (p :: q :: qs))
    with (p +:+ sep +:+ PyStr.join sep (q :: qs)).
  now rewrite !has_char_app, Hp, Hsep, IH.
Qed.

(** ** Splitting and joining lines *)

Lemma split_no_sep (sep : ascii) (s : string) :
  PyStr.has_char sep s = false -> PyStr.split sep s = [s].
Proof.
  induction s as [|x s IH]; simpl; [reflexivity|].
  intros [Hx H]%orb_false_iff. rewrite Hx, (IH H). reflexivity.
Qed.

Lemma split_app_sep (sep : ascii) (a b : string) :
  PyStr.has_char sep a = false ->
  PyStr.split sep (a +:+ String sep b) = a :: PyStr.split sep b.
Proof.
  induction a as [|x a IH]; intros H.
  - rewrite str_app_nil_l. simpl. now rewrite Ascii.eqb_refl.
  - simpl in H. apply orb_false_iff in H as [Hx H].
    rewrite str_app_cons. simpl. rewrite Hx, (IH H). reflexivity.
Qed.

(** Lines that hold no line feed are got back from their join. *)
Lemma split_join (sep : ascii) (parts : list string) :
  parts <> [] ->
  Forall (fun p => PyStr.has_char sep p = false) parts ->
  PyStr.split sep (PyStr.join (String sep "") parts) = parts.
Proof.
  intros Hne Hall. induction Hall as [|p ps Hp Hps IH]; [congruence|].
  destruct ps as [|q qs]; [now apply split_no_sep|].
  change (PyStr.join (String sep "") (p :: q :: qs))
    with (p +:+ String sep "" +:+ PyStr.join (String sep "") (q :: qs)).
  rewrite str_app_cons, str_app_nil_l, split_app_sep by exact Hp.
  f_equal. apply IH. discriminate.
Qed.

(** ** Bars and their backslashes *)

Lemma count_bars_escaped_le (s : string) :
  PyStr.count_bars true s <= PyStr.count_bars false s.
Proof. destruct s as [|c r]; simpl; [lia|]. destruct (Ascii.eqb c "|"); simpl; lia. Qed.

Lemma count_bars_zero (e : bool) (s : string) :
  PyStr.count_bars false s = 0 -> PyStr.count_bars e s = 0.
Proof.
  destruct e; [|exact id]. pose proof (count_bars_escaped_le s). lia.
Qed.

(** After a space no bar is escaped. *)
Lemma count_bars_app_space (e : bool) (a b : string) :
  PyStr.count_bars e (a +:+ String " " b) =
    PyStr.count_bars e a + PyStr.count_bars false b.
Proof.
  revert e. induction a as [|x a IH]; intros e.
  - rewrite str_app_nil_l. reflexivity.
  - rewrite str_app_cons. simpl. rewrite IH. lia.
Qed.

Lemma count_bars_replace (e : bool) (s : string) :
  PyStr.count_bars e (PyStr.replace_char "|" "\|" s) = 0.
Proof.
  revert e. induction s as [|x s IH]; intros e; simpl; [reflexivity|].
  destruct (Ascii.eqb_spec x "|") as [->|Hne].
  - rewrite !str_app_cons, str_app_nil_l. simpl. apply IH.
  - simpl. destruct (Ascii.eqb_spec x "|") as [|_]; [contradiction|]. simpl.
    apply IH.
Qed.

(** Behind characters that are neither bars nor backslashes no bar is
    escaped. *)
Lemma count_bars_plain_app (e : bool) (w r : string) :
  PyStr.has_char "|" w = false -> PyStr.has_char "\" w = false ->
  0 < String.length w ->
  PyStr.count_bars e (w +:+ r) = PyStr.count_bars false r.
Proof.
  revert e. induction w as [|x w IH]; intros e Hbar Hback Hlen;
    [simpl in Hlen; lia|].
  simpl in Hbar, Hback.
  apply orb_false_iff in Hbar as [Hx Hbar].
  apply orb_false_iff in Hback as [Hx' Hback].
  rewrite str_app_cons.
  change (PyStr.count_bars e (String x (w +:+ r)))
    with ((if Ascii.eqb x "|" && negb e then 1 else 0)
          + PyStr.count_bars (Ascii.eqb x "\") (w +:+ r)).
  rewrite Hx, Hx'. simpl. destruct w as [|y w]; [reflexivity|].
  apply IH; [assumption|assumption|simpl; lia].
Qed.

Lemma count_bars_lstrip (s : string) :
  PyStr.count_bars false s = 0 -> PyStr.count_bars false (PyStr.lstrip s) = 0.
Proof.
  induction s as [s IH] using string_length_ind. rewrite lstrip_eq.
  destruct (PyStr.white_prefix s) as [t|] eqn:Hw; [|exact id].
  pose proof (white_prefix_shorter _ _ Hw) as Hlen.
  apply white_prefix_spec in Hw as (w & -> & Hpos & Hbar & Hback & _).
  rewrite count_bars_plain_app by assumption. now apply IH.
Qed.

Lemma count_bars_rstrip (e : bool) (s : string) :
  PyStr.count_bars e s = 0 -> PyStr.count_bars e (PyStr.rstrip s) = 0.
Proof.
  revert e. induction s as [|x s IH]; intros e; [reflexivity|].
  intros H. rewrite rstrip_cons.
  destruct (PyStr.blank (String x s)); [reflexivity|].
  change (PyStr.count_bars e (String x s))
    with ((if Ascii.eqb x "|" && negb e then 1 else 0)
          + PyStr.count_bars (Ascii.eqb x "\") s) in H.
  change (PyStr.count_bars e (String x (PyStr.rstrip s)))
    with ((if Ascii.eqb x "|" && negb e then 1 else 0)
          + PyStr.count_bars (Ascii.eqb x "\") (PyStr.rstrip s)).
  assert (H2 : PyStr.count_bars (Ascii.eqb x "\") s = 0) by lia.
  rewrite (IH _ H2). lia.
Qed.

(** ** Cleaned cells *)

(** A cleaned cell holds no line feed, is trimmed, and each of its bars
    has a backslash in front. *)
Lemma clean_tidy (cell : option string) :
  PyStr.has_char NL (clean cell) = false /\
  PyStr.strip (clean cell) = clean cell /\
  PyStr.count_bars false (clean cell) = 0.
Proof.
  destruct cell as [s|]; [|repeat split]. unfold clean. split; [|split].
  - apply has_char_strip, has_char_replace; [reflexivity|]. right.
    apply has_char_replace; [reflexivity|]. now left.
  - apply strip_idem.
  - unfold PyStr.strip. apply count_bars_rstrip, count_bars_lstrip,
      count_bars_replace.
Qed.

Lemma fit_row_length (num_cols : nat) (cells : list string) :
  length (fit_row num_cols cells) = num_cols.
Proof.
  unfold fit_row. rewrite length_take, length_app, repeat_length. lia.
Qed.

Lemma fit_row_tidy (num_cols : nat) (row : list (option string)) :
  Forall (fun c => PyStr.has_char NL c = false /\ PyStr.count_bars false c = 0)
         (fit_row num_cols (map clean row)).
Proof.
  unfold fit_row. apply Forall_take, Forall_app. split.
  - apply Forall_forall. intros c Hc.
    apply list_elem_of_In, in_map_iff in Hc as (cell & <- & _).
    destruct (clean_tidy cell) as (H1 & _ & H2). split; assumption.
  - apply Forall_forall. intros c Hc.
    apply list_elem_of_In, repeat_spec in Hc. subst c. split; reflexivity.
Qed.

(** ** Rows of a Markdown table *)

Lemma md_row_no_NL (cells : list string) :
  Forall (fun c => PyStr.has_char NL c = false) cells ->
  PyStr.has_char NL (md_row cells) = false.
Proof.
  intros H. unfold md_row. rewrite !has_char_app.
  rewrite (has_char_join NL " | " cells eq_refl H). reflexivity.
Qed.

Lemma md_cells_bars (cells : list string) :
  Forall (fun c => PyStr.count_bars false c = 0) cells ->
  PyStr.count_bars false (PyStr.join " | " cells +:+ " |") =
    Nat.max 1 (length cells).
Proof.
  induction 1 as [|c cs Hc Hcs IH]; [reflexivity|].
  destruct cs as [|d ds].
  - simpl PyStr.join. change (c +:+ " |") with (c +:+ String " " "|").
    rewrite count_bars_app_space, Hc. reflexivity.
  - change (PyStr.join " | " (c :: d :: ds))
      with (c +:+ " | " +:+ PyStr.join " | " (d :: ds)).
    rewrite !str_app_assoc.
    change (" | " +:+ PyStr.join " | " (d :: ds) +:+ " |")
      with (String " " (String "|" (String " "
              (PyStr.join " | " (d :: ds) +:+ " |")))).
    rewrite count_bars_app_space, Hc.
    change (PyStr.count_bars false
              (String "|" (String " " (PyStr.join " | " (d :: ds) +:+ " |"))))
      with (1 + PyStr.count_bars false (PyStr.join " | " (d :: ds) +:+ " |")).
    rewrite IH. simpl length. lia.
Qed.

Lemma md_row_bars (cells : list string) :
  Forall (fun c => PyStr.count_bars false c = 0) cells ->
  PyStr.count_bars false (md_row cells) = 1 + Nat.max 1 (length cells).
Proof.
  intros H. unfold md_row.
  change ("| " +:+ PyStr.join " | " cells +:+ " |")
    with (String "|" (String " " (PyStr.join " | " cells +:+ " |"))).
  change (PyStr.count_bars false
            (String "|" (String " " (PyStr.join " | " cells +:+ " |"))))
    with (1 + PyStr.count_bars false (PyStr.join " | " cells +:+ " |")).
  now rewrite md_cells_bars.
Qed.

(** ** The Markdown of a table *)

Lemma table_header_run (table_data : list (list (option string))) :
  2 <= length table_data ->
  exists headers body,
    table_header table_data = Some (headers, body) /\
    Forall (fun c => PyStr.has_char NL c = false /\ PyStr.count_bars false c = 0)
           headers /\
    length (tl body) +
      (if forallb (fun h => String.eqb h "") (map clean (hd [] table_data))
       then 2 else 1) = length table_data /\
    (exists row, row ∈ table_data /\ headers = map clean row).
Proof.
  intros Hlen. unfold table_header.
  assert (Htidy : forall row,
            Forall (fun c => PyStr.has_char NL c = false /\
                             PyStr.count_bars false c = 0) (map clean row)).
  { intros row. apply Forall_forall. intros c Hc.
    apply list_elem_of_In, in_map_iff in Hc as (cell & <- & _).
    destruct (clean_tidy cell) as (H1 & _ & H2). split; assumption. }
  destruct table_data as [|row0 [|row1 rest]]; simpl in Hlen; try lia.
  simpl hd. destruct (forallb _ (map clean row0)).
  - exists (map clean row1), (row1 :: rest). split; [reflexivity|].
    split; [apply Htidy|]. split; [simpl; lia|].
    exists row1. split; [|reflexivity].
    apply list_elem_of_further, list_elem_of_here.
  - exists (map clean row0), (row0 :: row1 :: rest). split; [reflexivity|].
    split; [apply Htidy|]. split; [simpl; lia|].
    exists row0. split; [apply list_elem_of_here|reflexivity].
Qed.

Lemma repeat_lookup {A : Type} (x : A) (n i : nat) :
  i < n -> repeat x n !! i = Some x.
Proof.
  revert i. induction n as [|n IH]; intros [|i] H; simpl; try lia;
    [reflexivity|]. apply IH. lia.
Qed.

(** A fitted row holds the cells it was given, in their places, and empty
    cells behind them. *)
Lemma fit_row_lookup (num_cols : nat) (cells : list string) (i : nat) :
  i < num_cols ->
  fit_row num_cols cells !! i = Some (default "" (cells !! i)).
Proof.
  intros Hi. unfold fit_row. rewrite lookup_take_lt by exact Hi.
  destruct (cells !! i) as [c|] eqn:Hc.
  - now rewrite (lookup_app_l_Some _ _ _ _ Hc).
  - apply lookup_ge_None in Hc. rewrite lookup_app_r by exact Hc.
    simpl. apply repeat_lookup. lia.
Qed.

(** The lines of a table with the header cells [headers] and the data rows
    [data]. *)
Lemma md_lines_split (headers : list string)
  (data : list (list (option string))) :
  Forall (fun c => PyStr.has_char NL c = false /\ PyStr.count_bars false c = 0)
         headers ->
  let rows := map (fun row => fit_row (length headers) (map clean row)) data in
  let md :=
    PyStr.join LF
      ([md_row headers; md_row (repeat "---" (length headers))]
       ++ map (fun row => md_row (fit_row (length headers) (map clean row)))
            data) in
  md <> "" /\
  PyStr.split NL md =
    md_row headers :: md_row (repeat "---" (length headers)) :: map md_row rows /\
  Forall (fun line => PyStr.count_bars false line = 1 + Nat.max 1 (length headers))
         (PyStr.split NL md).
Proof.
  intros Hh rows md.
  assert (Hlines :
            [md_row headers; md_row (repeat "---" (length headers))]
            ++ map (fun row => md_row (fit_row (length headers) (map clean row)))
                 data
            = md_row headers :: md_row (repeat "---" (length headers))
              :: map md_row rows).
  { unfold rows. now rewrite map_map. }
  unfold md. rewrite Hlines. clear Hlines md.
  assert (Hsep : Forall (fun c => PyStr.has_char NL c = false /\
                                  PyStr.count_bars false c = 0)
                   (repeat "---" (length headers))).
  { apply Forall_forall. intros c Hc.
    apply list_elem_of_In, repeat_spec in Hc. subst c. split; reflexivity. }
  assert (Hrow : Forall (fun row =>
                           length row = length headers /\
                           Forall (fun c => PyStr.has_char NL c = false /\
                                            PyStr.count_bars false c = 0) row)
                   rows).
  { unfold rows. apply Forall_forall. intros row Hr.
    apply list_elem_of_In, in_map_iff in Hr as (r & <- & _).
    split; [apply fit_row_length|apply fit_row_tidy]. }
  assert (Hno : forall cells,
            Forall (fun c => PyStr.has_char NL c = false /\
                             PyStr.count_bars false c = 0) cells ->
            PyStr.has_char NL (md_row cells) = false /\
            PyStr.count_bars false (md_row cells) = 1 + Nat.max 1 (length cells)).
  { intros cells Hc. split.
    - apply md_row_no_NL. eapply Forall_impl; [exact Hc|]. now intros c [H _].
    - apply md_row_bars. eapply Forall_impl; [exact Hc|]. now intros c [_ H]. }
  assert (Hsplit :
            PyStr.split NL
              (PyStr.join LF
                 (md_row headers :: md_row (repeat "---" (length headers))
                  :: map md_row rows))
            = md_row headers :: md_row (repeat "---" (length headers))
              :: map md_row rows).
  { apply (split_join NL); [discriminate|].
    constructor; [apply Hno, Hh|]. constructor; [apply Hno, Hsep|].
    apply Forall_forall. intros line Hl.
    apply list_elem_of_In, in_map_iff in Hl as (row & <- & Hr).
    rewrite Forall_forall in Hrow.
    apply Hno. apply list_elem_of_In in Hr. now destruct (Hrow row Hr). }
  split.
  { intros Hempty. rewrite Hempty in Hsplit. discriminate Hsplit. }
  split; [exact Hsplit|].
  rewrite Hsplit. constructor; [apply Hno, Hh|]. constructor.
  { destruct (Hno _ Hsep) as [_ ->]. now rewrite repeat_length. }
  apply Forall_forall. intros line Hl.
  apply list_elem_of_In, in_map_iff in Hl as (row & <- & Hr).
  rewrite Forall_forall in Hrow. apply list_elem_of_In in Hr.
  destruct (Hrow row Hr) as [Hlen' Htidy].
  destruct (Hno _ Htidy) as [_ ->]. now rewrite Hlen'.
Qed.

(** A table of fewer than two rows gives the empty string, and no other
    table does.  For any other table the header is the first row, or the
    second when the cells of the first all clean to the empty string, and
    the data rows are the rows after the header.  The Markdown, cut at the
    line feeds, is the line of the cleaned header cells, the separator line
    and one line per data row, in order: no cell breaks a line.  The line
    of a data row holds as many cells as the header: its own cleaned
    cells in their places, cut to the header's count or followed by empty
    cells.  In every line the bars with no backslash in front are the
    delimiters, one more than there are columns. *)
Theorem table_to_markdown_lines (table_data : list (list (option string))) :
  if Nat.ltb (length table_data) 2 then table_to_markdown table_data = ""
  else
    let first := map clean (hd [] table_data) in
    let skip := forallb (fun h => String.eqb h "") first in
    let headers := if skip then map clean (nth 1 table_data []) else first in
    let data := if skip then skipn 2 table_data else skipn 1 table_data in
    let rows := map (fun row => fit_row (length headers) (map clean row)) data in
    table_to_markdown table_data <> "" /\
    PyStr.split NL (table_to_markdown table_data) =
      md_row headers :: md_row (repeat "---" (length headers))
      :: map md_row rows /\
    Forall2 (fun row cells =>
               length cells = length headers /\
               forall i, i < length headers ->
                 cells !! i = Some (default "" (map clean row !! i)))
            data rows /\
    Forall (fun line =>
              PyStr.count_bars false line = 1 + Nat.max 1 (length headers))
           (PyStr.split NL (table_to_markdown table_data)).
Proof.
  unfold table_to_markdown.
  destruct (Nat.ltb (length table_data) 2) eqn:Hlen; [reflexivity|].
  apply Nat.ltb_ge in Hlen. cbv zeta.
  assert (Htidy : forall row,
            Forall (fun c => PyStr.has_char NL c = false /\
                             PyStr.count_bars false c = 0) (map clean row)).
  { intros row. apply Forall_forall. intros c Hc.
    apply list_elem_of_In, in_map_iff in Hc as (cell & <- & _).
    destruct (clean_tidy cell) as (H1 & _ & H2). split; assumption. }
  assert (Hfit : forall (headers : list string)
                        (data : list (list (option string))),
            Forall2 (fun row cells =>
                       length cells = length headers /\
                       forall i, i < length headers ->
                         cells !! i = Some (default "" (map clean row !! i)))
                    data
                    (map (fun row => fit_row (length headers) (map clean row))
                         data)).
  { intros headers data. induction data as [|row data IH]; constructor.
    - split; [apply fit_row_length|]. intros i Hi. now apply fit_row_lookup.
    - exact IH. }
  destruct table_data as [|row0 [|row1 rest]]; simpl in Hlen; try lia.
  unfold table_header.
  change (hd [] (row0 :: row1 :: rest)) with row0.
  change (nth 1 (row0 :: row1 :: rest) []) with row1.
  change (tl (row0 :: row1 :: rest)) with (row1 :: rest).
  change (skipn 2 (row0 :: row1 :: rest)) with rest.
  change (skipn 1 (row0 :: row1 :: rest)) with (row1 :: rest).
  change (Nat.ltb 1 (length (row0 :: row1 :: rest))) with true.
  destruct (forallb (fun h => String.eqb h "") (map clean row0)).
  - change (tl (row1 :: rest)) with rest.
    destruct (md_lines_split (map clean row1) rest (Htidy row1))
      as (Hne & Hsplit & Hbars).
    split; [exact Hne|]. split; [exact Hsplit|]. split; [apply Hfit|exact Hbars].
  - change (tl (row0 :: row1 :: rest)) with (row1 :: rest).
    destruct (md_lines_split (map clean row0) (row1 :: rest) (Htidy row0))
      as (Hne & Hsplit & Hbars).
    split; [exact Hne|]. split; [exact Hsplit|]. split; [apply Hfit|exact Hbars].
Qed.

(** ** Tables and the table flag of the chunker *)

Lemma substring_of_refl (s : string) : PyStr.substring_of s s.
Proof. exists "", "". now rewrite str_app_nil_l, str_app_nil_r. Qed.

Lemma substring_of_trans (a b c : string) :
  PyStr.substring_of a b -> PyStr.substring_of b c -> PyStr.substring_of a c.
Proof.
  intros (p1 & q1 & ->) (p2 & q2 & ->). exists (p2 +:+ p1), (q1 +:+ q2).
  now rewrite !str_app_assoc.
Qed.

Lemma substring_of_app_l (a b c : string) :
  PyStr.substring_of a b -> PyStr.substring_of a (b +:+ c).
Proof.
  intros (p & q & ->). exists p, (q +:+ c). now rewrite !str_app_assoc.
Qed.

Lemma substring_of_app_r (a b c : string) :
  PyStr.substring_of a c -> PyStr.substring_of a (b +:+ c).
Proof.
  intros (p & q & ->). exists (b +:+ p), q. now rewrite !str_app_assoc.
Qed.

(** A text that holds the whole Markdown of a table of at least two rows,
    none of them without a cell, is flagged as a table by the chunker: the
    Markdown holds a bar and, in its separator line, three dashes. *)
Theorem markdown_table_is_flagged (table_data : list (list (option string)))
  (text : string) :
  2 <= length table_data ->
  Forall (fun row => row <> []) table_data ->
  PyStr.substring_of (table_to_markdown table_data) text ->
  looks_like_table text = true.
Proof.
  intros Hlen Hrows Hsub.
  destruct (table_header_run table_data Hlen)
    as (headers & body & Hhead & _ & _ & (row & Hrow & Hcells)).
  assert (Hcols : exists n, length headers = S n).
  { rewrite Forall_forall in Hrows. specialize (Hrows row Hrow).
    subst headers. destruct row; [congruence|]. simpl. eexists; reflexivity. }
  destruct Hcols as [n Hn].
  assert (Hmd : exists rest,
            table_to_markdown table_data =
              md_row headers +:+ LF
              +:+ ("| ---" +:+ rest)).
  { unfold table_to_markdown.
    destruct (Nat.ltb (length table_data) 2) eqn:Hlt;
      [apply Nat.ltb_lt in Hlt; lia|].
    rewrite Hhead, Hn. simpl repeat. cbv zeta.
    set (rows := map _ (tl body)).
    assert (Hsep : exists tail,
              md_row ("---" :: repeat "---" n) = "| ---" +:+ tail).
    { unfold md_row. destruct n as [|m]; simpl repeat.
      - exists " |". reflexivity.
      - change (PyStr.join " | " ("---" :: "---" :: repeat "---" m))
          with ("---" +:+ " | " +:+ PyStr.join " | " ("---" :: repeat "---" m)).
        eexists. rewrite !str_app_assoc. reflexivity. }
    destruct Hsep as [tail Hsep].
    destruct rows as [|r rs].
    - exists tail. simpl app.
      change (PyStr.join LF [md_row headers; md_row ("---" :: repeat "---" n)])
        with (md_row headers +:+ LF +:+ md_row ("---" :: repeat "---" n)).
      now rewrite Hsep.
    - exists (tail +:+ LF +:+ PyStr.join LF (r :: rs)). simpl app.
      change (PyStr.join LF
                (md_row headers :: md_row ("---" :: repeat "---" n) :: r :: rs))
        with (md_row headers +:+ LF +:+ md_row ("---" :: repeat "---" n)
              +:+ LF +:+ PyStr.join LF (r :: rs)).
      rewrite Hsep. now rewrite !str_app_assoc. }
  destruct Hmd as [rest Hmd]. rewrite Hmd in Hsub.
  unfold looks_like_table. apply andb_true_iff. split; apply contains_iff.
  - eapply substring_of_trans; [|exact Hsub].
    apply substring_of_app_l. exists "", (" " +:+ PyStr.join " | " headers +:+ " |").
    reflexivity.
  - eapply substring_of_trans; [|exact Hsub].
    apply substring_of_app_r, substring_of_app_r.
    exists "| ", rest. reflexivity.
Qed.

(** ** Versioning: the count and the list of versions *)

Lemma same_doc_filename_at (store store' : list Circular) (j : nat) :
  Forall2 same_doc store store' -> filename_at store' j = filename_at store j.
Proof.
  intros H. unfold filename_at.
  destruct (store !! j) as [c|] eqn:Hj.
  - now destruct (Forall2_lookup_l _ _ _ _ _ H Hj) as (c' & -> & Hf & _).
  - apply lookup_ge_None in Hj. rewrite (Forall2_length _ _ _ H) in Hj.
    apply lookup_ge_None in Hj. now rewrite Hj.
Qed.

Lemma mark_group_versions (group todo : list nat) (j : nat) :
  forall (i p : nat) (store : list Circular) (c0 : Circular)
    (store0 : list Circular),
    NoDup todo -> todo !! p = Some j -> store !! j = Some c0 ->
    Forall2 same_doc store0 store ->
    exists c',
      mark_group group todo i store !! j = Some c' /\
      version_count c' =
        (if Nat.ltb 1 (length group) then Some (length group)
         else version_count c0) /\
      all_versions c' =
        (if Nat.ltb 1 (length group)
         then Some (map (filename_at store0) group)
         else all_versions c0).
Proof.
  induction todo as [|c rest IH]; intros i p store c0 store0 Hnd Hp Hj Hframe;
    [discriminate|].
  apply NoDup_cons in Hnd as [Hc Hnd]. simpl.
  destruct p as [|p]; simpl in Hp.
  - inversion Hp; subst c. rewrite mark_group_outside by exact Hc.
    rewrite list_lookup_alter_eq, Hj. simpl.
    eexists. split; [reflexivity|]. simpl. split; [reflexivity|].
    destruct (Nat.ltb 1 (length group)); [|reflexivity].
    f_equal. apply map_ext. intros k. now apply same_doc_filename_at.
  - apply (IH (S i) p); [exact Hnd|exact Hp| |].
    + rewrite list_lookup_alter_ne; [exact Hj|].
      intros ->. apply Hc. eapply list_elem_of_lookup_2; exact Hp.
    + eapply Forall2_same_doc_trans; [exact Hframe|apply alter_same_doc].
Qed.

Lemma mark_groups_versions (store0 : list Circular)
  (groups : list (string * list nat)) (k : string) (ms : list nat) (j : nat) :
  forall (store : list Circular) (c0 : Circular),
    NoDup (concat (map snd groups)) ->
    (k, ms) ∈ groups -> j ∈ ms -> store !! j = Some c0 ->
    Forall2 same_doc store0 store ->
    exists c',
      mark_groups groups store !! j = Some c' /\
      version_count c' =
        (if Nat.ltb 1 (length ms) then Some (length ms) else version_count c0) /\
      all_versions c' =
        (if Nat.ltb 1 (length ms)
         then Some (map (filename_at store0)
                      (sorted_desc PyStr.lt (date_at store0) ms))
         else all_versions c0).
Proof.
  induction groups as [|[k0 ms0] rest IH]; intros store c0 Hnd Hin Hj Hc0 Hframe;
    [inversion Hin|].
  simpl in Hnd. apply NoDup_app in Hnd as (Hnd0 & Hdisj & Hndrest).
  assert (Hsort : sorted_desc PyStr.lt (date_at store) ms0
                  = sorted_desc PyStr.lt (date_at store0) ms0).
  { apply sorted_desc_ext, Forall_forall. intros x _.
    now apply same_doc_date_at. }
  simpl. rewrite Hsort.
  set (sorted0 := sorted_desc PyStr.lt (date_at store0) ms0).
  pose proof (sorted_desc_perm PyStr.lt (date_at store0) ms0) as Hperm.
  fold sorted0 in Hperm.
  apply elem_of_cons in Hin as [Heq|Hin].
  - inversion Heq; subst k0 ms0; clear Heq.
    assert (Hjs : j ∈ sorted0).
    { eapply Permutation_elem_of; [symmetry; exact Hperm|exact Hj]. }
    apply list_elem_of_lookup_1 in Hjs as [p Hp].
    assert (Hnds : NoDup sorted0) by now rewrite Hperm.
    destruct (mark_group_versions sorted0 sorted0 j 0 p store c0 store0
                Hnds Hp Hc0 Hframe) as (c' & Hrun & Hv & Ha).
    exists c'. rewrite mark_groups_outside by now apply Hdisj.
    split; [exact Hrun|].
    rewrite (Permutation_length Hperm) in Hv, Ha. split; assumption.
  - assert (Hout : j ∉ sorted0).
    { intros Hjs.
      assert (Hj0 : j ∈ ms0)
        by (eapply Permutation_elem_of; [exact Hperm|exact Hjs]).
      apply (Hdisj j Hj0).
      apply list_elem_of_In, in_concat. exists ms. split.
      - apply in_map_iff. exists (k, ms). split; [reflexivity|].
        now apply list_elem_of_In.
      - now apply list_elem_of_In. }
    apply IH; [exact Hndrest|exact Hin|exact Hj| |].
    + rewrite mark_group_outside by exact Hout. exact Hc0.
    + eapply Forall2_same_doc_trans; [exact Hframe|apply mark_group_frame].
Qed.

Lemma determine_latest_versions_versions (cs : list Circular) (i : nat)
  (c : Circular) :
  cs !! i = Some c ->
  let members := ranks_of (subject_key c) (map subject_key cs) 0 in
  exists c',
    determine_latest_versions cs !! i = Some c' /\
    version_count c' =
      (if Nat.ltb 1 (length members) then Some (length members)
       else version_count c) /\
    all_versions c' =
      (if Nat.ltb 1 (length members)
       then Some (map (filename_at cs)
                    (sorted_desc PyStr.lt (date_at cs) members))
       else all_versions c).
Proof.
  intros Hi members. unfold determine_latest_versions. rewrite build_groups_eta.
  set (keys := map subject_key cs) in *.
  set (ks := first_seen [] keys).
  set (groups := map (fun key => (key, ranks_of key keys 0)) ks).
  assert (Hnd : NoDup (concat (map snd groups))).
  { apply groups_NoDup, (first_seen_NoDup _ []), NoDup_nil_2. }
  assert (Hin : (subject_key c, members) ∈ groups).
  { apply list_elem_of_In, in_map_iff. exists (subject_key c).
    split; [reflexivity|]. apply list_elem_of_In.
    unfold ks. rewrite <- (app_nil_l (first_seen [] keys)).
    apply first_seen_elem_of. right.
    apply list_elem_of_In, in_map_iff. exists c. split; [reflexivity|].
    apply list_elem_of_In. eapply list_elem_of_lookup_2. exact Hi. }
  assert (Hims : i ∈ members) by (apply subject_positions; eauto).
  assert (Hframe0 : Forall2 same_doc cs cs).
  { apply Forall2_same_length_lookup. split; [reflexivity|].
    intros j x y Hx Hy. rewrite Hx in Hy. inversion Hy. apply same_doc_refl. }
  exact (mark_groups_versions cs groups _ _ i cs c Hnd Hin Hims Hi Hframe0).
Qed.

(** Every circular of a subject that has several versions is given the
    number of versions and the list of their file names, newest first and
    in input order among equal dates; the two entries of a circular that
    is alone in its subject are left as they were. *)
Theorem versions_are_listed (all_circulars : list Circular) (i : nat)
  (c : Circular) :
  all_circulars !! i = Some c ->
  let members :=
    ranks_of (subject_key c) (map subject_key all_circulars) 0 in
  (forall j, j ∈ members <->
     exists cj, all_circulars !! j = Some cj /\ subject_key cj = subject_key c) /\
  exists c' order,
    determine_latest_versions all_circulars !! i = Some c' /\
    stable_desc_sorted PyStr.lt (date_at all_circulars) members order /\
    if Nat.ltb 1 (length members)
    then version_count c' = Some (length members) /\
         all_versions c' = Some (map (filename_at all_circulars) order)
    else version_count c' = version_count c /\
         all_versions c' = all_versions c.
Proof.
  intros Hi members. split; [intros j; apply subject_positions|].
  destruct (determine_latest_versions_versions _ _ _ Hi) as (c' & Hrun & Hv & Ha).
  fold members in Hv, Ha.
  exists c', (sorted_desc PyStr.lt (date_at all_circulars) members).
  split; [exact Hrun|]. split.
  - apply (sorted_desc_stable PyStr.lt (date_at all_circulars) (fun _ => True)
             str_lt_asym str_lt_negtrans).
    apply Forall_forall. intros; exact I.
  - destruct (Nat.ltb 1 (length members)); split; assumption.
Qed.

(** ** Versioning twice *)

Lemma circular_eq (c c' : Circular) :
  filename c = filename c' ->
  subject_normalized c = subject_normalized c' ->
  date_parsed c = date_parsed c' ->
  is_latest c = is_latest c' ->
  status c = status c' ->
  version_count c = version_count c' ->
  all_versions c = all_versions c' ->
  c = c'.
Proof. destruct c, c'; simpl; intros; congruence. Qed.

Lemma same_doc_sym (c c' : Circular) : same_doc c c' -> same_doc c' c.
Proof. unfold same_doc. intros (? & ? & ?). repeat split; congruence. Qed.

Lemma Forall2_same_doc_sym (s s' : list Circular) :
  Forall2 same_doc s s' -> Forall2 same_doc s' s.
Proof.
  induction 1; constructor; [now apply same_doc_sym|assumption].
Qed.

Lemma same_doc_subject_key (c c' : Circular) :
  same_doc c c' -> subject_key c' = subject_key c.
Proof. unfold same_doc, subject_key. now intros (_ & -> & _). Qed.

Lemma same_doc_date_key (c c' : Circular) :
  same_doc c c' -> date_key c' = date_key c.
Proof. unfold same_doc, date_key. now intros (_ & _ & ->). Qed.

Lemma same_doc_subject_keys (s s' : list Circular) :
  Forall2 same_doc s s' -> map subject_key s' = map subject_key s.
Proof.
  induction 1 as [|c c' s s' Hc _ IH]; simpl; [reflexivity|].
  now rewrite IH, (same_doc_subject_key _ _ Hc).
Qed.

Lemma newest_same_doc (s s' : list Circular) (i : nat) :
  Forall2 same_doc s s' -> newest_of_subject s i -> newest_of_subject s' i.
Proof.
  intros H (c & Hc & Hnew).
  destruct (Forall2_lookup_l _ _ _ _ _ H Hc) as (c' & Hc' & Hsame).
  exists c'. split; [exact Hc'|]. intros j cj' Hj Hsubj.
  destruct (Forall2_lookup_r _ _ _ _ _ H Hj) as (cj & Hcj & Hsamej).
  rewrite (same_doc_date_key _ _ Hsame), (same_doc_date_key _ _ Hsamej).
  apply (Hnew j cj Hcj).
  rewrite <- (same_doc_subject_key _ _ Hsame),
          <- (same_doc_subject_key _ _ Hsamej).
  exact Hsubj.
Qed.

(** Versioning a list that is versioned already changes nothing. *)
Theorem determine_latest_versions_idempotent (all_circulars : list Circular) :
  determine_latest_versions (determine_latest_versions all_circulars)
    = determine_latest_versions all_circulars.
Proof.
  set (out := determine_latest_versions all_circulars).
  assert (Hframe : Forall2 same_doc all_circulars out)
    by apply mark_groups_frame.
  assert (Hframe2 : Forall2 same_doc out (determine_latest_versions out))
    by apply mark_groups_frame.
  apply list_eq. intros i.
  destruct (out !! i) as [c1|] eqn:H1.
  2:{ apply lookup_ge_None in H1. apply lookup_ge_None.
      now rewrite <- (Forall2_length _ _ _ Hframe2). }
  destruct (Forall2_lookup_r _ _ _ _ _ Hframe H1) as (c & Hc & Hsame).
  destruct (determine_latest_versions_at _ _ _ Hc) as (c1' & H1' & _ & Hmark).
  fold out in H1'. rewrite H1 in H1'. inversion H1'; subst c1'. clear H1'.
  destruct (determine_latest_versions_versions _ _ _ Hc)
    as (c1' & H1' & Hv & Ha).
  fold out in H1'. rewrite H1 in H1'. inversion H1'; subst c1'. clear H1'.
  destruct (determine_latest_versions_at _ _ _ H1) as (c2 & H2 & Hsame2 & Hmark2).
  destruct (determine_latest_versions_versions _ _ _ H1)
    as (c2' & H2' & Hv2 & Ha2).
  rewrite H2 in H2'. inversion H2'; subst c2'. clear H2'.
  rewrite H2. f_equal.
  rewrite (same_doc_subject_keys _ _ Hframe),
          (same_doc_subject_key _ _ Hsame) in Hv2, Ha2.
  assert (Hsort : forall ms,
            sorted_desc PyStr.lt (date_at out) ms
            = sorted_desc PyStr.lt (date_at all_circulars) ms).
  { intros ms. apply sorted_desc_ext, Forall_forall. intros x _.
    now apply same_doc_date_at. }
  rewrite Hsort in Ha2.
  assert (Hnames : forall l, map (filename_at out) l
                             = map (filename_at all_circulars) l).
  { intros l. apply map_ext. intros k. now apply same_doc_filename_at. }
  rewrite Hnames in Ha2.
  destruct Hsame2 as (Hf & Hs & Hd).
  apply circular_eq; try assumption.
  - destruct Hmark as [(Hn & _ & Hl)|(Hn & _ & Hl)];
      destruct Hmark2 as [(Hn2 & _ & Hl2)|(Hn2 & _ & Hl2)];
      try congruence; exfalso.
    + apply Hn2. now apply (newest_same_doc all_circulars out).
    + apply Hn. apply (newest_same_doc out all_circulars);
        [now apply Forall2_same_doc_sym|exact Hn2].
  - destruct Hmark as [(Hn & Hst & _)|(Hn & Hst & _)];
      destruct Hmark2 as [(Hn2 & Hst2 & _)|(Hn2 & Hst2 & _)];
      try congruence; exfalso.
    + apply Hn2. now apply (newest_same_doc all_circulars out).
    + apply Hn. apply (newest_same_doc out all_circulars);
        [now apply Forall2_same_doc_sym|exact Hn2].
  - rewrite Hv2. destruct (Nat.ltb 1 _); [now rewrite Hv|reflexivity].
  - rewrite Ha2. destruct (Nat.ltb 1 _); [now rewrite Ha|reflexivity].
Qed.

(** ** Dates as strings *)

Lemma digit_compare (a b : nat) :
  a < 10 -> b < 10 -> Ascii.compare (digit a) (digit b) = Nat.compare a b.
Proof.
  intros Ha Hb.
  do 10 (destruct a as [|a];
         [do 10 (destruct b as [|b]; [reflexivity|]); lia|]).
  lia.
Qed.

Lemma digit_mod (n : nat) : digit n = digit (n mod 10).
Proof. unfold digit. now rewrite Nat.Div0.mod_mod. Qed.

Lemma compare_div10 (a b : nat) :
  Nat.compare a b = lex (Nat.compare (a / 10) (b / 10))
                        (Nat.compare (a mod 10) (b mod 10)).
Proof.
  pose proof (Nat.div_mod_eq a 10). pose proof (Nat.div_mod_eq b 10).
  pose proof (Nat.mod_upper_bound a 10). pose proof (Nat.mod_upper_bound b 10).
  unfold lex.
  destruct (Nat.compare_spec (a / 10) (b / 10));
    destruct (Nat.compare_spec (a mod 10) (b mod 10));
    destruct (Nat.compare_spec a b); try reflexivity; exfalso; lia.
Qed.

Lemma pad_length (w n : nat) : String.length (pad w n) = w.
Proof.
  revert n. induction w as [|w IH]; intros n; simpl; [reflexivity|].
  rewrite str_length_app, IH. simpl. lia.
Qed.

Lemma compare_app (a1 a2 r1 r2 : string) :
  String.length a1 = String.length a2 ->
  String.compare (a1 +:+ r1) (a2 +:+ r2) =
    lex (String.compare a1 a2) (String.compare r1 r2).
Proof.
  revert a2. induction a1 as [|x a1 IH]; intros [|y a2] Hlen;
    simpl in Hlen; try discriminate.
  - reflexivity.
  - rewrite !str_app_cons. simpl.
    destruct (Ascii.compare x y); try reflexivity. apply IH. lia.
Qed.

Lemma pad_compare (w : nat) :
  forall a b, a < 10 ^ w -> b < 10 ^ w ->
    String.compare (pad w a) (pad w b) = Nat.compare a b.
Proof.
  induction w as [|w IH]; intros a b Ha Hb.
  - simpl in *. assert (a = 0) by lia. assert (b = 0) by lia. now subst.
  - cbn [pad]. rewrite compare_app by now rewrite !pad_length.
    rewrite IH.
    + rewrite (compare_div10 a b). f_equal.
      change (String.compare (String (digit a) "") (String (digit b) ""))
        with (match Ascii.compare (digit a) (digit b) with
              | Eq => Eq
              | ne => ne
              end).
      rewrite (digit_mod a), (digit_mod b), digit_compare
        by (apply Nat.mod_upper_bound; lia).
      now destruct (Nat.compare (a mod 10) (b mod 10)).
    + apply Nat.Div0.div_lt_upper_bound. rewrite Nat.pow_succ_r' in Ha. lia.
    + apply Nat.Div0.div_lt_upper_bound. rewrite Nat.pow_succ_r' in Hb. lia.
Qed.

Lemma isoformat_compare (d1 d2 : DateTime) :
  in_range d1 -> in_range d2 ->
  String.compare (isoformat d1) (isoformat d2) =
    lex (Nat.compare (year d1) (year d2))
        (lex (Nat.compare (month d1) (month d2))
             (Nat.compare (day d1) (day d2))).
Proof.
  intros (Hy1 & Hm1 & Hd1) (Hy2 & Hm2 & Hd2). unfold isoformat.
  assert (H100 : 10 ^ 2 = 100) by reflexivity.
  rewrite compare_app by now rewrite !pad_length.
  rewrite pad_compare by lia. f_equal.
  change ("-" +:+ pad 2 (month d1) +:+ "-" +:+ pad 2 (day d1) +:+ "T00:00:00")
    with (String "-" (pad 2 (month d1) +:+ "-" +:+ pad 2 (day d1) +:+ "T00:00:00")).
  change ("-" +:+ pad 2 (month d2) +:+ "-" +:+ pad 2 (day d2) +:+ "T00:00:00")
    with (String "-" (pad 2 (month d2) +:+ "-" +:+ pad 2 (day d2) +:+ "T00:00:00")).
  cbn [String.compare]. change (Ascii.compare "-" "-") with Eq. cbv iota.
  rewrite compare_app by now rewrite !pad_length.
  rewrite pad_compare by lia. f_equal.
  change ("-" +:+ pad 2 (day d1) +:+ "T00:00:00")
    with (String "-" (pad 2 (day d1) +:+ "T00:00:00")).
  change ("-" +:+ pad 2 (day d2) +:+ "T00:00:00")
    with (String "-" (pad 2 (day d2) +:+ "T00:00:00")).
  cbn [String.compare]. change (Ascii.compare "-" "-") with Eq. cbv iota.
  rewrite compare_app by now rewrite !pad_length.
  rewrite pad_compare by lia.
  change (String.compare "T00:00:00" "T00:00:00") with Eq.
  unfold lex. now destruct (Nat.compare (day d1) (day d2)).
Qed.

Lemma isoformat_length (d : DateTime) : String.length (isoformat d) = 19.
Proof.
  unfold isoformat. rewrite !str_length_app, !pad_length. reflexivity.
Qed.

Lemma isoformat_lt (d1 d2 : DateTime) :
  in_range d1 -> in_range d2 ->
  PyStr.lt (isoformat d1) (isoformat d2) = true <-> earlier d1 d2.
Proof.
  intros H1 H2. unfold PyStr.lt, String.ltb.
  rewrite (isoformat_compare d1 d2 H1 H2). unfold lex, earlier.
  destruct (Nat.compare_spec (year d1) (year d2));
    destruct (Nat.compare_spec (month d1) (month d2));
    destruct (Nat.compare_spec (day d1) (day d2));
    split; try discriminate; try reflexivity; try lia; intros; lia.
Qed.

(** The ISO strings of two dates stand in the order of the dates, and the
    empty string, which a file name without a date gives, stands before
    every date. *)
Theorem isoformat_sorts_by_date (d1 d2 : DateTime) :
  in_range d1 -> in_range d2 ->
  (PyStr.lt (isoformat d1) (isoformat d2) = true <-> earlier d1 d2) /\
  (isoformat d1 = isoformat d2 <-> d1 = d2) /\
  PyStr.lt (date_parsed_of None) (isoformat d1) = true /\
  PyStr.lt (isoformat d1) (date_parsed_of None) = false.
Proof.
  intros H1 H2. pose proof (isoformat_compare d1 d2 H1 H2) as Hcmp.
  split; [|split; [|split]].
  - now apply isoformat_lt.
  - split; [|now intros ->]. intros Heq.
    rewrite Heq in Hcmp.
    assert (Hrefl : String.compare (isoformat d2) (isoformat d2) = Eq).
    { destruct (String.compare (isoformat d2) (isoformat d2)) eqn:E;
        [reflexivity| |];
        pose proof (String.compare_antisym (isoformat d2) (isoformat d2)) as Ha;
        rewrite E in Ha; discriminate Ha. }
    rewrite Hrefl in Hcmp. unfold lex in Hcmp.
    destruct d1 as [y1 m1 x1], d2 as [y2 m2 x2]. cbn [year month day] in Hcmp.
    destruct (Nat.compare_spec y1 y2); try discriminate.
    destruct (Nat.compare_spec m1 m2); try discriminate.
    destruct (Nat.compare_spec x1 x2); try discriminate.
    now subst.
  - pose proof (isoformat_length d1) as Hlen. cbn [date_parsed_of].
    destruct (isoformat d1); [discriminate Hlen|reflexivity].
  - pose proof (isoformat_length d1) as Hlen. cbn [date_parsed_of].
    destruct (isoformat d1); [discriminate Hlen|reflexivity].
Qed.

Lemma date_parsed_of_lt (a b : option DateTime) :
  match a with Some d => in_range d | None => True end ->
  match b with Some d => in_range d | None => True end ->
  PyStr.lt (date_parsed_of a) (date_parsed_of b) = true <-> date_before a b.
Proof.
  intros Ha Hb. destruct a as [x|], b as [y|]; cbn [date_parsed_of date_before].
  - now apply isoformat_lt.
  - pose proof (isoformat_length x) as Hlen.
    destruct (isoformat x); [discriminate Hlen|].
    split; [discriminate|intros []].
  - pose proof (isoformat_length y) as Hlen.
    destruct (isoformat y); [discriminate Hlen|].
    split; [intros _; exact I|reflexivity].
  - split; [discriminate|intros []].
Qed.

(** When the [date_parsed] of every circular is the ISO string of the date
    its file name gives, or the empty string for a file name without a
    date, the circular marked "ACTIVE" is the most recent of its subject by
    the calendar: no circular of the subject has a later date, one without
    a date counting as older than every dated one, and none of the same
    date stands before it in the list. *)
Theorem active_is_most_recent (all_circulars : list Circular)
  (dates : list (option DateTime)) :
  Forall2 (fun c d => date_parsed c = Some (date_parsed_of d))
          all_circulars dates ->
  Forall (fun d => match d with Some d => in_range d | None => True end) dates ->
  forall i c',
    determine_latest_versions all_circulars !! i = Some c' ->
    status c' = Some "ACTIVE" ->
    forall j cj,
      all_circulars !! j = Some cj -> subject_key cj = subject_key c' ->
      exists di dj,
        dates !! i = Some di /\ dates !! j = Some dj /\
        ~ date_before di dj /\
        (~ date_before dj di -> i <= j).
Proof.
  intros Hdates Hrange i c' Hout Hactive j cj Hj Hsubj.
  assert (Hframe : Forall2 same_doc all_circulars
                     (determine_latest_versions all_circulars))
    by apply mark_groups_frame.
  destruct (Forall2_lookup_r _ _ _ _ _ Hframe Hout) as (c & Hc & Hsame).
  destruct (determine_latest_versions_at _ _ _ Hc) as (c2 & Hc2 & _ & Hmark).
  rewrite Hout in Hc2. inversion Hc2; subst c2. clear Hc2.
  destruct Hmark as [(Hnew & _ & _)|(_ & Hst & _)]; [|congruence].
  destruct Hnew as (c0 & Hc0 & Hnew). rewrite Hc in Hc0.
  inversion Hc0; subst c0. clear Hc0.
  destruct (Forall2_lookup_l _ _ _ _ _ Hdates Hc) as (di & Hdi & Hci).
  destruct (Forall2_lookup_l _ _ _ _ _ Hdates Hj) as (dj & Hdj & Hcj).
  rewrite Forall_forall in Hrange.
  assert (Hri := Hrange di (list_elem_of_lookup_2 _ _ _ Hdi)).
  assert (Hrj := Hrange dj (list_elem_of_lookup_2 _ _ _ Hdj)).
  destruct (Hnew j cj Hj) as [Hle Htie].
  { rewrite Hsubj. now apply same_doc_subject_key. }
  unfold date_key in Hle, Htie. rewrite Hci, Hcj in Hle, Htie.
  cbv [from_option id] in Hle, Htie.
  exists di, dj. split; [exact Hdi|]. split; [exact Hdj|]. split.
  - intros Hb. apply (date_parsed_of_lt di dj Hri Hrj) in Hb. congruence.
  - intros Hnb. apply Htie.
    destruct (PyStr.lt (date_parsed_of dj) (date_parsed_of di)) eqn:E;
      [|reflexivity].
    exfalso. apply Hnb. now apply (date_parsed_of_lt dj di Hrj Hri).
Qed.

(** ** The audience of a circular *)

Lemma take_substring (n : nat) (s : string) :
  PyStr.substring_of (PyStr.take n s) s.
Proof.
  exists "", (PyStr.drop n s). rewrite str_app_nil_l. symmetry.
  apply take_drop_str.
Qed.

Lemma audience_by_keyword_lowered (text : string)
  (table : list (string * string)) :
  audience_by_keyword text table =
    first_label (PyStr.lower text)
      (map (fun row => (PyStr.lower (fst row), snd row)) table).
Proof.
  induction table as [|[kw label] rest IH]; simpl; [reflexivity|].
  now rewrite IH.
Qed.

Lemma social_holds_stock_exchange (q : string) :
  PyStr.contains "social stock exchange" q = true ->
  PyStr.contains "stock exchange" q = true.
Proof.
  rewrite !contains_iff. intros H.
  eapply substring_of_trans; [|exact H]. exists "social ", "". reflexivity.
Qed.

(** The keyword scan gives the label "Social Stock Exchange" for no text:
    a text that holds this keyword holds the keyword "Stock Exchange",
    which stands before it in the table. *)
Lemma no_social_by_keyword (text : string) :
  audience_by_keyword text audience_keywords <> Some "Social Stock Exchange".
Proof.
  rewrite audience_by_keyword_lowered.
  set (q := PyStr.lower text).
  let table :=
    eval vm_compute in
      (map (fun row => (PyStr.lower (fst row), snd row)) audience_keywords) in
  change (map (fun row => (PyStr.lower (fst row), snd row)) audience_keywords)
    with table.
  cbn [first_label].
  repeat match goal with
         | |- (if PyStr.contains ?kw q then _ else _) <> _ =>
             let E := fresh "E" in
             destruct (PyStr.contains kw q) eqn:E;
             [first [ discriminate
                    | exfalso; apply social_holds_stock_exchange in E;
                      congruence ]|]
         end.
  discriminate.
Qed.

(** ** Embedding in batches *)

Lemma take_add {A : Type} (a b : nat) (l : list A) :
  firstn (a + b) l = firstn a l ++ firstn b (skipn a l).
Proof.
  revert l. induction a as [|a IH]; intros [|x l]; simpl;
    try reflexivity; [now destruct b|].
  now rewrite IH.
Qed.

Lemma slices_concat {A : Type} (step : nat) (l : list A) (k : nat) :
  concat (map (fun i => firstn step (skipn i l))
            (map (fun j => j * step) (seq 0 k)))
  = firstn (k * step) l.
Proof.
  induction k as [|k IH]; [reflexivity|].
  rewrite seq_S, !map_app, concat_app, IH.
  cbn [map concat]. rewrite app_nil_r, Nat.add_0_l.
  replace (S k * step) with (k * step + step) by lia.
  now rewrite take_add.
Qed.

Lemma range_step_reaches (n step : nat) :
  0 < step -> n <= (n + step - 1) / step * step.
Proof.
  intros Hstep.
  pose proof (Nat.div_mod_eq (n + step - 1) step) as Hdm.
  pose proof (Nat.mod_upper_bound (n + step - 1) step) as Hmod.
  nia.
Qed.

Lemma range_step_last (n step j : nat) :
  0 < step -> j < (n + step - 1) / step -> j * step < n.
Proof.
  intros Hstep Hj.
  pose proof (Nat.div_mod_eq (n + step - 1) step) as Hdm.
  pose proof (Nat.mod_upper_bound (n + step - 1) step) as Hmod.
  nia.
Qed.

(** The batches, put end to end, are the list of child chunks: every chunk
    is handed to the vector store once, in order.  No batch is empty and
    none holds more than [BATCH_SIZE] chunks; there are as many batches as
    the chunks need. *)
Theorem batches_cover {A : Type} (all_children : list A) :
  concat (batches BATCH_SIZE all_children) = all_children /\
  Forall (fun batch => 1 <= length batch <= BATCH_SIZE)
         (batches BATCH_SIZE all_children) /\
  length (batches BATCH_SIZE all_children) =
    (length all_children + BATCH_SIZE - 1) / BATCH_SIZE.
Proof.
  assert (Hpos : 0 < BATCH_SIZE) by (unfold BATCH_SIZE; lia).
  unfold batches, range_step. split; [|split].
  - rewrite slices_concat. apply firstn_all2.
    now apply range_step_reaches.
  - apply Forall_forall. intros batch Hb.
    apply list_elem_of_In, in_map_iff in Hb as (i & <- & Hi).
    apply in_map_iff in Hi as (j & <- & Hj). apply in_seq in Hj.
    pose proof (range_step_last (length all_children) BATCH_SIZE j Hpos) as Hlt.
    rewrite length_take, length_drop. lia.
  - now rewrite !length_map, length_seq.
Qed.

(** ** Fusion of a single list *)

Lemma first_seen_id (l : list string) :
  forall seen, NoDup (seen ++ l) -> first_seen seen l = l.
Proof.
  induction l as [|x l IH]; intros seen Hnd; simpl; [reflexivity|].
  apply NoDup_app in Hnd as (Hseen & Hdisj & Hl).
  rewrite bool_decide_eq_false_2.
  - f_equal. apply IH. rewrite <- app_assoc. simpl.
    apply NoDup_app. split; [exact Hseen|]. split; [exact Hdisj|exact Hl].
  - intros Hx. apply (Hdisj x Hx), list_elem_of_here.
Qed.

Lemma ranks_of_single (key : string) (keys : list string) :
  forall (rank i : nat),
    NoDup keys -> keys !! i = Some key ->
    ranks_of key keys rank = [rank + i].
Proof.
  induction keys as [|k0 rest IH]; intros rank i Hnd Hi; [discriminate|].
  apply NoDup_cons in Hnd as [Hk0 Hnd]. simpl.
  destruct i as [|i]; simpl in Hi.
  - inversion Hi; subst k0. rewrite String.eqb_refl, Nat.add_0_r. f_equal.
    assert (Hnone : forall r, ranks_of key rest r = []).
    { intros r. destruct (ranks_of key rest r) as [|j js] eqn:E; [reflexivity|].
      exfalso. apply Hk0.
      assert (Hj : j ∈ ranks_of key rest r) by (rewrite E; apply list_elem_of_here).
      apply ranks_of_elem_of in Hj as [_ Hj].
      eapply list_elem_of_lookup_2; exact Hj. }
    apply Hnone.
  - destruct (String.eqb_spec k0 key) as [->|Hne].
    + exfalso. apply Hk0. eapply list_elem_of_lookup_2; exact Hi.
    + rewrite (IH (S rank) i Hnd Hi). f_equal. lia.
Qed.

(** A list in which no element is followed by one of greater key is left
    as it is by the sort. *)
Lemma sorted_desc_id {A K : Type} (lt : K -> K -> bool) (key : A -> K)
  (l : list A) :
  (forall i a b, l !! i = Some a -> l !! S i = Some b ->
                 lt (key a) (key b) = false) ->
  sorted_desc lt key l = l.
Proof.
  induction l as [|x l IH]; intros Hadj; [reflexivity|].
  simpl. rewrite IH.
  - destruct l as [|y l]; [reflexivity|]. simpl.
    now rewrite (Hadj 0 x y eq_refl eq_refl).
  - intros i a b Ha Hb. apply (Hadj (S i) a b); assumption.
Qed.

(** The scores of the first ranks do not grow with the rank. *)
Lemma first_ranks_descend (i : nat) :
  S i < TOP_K ->
  PyFloat.ltb (add_rank RRF_K PyFloat.zero i)
              (add_rank RRF_K PyFloat.zero (S i)) = false.
Proof.
  unfold TOP_K. intros Hi.
  do 4 (destruct i as [|i]; [vm_compute; reflexivity|]). lia.
Qed.

(** A single result list of at most [TOP_K] chunks, no two of them with the
    same serialization, comes out of the fusion in the order it went in:
    the score [1 / (rank + RRF_K)] does not grow with the rank. *)
Theorem fusion_of_one_list (docs : list Document) :
  NoDup (map dumps docs) -> length docs <= TOP_K ->
  reciprocal_rank_fusion [docs] RRF_K
    = Ok (map (fun doc => loads (dumps doc)) docs).
Proof.
  intros Hnd Hlen.
  destruct (rrf_accumulate_spec RRF_K [docs] []) as (fused & Hrun & Hkeys & Hget).
  { reflexivity. }
  { intros ds rank Hds Hrank. apply fits_small.
    apply list_elem_of_singleton in Hds. subst ds.
    unfold TOP_K, RRF_K in *. lia. }
  simpl in Hkeys, Hget. rewrite app_nil_r in Hkeys.
  rewrite first_seen_id in Hkeys by exact Hnd.
  set (keys := map dumps docs) in *.
  assert (Hfused : fused =
                   map (fun key => (key, fused_get key fused)) keys).
  { rewrite <- Hkeys. apply fused_eta. now rewrite Hkeys. }
  unfold reciprocal_rank_fusion. rewrite Hrun, Hfused.
  rewrite (sorted_desc_map PyFloat.ltb snd
             (fun key => (key, fused_get key fused))).
  cbn [snd]. rewrite sorted_desc_id.
  - rewrite map_map. cbn [fst]. unfold keys. now rewrite map_map.
  - intros i a b Ha Hb. rewrite !Hget, !app_nil_r.
    rewrite (ranks_of_single a keys 0 i Hnd Ha).
    rewrite (ranks_of_single b keys 0 (S i) Hnd Hb).
    cbn [fold_left Nat.add]. apply first_ranks_descend.
    apply lookup_lt_Some in Hb. unfold keys in Hb.
    rewrite length_map in Hb. lia.
Qed.

End Collaborators.

(* ===================================================================== *)
(** * Worked examples *)
(* ===================================================================== *)

(** With the model down, both chunks are kept. *)
Lemma grade_relevance_fail_open_witness :
  [chunk_a; chunk_b] <> [] /\
  let gs := fst (grades StubWorld llm_down [chunk_a; chunk_b]
                   sample_question run_start) in
  exists out shared s',
    grade_relevance StubWorld llm_down [chunk_a; chunk_b] sample_question
      run_start = (Ok (out, shared), s') /\
    out <> [] /\
    (out = pick gs [chunk_a; chunk_b] \/
     (pick gs [chunk_a; chunk_b] = [] /\ out = [chunk_a; chunk_b])) /\
    (forall i doc, gs !! i = Some Failed ->
                   [chunk_a; chunk_b] !! i = Some doc -> doc ∈ out) /\
    (Forall (fun g => g = Failed) gs -> out = [chunk_a; chunk_b]).
Proof.
  split; [discriminate|].
  apply (grade_relevance_fail_open StubWorld llm_down [chunk_a; chunk_b]
           sample_question run_start).
  discriminate.
Defined.

Example grade_relevance_model_down :
  fst (grade_relevance StubWorld llm_down [chunk_a; chunk_b] sample_question
         run_start) = Ok ([chunk_a; chunk_b], false).
Proof. vm_compute. reflexivity. Qed.

Example grade_relevance_drops_brokers :
  fst (grade_relevance StubWorld llm_scripted [chunk_a; chunk_b; chunk_c]
         sample_question run_start) = Ok ([chunk_a; chunk_c], false).
Proof. vm_compute. reflexivity. Qed.

(** C2, as the claim is worded, fails on [tie_lists] with the default
    constant.  The chunks [tie_p] and [tie_q] stand at the same ranks, so
    the exact sums of [1 / (rank + 60)] are equal, and [tie_p] is met
    first; the order of first appearance would put [tie_p] first.  The
    function adds the terms up in binary64, in the order it meets them,
    and the two rounded sums differ in the last place: it returns [tie_q]
    before [tie_p].  So the result is not the keys sorted by the exact
    score with ties in the order of first appearance. *)
Lemma rrf_exact_tie_reordered :
  let key_lists := map (map dumps_text) tie_lists in
  let keys := first_seen [] (concat key_lists) in
  QArith_base.Qeq (exact_score RRF_K key_lists "P")
                  (exact_score RRF_K key_lists "Q") /\
  before keys "P" "Q" /\
  (exists out,
     reciprocal_rank_fusion dumps_text loads_text tie_lists RRF_K = Ok out /\
     before out tie_q tie_p) /\
  ~ (exists ranked,
       reciprocal_rank_fusion dumps_text loads_text tie_lists RRF_K
         = Ok (map loads_text ranked) /\
       stable_desc_sorted Q_ltb (exact_score RRF_K key_lists) keys ranked).
Proof.
  cbv zeta.
  assert (Hkeys : first_seen [] (concat (map (map dumps_text) tie_lists))
                  = ["f0"; "P"; "Q"; "f1"; "f2"; "f3"; "f4"; "f5"])
    by (vm_compute; reflexivity).
  assert (Hout : reciprocal_rank_fusion dumps_text loads_text tie_lists RRF_K
                 = Ok (map loads_text
                         ["Q"; "P"; "f0"; "f1"; "f3"; "f4"; "f2"; "f5"]))
    by (vm_compute; reflexivity).
  rewrite Hkeys. split; [vm_compute; reflexivity|]. split.
  { exists 1, 2. repeat split. lia. }
  split.
  { eexists. split; [exact Hout|]. exists 0, 1. repeat split. lia. }
  intros (ranked & Hrun & _ & _ & Hstable).
  rewrite Hout in Hrun.
  assert (Hranked : ranked = ["Q"; "P"; "f0"; "f1"; "f3"; "f4"; "f2"; "f5"]).
  { injection Hrun as Hrun.
    apply (f_equal (map dumps_text)) in Hrun.
    rewrite !map_map in Hrun. simpl in Hrun.
    rewrite map_id in Hrun. now symmetry. }
  subst ranked.
  destruct (Hstable "Q" "P") as (i & j & Hij & Hi & Hj).
  - exists 0, 1. repeat split. lia.
  - vm_compute. reflexivity.
  - assert (Hnd : NoDup ["f0"; "P"; "Q"; "f1"; "f2"; "f3"; "f4"; "f5"]).
    { repeat (apply NoDup_cons; split;
              [rewrite ?elem_of_cons, elem_of_nil; intuition discriminate|]).
      apply NoDup_nil_2. }
    assert (i = 2) by (eapply NoDup_lookup; [exact Hnd|exact Hi|reflexivity]).
    assert (j = 1) by (eapply NoDup_lookup; [exact Hnd|exact Hj|reflexivity]).
    lia.
Qed.

Example rrf_tie_scores :
  rrf_score RRF_K (map (map dumps_text) tie_lists) "P"
    = S754_finite false 4668534659428930 (-56) /\
  rrf_score RRF_K (map (map dumps_text) tie_lists) "Q"
    = S754_finite false 4668534659428931 (-56).
Proof. split; vm_compute; reflexivity. Qed.


Example rrf_two_lists :
  reciprocal_rank_fusion dumps_text loads_text
    [[chunk_a; chunk_b]; [chunk_b; chunk_c]] RRF_K
  = Ok [chunk_b; chunk_a; chunk_c].
Proof. vm_compute. reflexivity. Qed.

(** A chunk at ranks [r1] and [r2] of two lists scores
    [1/(r1+K) + 1/(r2+K)]; at one rank [r], [1/(r+K)]. *)
Example rrf_score_two_ranks :
  rrf_score RRF_K [["a"; "b"]; ["b"; "c"]] "b" =
    PyFloat.add (PyFloat.div PyFloat.one (PyFloat.of_int 61))
                (PyFloat.div PyFloat.one (PyFloat.of_int 60)) /\
  rrf_score RRF_K [["a"; "b"]; ["b"; "c"]] "a" =
    PyFloat.div PyFloat.one (PyFloat.of_int 60).
Proof. split; vm_compute; reflexivity. Qed.

(** One hit under the filter, five without: the five are what the query
    gives to the fusion. *)
Lemma retrieve_filter_fallback_witness :
  build_metadata_filter sample_question = Some sample_filter /\
  generate_multi_queries StubWorld llm_scripted sample_question run_start
    = (Ok ([] ++ sample_question ::
                 ["disclosure duties of mutual funds"; "mutual fund reporting"]),
       run_expanded) /\
  search_all StubWorld search_one_filtered [] (Some sample_filter) [] run_expanded
    = (Ok [], run_expanded) /\
  search StubWorld search_one_filtered sample_question TOP_K
    (Some sample_filter) run_expanded = (Ok [chunk_a], run_filtered) /\
  length [chunk_a] < 2 /\
  search StubWorld search_one_filtered sample_question TOP_K None run_filtered
    = (Ok [chunk_a; chunk_b; chunk_c; chunk_d; chunk_e], run_unfiltered) /\
  search_query StubWorld search_one_filtered sample_question
    (Some sample_filter) [] run_expanded
    = (Ok ([] ++ [[chunk_a; chunk_b; chunk_c; chunk_d; chunk_e]]),
       run_unfiltered) /\
  exists rest s4,
    search_all StubWorld search_one_filtered
      ([] ++ sample_question ::
             ["disclosure duties of mutual funds"; "mutual fund reporting"])
      (build_metadata_filter sample_question) [] run_expanded
      = (Ok ([] ++ [chunk_a; chunk_b; chunk_c; chunk_d; chunk_e] :: rest), s4) /\
    forall retrieval s',
      retrieve StubWorld llm_scripted search_one_filtered None ∅
        dumps_text loads_text sample_question run_start = (Ok retrieval, s') ->
      exists fused,
        reciprocal_rank_fusion dumps_text loads_text
          ([] ++ [chunk_a; chunk_b; chunk_c; chunk_d; chunk_e] :: rest) RRF_K
          = Ok fused /\
        child_docs retrieval = firstn TOP_K fused.
Proof.
  assert (H1 : build_metadata_filter sample_question = Some sample_filter)
    by (vm_compute; reflexivity).
  assert (H2 : generate_multi_queries StubWorld llm_scripted sample_question
                 run_start
               = (Ok ([] ++ sample_question ::
                        ["disclosure duties of mutual funds";
                         "mutual fund reporting"]), run_expanded))
    by (vm_compute; reflexivity).
  assert (H3 : search_all StubWorld search_one_filtered [] (Some sample_filter)
                 [] run_expanded = (Ok [], run_expanded)) by reflexivity.
  assert (H4 : search StubWorld search_one_filtered sample_question TOP_K
                 (Some sample_filter) run_expanded
               = (Ok [chunk_a], run_filtered)) by reflexivity.
  assert (H5 : length [chunk_a] < 2) by (simpl; lia).
  assert (H6 : search StubWorld search_one_filtered sample_question TOP_K None
                 run_filtered
               = (Ok [chunk_a; chunk_b; chunk_c; chunk_d; chunk_e],
                  run_unfiltered)) by reflexivity.
  repeat (split; [assumption|]).
  exact (retrieve_filter_fallback StubWorld llm_scripted search_one_filtered
           None ∅ dumps_text loads_text sample_question sample_question
           sample_filter [] _ [] [chunk_a] _ run_start run_expanded run_expanded
           run_filtered run_unfiltered H1 H2 H3 H4 H5 H6).
Defined.

Example retrieve_uses_unfiltered :
  child_docs <$>
    (match fst (retrieve StubWorld llm_scripted search_one_filtered None ∅
                  dumps_text loads_text sample_question run_start) with
     | Ok r => Some r
     | Raise _ => None
     end)
  = Some [chunk_a; chunk_b; chunk_c; chunk_d; chunk_e].
Proof. vm_compute. reflexivity. Qed.

(** A vector store with no hit: the no-results answer, and the expansion
    chain is the only chain invoked. *)
Lemma query_no_results_witness :
  (forall q k f w,
     fst (search_nothing q k f w) = Ok [] \/
     exists e, fst (search_nothing q k f w) = Raise e) /\
  exists retrieval s1,
    retrieve StubWorld llm_scripted search_nothing None ∅ dumps_text loads_text
      sample_question run_start = (Ok retrieval, s1) /\
    child_docs retrieval = [] /\
    query StubWorld llm_scripted search_nothing None ∅ dumps_text loads_text
      sample_question run_start =
      (Ok {| answer := NOT_FOUND_ANSWER;
             sources := [];
             confidence := "no_results";
             hallucination_check := "n/a";
             queries_used := r_queries_used retrieval;
             num_relevant := 0;
             num_retrieved := 0 |}, s1) /\
    invoked s1 =
      invoked run_start ++ [MultiQueryChain sample_question MULTI_QUERY_COUNT].
Proof.
  assert (Hnone : forall q k f w,
            fst (search_nothing q k f w) = Ok [] \/
            exists e, fst (search_nothing q k f w) = Raise e)
    by (intros; left; reflexivity).
  split; [exact Hnone|].
  destruct (query_no_results StubWorld llm_scripted search_nothing None ∅
              dumps_text loads_text sample_question run_start)
    as [Hquery Hretrieve].
  destruct (Hretrieve Hnone) as (retrieval & s1 & Hrun & Hdocs).
  destruct (Hquery retrieval s1 Hrun Hdocs) as [Hq Hinv].
  exists retrieval, s1. repeat split; assumption.
Defined.

Example query_nothing_found :
  fst (query StubWorld llm_scripted search_nothing None ∅ dumps_text loads_text
         sample_question run_start)
  = Ok {| answer := NOT_FOUND_ANSWER;
          sources := [];
          confidence := "no_results";
          hallucination_check := "n/a";
          queries_used :=
            [sample_question; "disclosure duties of mutual funds";
             "mutual fund reporting"];
          num_relevant := 0;
          num_retrieved := 0 |}.
Proof. vm_compute. reflexivity. Qed.

(** A grader that answers " Not_Grounded ": low confidence, and the answer
    ends with the caveat. *)
Lemma grounding_verdict_and_confidence_witness :
  exists res s',
    query StubWorld llm_scripted search_one_filtered None ∅ dumps_text
      loads_text sample_question run_start = (Ok res, s') /\
    hallucination_check res = "not_grounded" /\
    confidence res = "low" /\
    answer res = "Funds disclose monthly." +:+ CAVEAT.
Proof.
  destruct (query StubWorld llm_scripted search_one_filtered None ∅ dumps_text
              loads_text sample_question run_start) as [[res|e] s'] eqn:Hq.
  2:{ vm_compute in Hq. discriminate. }
  exists res, s'. split; [reflexivity|].
  assert (Hhall : hallucination_check res = "not_grounded").
  { vm_compute in Hq. inversion Hq. reflexivity. }
  assert (Hgen : forall retrieval generated s1 s2,
            generate_answer StubWorld llm_scripted sample_question retrieval s1
              = (Ok generated, s2) ->
            generated = "Funds disclose monthly.").
  { intros retrieval generated s1 s2 H. unfold generate_answer, invoke in H.
    simpl in H. now inversion H. }
  destruct (proj2 (grounding_verdict_and_confidence StubWorld llm_scripted
                     search_one_filtered None ∅ dumps_text loads_text)
              sample_question run_start res s' Hq)
    as [[Hnone _]|(retrieval & generated & s1 & s2 & Hrun & _ & _ & _ & _ & _
                   & Hlow & Hcaveat & _)].
  - vm_compute in Hq. inversion Hq; subst res. discriminate Hnone.
  - split; [exact Hhall|]. split; [exact (Hlow Hhall)|].
    rewrite (Hcaveat Hhall). now rewrite (Hgen _ _ _ _ Hrun).
Defined.

(** The reply "Grounded" holds none of "not_grounded", "partial" and
    "grounded" as it stands, and yet the verdict is "grounded", not
    "unknown": the reply is lower-cased before it is searched. *)
Lemma grounding_reply_as_it_stands :
  fst (invoke StubWorld llm_capitalized
         (HallucinationChain (PyStr.take 6000 "context") "answer") run_start)
    = Ok "Grounded" /\
  PyStr.contains "not_grounded" "Grounded" = false /\
  PyStr.contains "partial" "Grounded" = false /\
  PyStr.contains "grounded" "Grounded" = false /\
  fst (check_hallucination StubWorld llm_capitalized "answer" "context"
         run_start) = Ok "grounded" /\
  fst (check_hallucination StubWorld llm_capitalized "answer" "context"
         run_start) <> Ok "unknown".
Proof. repeat split; discriminate. Qed.

Example read_grounding_priority :
  read_grounding "not_grounded" = "not_grounded" /\
  read_grounding "Partial, mostly grounded" = "partial" /\
  read_grounding " GROUNDED" = "grounded" /\
  read_grounding "yes" = "unknown".
Proof. repeat split. Qed.

Example check_hallucination_model_down :
  fst (check_hallucination StubWorld llm_down "answer" "context" run_start)
  = Ok "unknown".
Proof. reflexivity. Qed.


Example blank_document_skipped :
  fst (create_parent_child_chunks StubWorld split_windows uuid_counter no_header
         no_pages json_of
         {| di_full_text := "  " +:+ LF +:+ " ";
            di_filename := "x.pdf"; di_title := "x";
            di_date := None; di_audience := None; di_subject := None;
            di_is_latest := None; di_status := None;
            di_references := None |} 0)
  = Ok ([], []).
Proof. reflexivity. Qed.

Example expansion_trims_and_caps :
  fst (generate_multi_queries StubWorld llm_scripted sample_question run_start)
  = Ok [sample_question; "disclosure duties of mutual funds";
        "mutual fund reporting"] /\
  fst (generate_multi_queries StubWorld llm_down sample_question run_start)
  = Ok [sample_question] /\
  response_lines ("a" +:+ LF +:+ " b " +:+ LF +:+ LF +:+ "c" +:+ LF +:+ "d")
  = ["a"; "b"; "c"; "d"].
Proof. repeat split; vm_compute; reflexivity. Qed.

(** Of the two mutual-fund circulars of the latest date, the one that
    stands first is the active one. *)
Example versions_of_sample :
  map (fun c => (filename c, status c, is_latest c))
      (determine_latest_versions sample_circulars)
  = [ ("a.pdf", Some "SUPERSEDED", Some false);
      ("b.pdf", Some "ACTIVE", Some true);
      ("c.pdf", Some "ACTIVE", Some true);
      ("d.pdf", Some "SUPERSEDED", Some false) ].
Proof. vm_compute. reflexivity. Qed.

Example filter_of_sample_question :
  build_metadata_filter sample_question = Some sample_filter /\
  build_metadata_filter "What is a demat account?" = None /\
  build_metadata_filter "Rules for stock brokers" =
    Some (Where (AudienceIs "Stock Brokers")).
Proof. repeat split; vm_compute; reflexivity. Qed.

(** The scripted run: the chunks carry no source, so the one source listed
    is the default one. *)
Lemma query_sources_distinct_witness :
  exists res s',
    query StubWorld llm_scripted search_one_filtered None ∅ dumps_text
      loads_text sample_question run_start = (Ok res, s') /\
    NoDup (map src_file (sources res)) /\
    length (sources res) <= num_relevant res /\
    ((confidence res = "no_results" /\ sources res = [] /\ num_relevant res = 0) \/
     (confidence res ∈ ["high"; "medium"; "low"] /\ sources res <> [] /\
      1 <= num_relevant res)).
Proof.
  destruct (query StubWorld llm_scripted search_one_filtered None ∅ dumps_text
              loads_text sample_question run_start) as [[res|e] s'] eqn:Hq.
  2:{ vm_compute in Hq. discriminate. }
  exists res, s'. split; [reflexivity|].
  exact (query_sources_distinct StubWorld llm_scripted search_one_filtered None ∅
           dumps_text loads_text sample_question run_start res s' Hq).
Defined.

(** A plain question: one expansion, five grading calls, one generation and
    one grounding check. *)
Lemma query_without_filter_witness :
  build_metadata_filter plain_question = None /\
  exists res s',
    query StubWorld llm_scripted search_one_filtered None ∅ dumps_text
      loads_text plain_question run_start = (Ok res, s') /\
    length (invoked s') = 8 /\
    exists retrieval s1 calls,
      retrieve StubWorld llm_scripted search_one_filtered None ∅ dumps_text
        loads_text plain_question run_start = (Ok retrieval, s1) /\
      invoked s' =
        invoked run_start ++
        MultiQueryChain plain_question MULTI_QUERY_COUNT :: calls /\
      match child_docs retrieval with
      | [] => calls = []
      | docs =>
          exists generated,
            calls =
              map (fun doc =>
                     RelevanceChain (PyStr.take 800 (page_content doc))
                       plain_question) docs ++
              [ RagChain plain_question
                  (PyStr.or_else (child_context retrieval) "(no child context)")
                  (PyStr.or_else (parent_context retrieval) "(no parent context)")
                  (definitions retrieval);
                HallucinationChain
                  (PyStr.take 6000
                     (child_context retrieval +:+ LF +:+ LF
                      +:+ parent_context retrieval))
                  generated ] /\
            num_retrieved res = length docs /\
            length docs <= TOP_K /\
            1 <= num_relevant res <= length docs
      end.
Proof.
  assert (Hnone : build_metadata_filter plain_question = None)
    by (vm_compute; reflexivity).
  split; [exact Hnone|].
  destruct (query StubWorld llm_scripted search_one_filtered None ∅ dumps_text
              loads_text plain_question run_start) as [[res|e] s'] eqn:Hq.
  2:{ vm_compute in Hq. discriminate. }
  exists res, s'. split; [reflexivity|]. split.
  { vm_compute in Hq. inversion Hq. reflexivity. }
  exact (query_without_filter StubWorld llm_scripted search_one_filtered None ∅
           dumps_text loads_text plain_question run_start res s' Hnone Hq).
Defined.

(** Chunks are found and graded, and then the generation chain fails. *)
Lemma query_generation_failure_witness :
  exists retrieval s1,
    retrieve StubWorld llm_no_answer search_one_filtered None ∅ dumps_text
      loads_text plain_question run_start = (Ok retrieval, s1) /\
    child_docs retrieval <> [] /\
    (forall q cc pc defs w,
       exists e, fst (llm_no_answer (RagChain q cc pc defs) w) = Raise e) /\
    exists e s',
      query StubWorld llm_no_answer search_one_filtered None ∅ dumps_text
        loads_text plain_question run_start = (Raise e, s').
Proof.
  destruct (retrieve StubWorld llm_no_answer search_one_filtered None ∅
              dumps_text loads_text plain_question run_start)
    as [[retrieval|e] s1] eqn:Hretr.
  2:{ vm_compute in Hretr. discriminate. }
  assert (Hne : child_docs retrieval <> []).
  { vm_compute in Hretr. inversion Hretr. discriminate. }
  assert (Hdown : forall q cc pc defs w,
            exists e, fst (llm_no_answer (RagChain q cc pc defs) w) = Raise e).
  { intros. eexists. reflexivity. }
  exists retrieval, s1. split; [reflexivity|]. split; [exact Hne|].
  split; [exact Hdown|].
  exact (query_generation_failure StubWorld llm_no_answer search_one_filtered
           None ∅ dumps_text loads_text plain_question run_start retrieval s1
           Hretr Hne Hdown).
Defined.

(** The stub store returns one chunk or five. *)
Lemma retrieve_returns_witness :
  (forall q f w docs,
     fst (search_one_filtered q TOP_K f w) = Ok docs -> length docs <= TOP_K) /\
  exists retrieval s',
    retrieve StubWorld llm_down search_one_filtered None ∅ dumps_text loads_text
      sample_question run_start = (Ok retrieval, s') /\
    length (child_docs retrieval) <= TOP_K /\
    head (r_queries_used retrieval) = Some sample_question /\
    length (r_queries_used retrieval) <= 1 + MULTI_QUERY_COUNT /\
    metadata_filter retrieval = build_metadata_filter sample_question /\
    invoked s' =
      invoked run_start ++ [MultiQueryChain sample_question MULTI_QUERY_COUNT].
Proof.
  assert (Hbound : forall q f w docs,
            fst (search_one_filtered q TOP_K f w) = Ok docs ->
            length docs <= TOP_K).
  { intros q [f|] w docs H; inversion H; subst; unfold TOP_K; simpl; lia. }
  split; [exact Hbound|].
  exact (retrieve_returns StubWorld llm_down search_one_filtered None ∅
           dumps_text loads_text sample_question run_start Hbound).
Defined.

(** Two documents: one parent and two children for the long one, one
    parent and one child for the short one, with ids that differ. *)
Lemma process_all_documents_in_order_witness :
  exists ps cs w',
    process_all_documents StubWorld split_windows uuid_counter no_header
      no_pages json_of save_ok [long_doc; sample_doc] 0 = (Ok (ps, cs), w') /\
    length ps = 2 /\ length cs = 3 /\
    map chunk_text ps =
      concat (map (parent_pieces split_windows) [long_doc; sample_doc]) /\
    map chunk_text cs =
      concat (map (fun p => split_windows child_splitter (chunk_text p)) ps) /\
    (exists w1, save_ok (parent_store_of ps) w1 = (Ok tt, w')) /\
    (forall id, is_Some (parent_store_of ps !! id) <-> id ∈ map chunk_id ps).
Proof.
  destruct (process_all_documents StubWorld split_windows uuid_counter no_header
              no_pages json_of save_ok [long_doc; sample_doc] 0)
    as [[[ps cs]|e] w'] eqn:Hrun.
  2:{ vm_compute in Hrun. discriminate. }
  exists ps, cs, w'. split; [reflexivity|].
  split; [vm_compute in Hrun; inversion Hrun; reflexivity|].
  split; [vm_compute in Hrun; inversion Hrun; reflexivity|].
  exact (process_all_documents_in_order StubWorld split_windows uuid_counter
           no_header no_pages json_of save_ok [long_doc; sample_doc] 0 ps cs w'
           Hrun).
Defined.

Lemma parent_store_round_trip_witness :
  exists ps cs w',
    process_all_documents StubWorld split_windows uuid_counter no_header
      no_pages json_of save_ok [long_doc; sample_doc] 0 = (Ok (ps, cs), w') /\
    NoDup (map chunk_id ps) /\
    forall child, child ∈ cs ->
      exists parent_id parent_text,
        chunk_metadata child !! "parent_id" = Some (MStr parent_id) /\
        parent_store_of ps !! parent_id = Some parent_text /\
        chunk_text child ∈ split_windows child_splitter parent_text.
Proof.
  destruct (process_all_documents StubWorld split_windows uuid_counter no_header
              no_pages json_of save_ok [long_doc; sample_doc] 0)
    as [[[ps cs]|e] w'] eqn:Hrun.
  2:{ vm_compute in Hrun. discriminate. }
  assert (Hnd : NoDup (map chunk_id ps)).
  { vm_compute in Hrun. inversion Hrun. simpl.
    repeat (apply NoDup_cons; split;
            [rewrite ?elem_of_cons, elem_of_nil; intuition discriminate|]).
    apply NoDup_nil_2. }
  exists ps, cs, w'. split; [reflexivity|]. split; [exact Hnd|].
  exact (parent_store_round_trip StubWorld split_windows uuid_counter no_header
           no_pages json_of save_ok [long_doc; sample_doc] 0 ps cs w' Hrun Hnd).
Defined.

Lemma parent_context_of_child_witness :
  exists ps cs w',
    process_all_documents StubWorld split_windows uuid_counter no_header
      no_pages json_of save_ok [long_doc; sample_doc] 0 = (Ok (ps, cs), w') /\
    NoDup (map chunk_id ps) /\
    forall child doc,
      child ∈ cs -> metadata doc = chunk_metadata child ->
      exists parent,
        parent ∈ ps /\
        chunk_text child ∈ split_windows child_splitter (chunk_text parent) /\
        get_parent_context (parent_store_of ps) [doc] =
          if PyStr.nonempty (chunk_id parent) && PyStr.nonempty (chunk_text parent)
          then [chunk_text parent] else [].
Proof.
  destruct (process_all_documents StubWorld split_windows uuid_counter no_header
              no_pages json_of save_ok [long_doc; sample_doc] 0)
    as [[[ps cs]|e] w'] eqn:Hrun.
  2:{ vm_compute in Hrun. discriminate. }
  assert (Hnd : NoDup (map chunk_id ps)).
  { vm_compute in Hrun. inversion Hrun. simpl.
    repeat (apply NoDup_cons; split;
            [rewrite ?elem_of_cons, elem_of_nil; intuition discriminate|]).
    apply NoDup_nil_2. }
  exists ps, cs, w'. split; [reflexivity|]. split; [exact Hnd|].
  exact (parent_context_of_child StubWorld (parent_store_of ps) split_windows
           uuid_counter no_header no_pages json_of save_ok
           [long_doc; sample_doc] 0 ps cs w' Hrun Hnd eq_refl).
Defined.

Example table_to_markdown_sample :
  table_to_markdown sample_table =
    "| Fee | Rate |" +:+ LF +:+
    "| --- | --- |" +:+ LF +:+
    "| Entry\|Exit |  |" +:+ LF +:+
    "| 2 % |  |" /\
  table_to_markdown [[Some "Fee"; Some "Rate"]] = "" /\
  table_to_markdown [[None; Some " "]; [Some "Fee"]; [Some "1"]] =
    "| Fee |" +:+ LF +:+ "| --- |" +:+ LF +:+ "| 1 |".
Proof. repeat split; vm_compute; reflexivity. Qed.

(** A page text that ends with the sample table. *)
Lemma markdown_table_is_flagged_witness :
  2 <= length sample_table /\
  Forall (fun row => row <> []) sample_table /\
  PyStr.substring_of (table_to_markdown sample_table)
    ("Fees." +:+ LF +:+ LF +:+ table_to_markdown sample_table) /\
  looks_like_table ("Fees." +:+ LF +:+ LF +:+ table_to_markdown sample_table)
    = true.
Proof.
  assert (H1 : 2 <= length sample_table) by (simpl; lia).
  assert (H2 : Forall (fun row : list (option string) => row <> []) sample_table)
    by (repeat constructor; discriminate).
  assert (H3 : PyStr.substring_of (table_to_markdown sample_table)
                 ("Fees." +:+ LF +:+ LF +:+ table_to_markdown sample_table)).
  { exists ("Fees." +:+ LF +:+ LF), "". vm_compute. reflexivity. }
  split; [exact H1|]. split; [exact H2|]. split; [exact H3|].
  exact (markdown_table_is_flagged sample_table _ H1 H2 H3).
Defined.

(** The third sample circular, one of three on mutual funds. *)
Lemma versions_are_listed_witness :
  sample_circulars !! 2
    = Some (circular "c.pdf" "mutual funds" "2024-01-05T00:00:00") /\
  let members := ranks_of "mutual funds" (map subject_key sample_circulars) 0 in
  (forall j, j ∈ members <->
     exists cj, sample_circulars !! j = Some cj /\
                subject_key cj = "mutual funds") /\
  exists c' order,
    determine_latest_versions sample_circulars !! 2 = Some c' /\
    stable_desc_sorted PyStr.lt (date_at sample_circulars) members order /\
    if Nat.ltb 1 (length members)
    then version_count c' = Some (length members) /\
         all_versions c' = Some (map (filename_at sample_circulars) order)
    else version_count c' = None /\ all_versions c' = None.
Proof.
  split; [reflexivity|].
  exact (versions_are_listed sample_circulars 2
           (circular "c.pdf" "mutual funds" "2024-01-05T00:00:00") eq_refl).
Defined.

Example versions_listed_of_sample :
  map (fun c => (filename c, version_count c, all_versions c))
      (determine_latest_versions sample_circulars)
  = [ ("a.pdf", Some 3, Some ["c.pdf"; "d.pdf"; "a.pdf"]);
      ("b.pdf", None, None);
      ("c.pdf", Some 3, Some ["c.pdf"; "d.pdf"; "a.pdf"]);
      ("d.pdf", Some 3, Some ["c.pdf"; "d.pdf"; "a.pdf"]) ].
Proof. vm_compute. reflexivity. Qed.

Lemma in_range_sample (y m d : nat) :
  Nat.leb 1 y && Nat.ltb y (10 ^ 4) && Nat.leb 1 m && Nat.leb m 12
  && Nat.leb 1 d && Nat.leb d 31 = true ->
  in_range (date_of y m d).
Proof.
  intros H. repeat (apply andb_true_iff in H as [H ?]).
  unfold in_range; simpl.
  repeat split;
    first [now apply Nat.leb_le | now apply Nat.ltb_lt].
Qed.

(** 5 January 2022 stands before 1 March 2023. *)
Lemma isoformat_sorts_by_date_witness :
  in_range (date_of 2022 1 5) /\ in_range (date_of 2023 3 1) /\
  isoformat (date_of 2022 1 5) = "2022-01-05T00:00:00" /\
  (PyStr.lt (isoformat (date_of 2022 1 5)) (isoformat (date_of 2023 3 1)) = true
   <-> earlier (date_of 2022 1 5) (date_of 2023 3 1)) /\
  (isoformat (date_of 2022 1 5) = isoformat (date_of 2023 3 1)
   <-> date_of 2022 1 5 = date_of 2023 3 1) /\
  PyStr.lt (date_parsed_of None) (isoformat (date_of 2022 1 5)) = true /\
  PyStr.lt (isoformat (date_of 2022 1 5)) (date_parsed_of None) = false.
Proof.
  assert (H1 : in_range (date_of 2022 1 5))
    by (apply in_range_sample; vm_compute; reflexivity).
  assert (H2 : in_range (date_of 2023 3 1))
    by (apply in_range_sample; vm_compute; reflexivity).
  split; [exact H1|]. split; [exact H2|].
  split; [vm_compute; reflexivity|].
  exact (isoformat_sorts_by_date (date_of 2022 1 5) (date_of 2023 3 1) H1 H2).
Defined.

(** The sample circulars with the dates of their names. *)
Lemma active_is_most_recent_witness :
  Forall2 (fun c d => date_parsed c = Some (date_parsed_of d))
          sample_circulars sample_dates /\
  Forall (fun d => match d with Some d => in_range d | None => True end)
         sample_dates /\
  forall i c',
    determine_latest_versions sample_circulars !! i = Some c' ->
    status c' = Some "ACTIVE" ->
    forall j cj,
      sample_circulars !! j = Some cj -> subject_key cj = subject_key c' ->
      exists di dj,
        sample_dates !! i = Some di /\ sample_dates !! j = Some dj /\
        ~ date_before di dj /\
        (~ date_before dj di -> i <= j).
Proof.
  assert (H1 : Forall2 (fun c d => date_parsed c = Some (date_parsed_of d))
                 sample_circulars sample_dates).
  { repeat constructor; vm_compute; reflexivity. }
  assert (H2 : Forall (fun d => match d with
                                | Some d => in_range d
                                | None => True
                                end) sample_dates).
  { repeat constructor; apply in_range_sample; vm_compute; reflexivity. }
  split; [exact H1|]. split; [exact H2|].
  exact (active_is_most_recent sample_circulars sample_dates H1 H2).
Defined.

